(** * Magic-link admin application: access control and structured LLM answers

    A shallow embedding of the decision logic of the application:

    - [src/lib/auth.ts]: [isEmailAllowed], the [createUser] adapter override
      and the [signIn] callback;
    - [src/app/api/admin/users/[id]/route.ts]: the [PATCH] handler;
    - [src/app/api/email-whitelist/route.ts]: the [POST] handler, over the
      [email_whitelist] table of [db/schema/email-whitelist.ts];
    - [src/lib/services/llm/llm.ts]: [zodSchemaToJsonSchema] and
      [answerStructured].

    Conventions.  A JavaScript string is a [string] of code units; the model
    covers the 7-bit range (letters A-Z are the only characters changed by
    [toLowerCase], the white space characters are those below 128).  A
    database is a record of tables, each a list of rows in insertion order;
    handlers run in a state-and-exception monad over it.  The datastore is
    taken to be available: the only failures of a query are constraint
    violations.  A JavaScript number is [NaN], an infinity or a rational;
    the counter of the retry loop is an integer, exact as it is in
    JavaScript below 2^53.  Console output is not modelled. *)

From Stdlib Require Import String Ascii List ZArith QArith Lia Bool DecimalString.
From Stdlib Require Import Permutation Qround.
Import ListNotations.
Local Open Scope string_scope.

(** ** JavaScript strings *)

Module JsString.

(** [s.split(sep)] for a one-character separator. *)
Fixpoint split (sep : ascii) (s : string) : list string :=
  match s with
  | EmptyString => [EmptyString]
  | String c rest =>
      if Ascii.eqb c sep then EmptyString :: split sep rest
      else match split sep rest with
           | [] => [String c EmptyString]
           | piece :: pieces => String c piece :: pieces
           end
  end.

(** [arr.includes(x)] on an array of strings, where [x] may be
    [undefined] ([None]): SameValueZero never equates a string with
    [undefined]. *)
Definition includes (arr : list string) (x : option string) : bool :=
  match x with
  | Some v => existsb (String.eqb v) arr
  | None => false
  end.

Definition is_upper (c : ascii) : bool :=
  let n := nat_of_ascii c in (65 <=? n)%nat && (n <=? 90)%nat.

Definition lower_char (c : ascii) : ascii :=
  if is_upper c then ascii_of_nat (nat_of_ascii c + 32) else c.

(** [s.toLowerCase()]. *)
Fixpoint toLowerCase (s : string) : string :=
  match s with
  | EmptyString => EmptyString
  | String c rest => String (lower_char c) (toLowerCase rest)
  end.

(** The class [\s]: tab, line feed, vertical tab, form feed, carriage
    return and space. *)
Definition is_space (c : ascii) : bool :=
  let n := nat_of_ascii c in
  ((9 <=? n)%nat && (n <=? 13)%nat) || (n =? 32)%nat.

Fixpoint trimStart (s : string) : string :=
  match s with
  | EmptyString => EmptyString
  | String c rest => if is_space c then trimStart rest else s
  end.

(** Drops the trailing white space: a character is kept when it is not a
    space or something is kept after it. *)
Fixpoint trimEnd (s : string) : string :=
  match s with
  | EmptyString => EmptyString
  | String c rest =>
      match trimEnd rest with
      | EmptyString => if is_space c then EmptyString else String c EmptyString
      | kept => String c kept
      end
  end.

(** [s.trim()]. *)
Definition trim (s : string) : string := trimEnd (trimStart s).

(** [s.includes(needle)]. *)
Fixpoint str_includes (needle s : string) : bool :=
  String.prefix needle s ||
  match s with
  | EmptyString => false
  | String _ rest => str_includes needle rest
  end.

(** Truthiness of a string: the empty string is falsy. *)
Definition truthy (s : string) : bool :=
  match s with EmptyString => false | _ => true end.

(** The line feed and the double quote, as one-character strings. *)
Definition nl : string := String "010"%char EmptyString.
Definition dquote : string := String "034"%char EmptyString.

(** No character of [s] is white space. *)
Definition spaceless (s : string) : Prop :=
  Forall (fun c => negb (is_space c) = true) (list_ascii_of_string s).

End JsString.

(** ** Errors *)

(** A thrown [Error], identified by its message. *)
Record Error := mkError { message : string }.

Inductive Res (A : Type) : Type :=
| Ok (a : A)
| Throw (e : Error).
Arguments Ok {A} a.
Arguments Throw {A} e.

(** ** JavaScript values *)

(** The values that [JSON.parse] yields and that the handlers build, with
    [undefined].  [JNum] carries the integers; an object is its list of
    fields in property order, with distinct keys. *)
#[warnings="-register-all"]
Inductive js : Type :=
| JUndefined
| JNull
| JBool (b : bool)
| JNum (n : Z)
| JStr (s : string)
| JArr (items : list js)
| JObj (fields : list (string * js)).

Module Js.

(** ToBoolean. *)
Definition truthy (v : js) : bool :=
  match v with
  | JUndefined | JNull => false
  | JBool b => b
  | JNum n => negb (n =? 0)%Z
  | JStr s => JsString.truthy s
  | JArr _ | JObj _ => true
  end.

Definition string_of_Z (n : Z) : string :=
  NilZero.string_of_int (Z.to_int n).

Fixpoint join (sep : string) (pieces : list string) : string :=
  match pieces with
  | [] => EmptyString
  | [piece] => piece
  | piece :: rest => piece ++ sep ++ join sep rest
  end.

(** ToString; an array prints its elements joined by commas, [null] and
    [undefined] elements as the empty string. *)
Fixpoint toString (v : js) : string :=
  match v with
  | JUndefined => "undefined"
  | JNull => "null"
  | JBool true => "true"
  | JBool false => "false"
  | JNum n => string_of_Z n
  | JStr s => s
  | JArr items =>
      join ","
        (map (fun item =>
                match item with
                | JUndefined | JNull => EmptyString
                | _ => toString item
                end) items)
  | JObj _ => "[object Object]"
  end.

(** [obj[key]] on the fields of an object. *)
Fixpoint get (key : string) (fields : list (string * js)) : js :=
  match fields with
  | [] => JUndefined
  | (k, v) :: rest => if String.eqb k key then v else get key rest
  end.

(** [obj[key] = v]: an existing property keeps its place. *)
Fixpoint set (key : string) (v : js) (fields : list (string * js))
  : list (string * js) :=
  match fields with
  | [] => [(key, v)]
  | (k, old) :: rest =>
      if String.eqb k key then (k, v) :: rest
      else (k, old) :: set key v rest
  end.

(** [const { key } = value]: [null] and [undefined] cannot be
    destructured; a value that is not an object has none of the keys the
    handlers read. *)
Definition destructure (source key : string) (value : js) : Res js :=
  match value with
  | JObj fields => Ok (get key fields)
  | JNull =>
      Throw (mkError ("Cannot destructure property '" ++ key ++ "' of '"
                      ++ source ++ "' as it is null."))
  | JUndefined =>
      Throw (mkError ("Cannot destructure property '" ++ key ++ "' of '"
                      ++ source ++ "' as it is undefined."))
  | _ => Ok JUndefined
  end.

(** [{...value}] for the object that is spread. *)
Definition spread (value : js) : list (string * js) :=
  match value with
  | JObj fields => fields
  | _ => []
  end.

End Js.

(** ** The datastore *)

(** A row of [email_whitelist]: [id] is the primary key, [email] is
    [notNull().unique()]; [notes] holds the value bound to the column,
    [JNull] for none. *)
Record EmailWhitelist := mkEmailWhitelist {
  wl_id : string;
  wl_email : string;
  wl_createdAt : Z;
  wl_createdBy : option string;
  wl_notes : js
}.

(** Modelled from the spec: the [users] table of [db/schema/auth], which is
    not among the sources.  The columns are those the handlers select
    ([id], [name], [email], [image], [isAdmin], [emailVerified]); the spec
    describes [isAdmin] as a boolean flag on the user entity. *)
Record User := mkUser {
  user_id : string;
  user_name : option string;
  user_email : option string;
  user_emailVerified : option Z;
  user_image : option string;
  user_isAdmin : bool
}.

Record Db := mkDb {
  email_whitelist : list EmailWhitelist;
  users : list User
}.

(** Computations over the datastore that may throw. *)
Definition M (A : Type) : Type := Db -> Res A * Db.

Definition ret {A} (a : A) : M A := fun db => (Ok a, db).

Definition bind {A B} (m : M A) (k : A -> M B) : M B :=
  fun db =>
    match m db with
    | (Ok a, db') => k a db'
    | (Throw e, db') => (Throw e, db')
    end.

Definition throw {A} (e : Error) : M A := fun db => (Throw e, db).

(** [try { body } catch (error) { handler }]. *)
Definition try_catch {A} (body : M A) (handler : Error -> M A) : M A :=
  fun db =>
    match body db with
    | (Ok a, db') => (Ok a, db')
    | (Throw e, db') => handler e db'
    end.

Declare Scope db_scope.
Delimit Scope db_scope with db.
Notation "x <- m ;; k" := (bind m (fun x => k))
  (at level 100, m at next level, right associativity) : db_scope.
Local Open Scope db_scope.

(** ** Configuration ([lib/config]) *)

Module Config.

(** [getOptionalEnvVar(key)]: an unset or empty variable is [undefined]. *)
Definition getOptionalEnvVar (value : option string) : option string :=
  match value with
  | Some v => if JsString.truthy v then Some v else None
  | None => None
  end.

(** [getOptionalEnvVar("ALLOWED_EMAIL_DOMAINS")?.split(",").map((d) =>
    d.trim()) || []]. *)
Definition allowedEmailDomains_of_env (value : option string) : list string :=
  match getOptionalEnvVar value with
  | Some v => map JsString.trim (JsString.split "," v)
  | None => []
  end.

Record AuthConfig := mkAuthConfig { allowedEmailDomains : list string }.

End Config.

(** ** [lib/auth.ts] *)

Module Auth.
Import JsString Config.

(** [email.split("@")[1]]; [None] is [undefined]. *)
Definition emailDomain (email : string) : option string :=
  nth_error (split "@" email) 1.

(** [db.select().from(emailWhitelist).where(eq(emailWhitelist.email, e))
    .limit(1)]. *)
Definition select_whitelist_by_email (e : string) : M (list EmailWhitelist) :=
  fun db =>
    (Ok (firstn 1 (filter (fun row => String.eqb (wl_email row) e)
                          (email_whitelist db))), db).

(** Data handed to [createUser] by the authentication library. *)
Record AdapterUser := mkAdapterUser {
  au_id : string;
  au_name : option string;
  au_email : option string;
  au_emailVerified : option Z;
  au_image : option string
}.

(** [db.insert(users).values(row).returning()]. *)
Definition insert_user (row : User) : M (list User) :=
  fun db =>
    (Ok [row], {| email_whitelist := email_whitelist db;
                  users := users db ++ [row] |}).

Section WithConfig.
Variable authConfig : AuthConfig.

(** The lookup of the second half of [isEmailAllowed]. *)
Definition checkWhitelist (email : string) : M bool :=
  whitelistedEmail <- select_whitelist_by_email (toLowerCase email) ;;
  ret (0 <? length whitelistedEmail)%nat.

Definition isEmailAllowed (email : string) : M bool :=
  let allowedDomains := allowedEmailDomains authConfig in
  if (0 <? length allowedDomains)%nat then
    let emailDomain := emailDomain email in
    if includes allowedDomains emailDomain then ret true
    else checkWhitelist email
  else checkWhitelist email.

Definition shouldBeAdmin (email : option string) : bool :=
  let allowedDomains := allowedEmailDomains authConfig in
  match email with
  | Some e =>
      if truthy e && (0 <? length allowedDomains)%nat
      then includes allowedDomains (emailDomain e)
      else false
  | None => false
  end.

(** The [createUser] override of the adapter: the row is [{...userData,
    isAdmin: shouldBeAdmin}]. *)
Definition createUser (userData : AdapterUser) : M User :=
  newUser <- insert_user
    {| user_id := au_id userData;
       user_name := au_name userData;
       user_email := au_email userData;
       user_emailVerified := au_emailVerified userData;
       user_image := au_image userData;
       user_isAdmin := shouldBeAdmin (au_email userData) |} ;;
  match nth_error newUser 0 with
  | Some created => ret created
  | None =>
      throw (mkError "Cannot read properties of undefined (reading 'email')")
  end.

(** The [signIn] callback; [email] is [user.email], possibly absent. *)
Definition signIn (email : option string) : M bool :=
  match email with
  | Some e =>
      if truthy e then
        isAllowed <- isEmailAllowed e ;;
        if negb isAllowed then ret false else ret true
      else throw (mkError "AccessDenied")
  | None => throw (mkError "AccessDenied")
  end.

End WithConfig.

(** The whitelist table holds a row for the address [e]. *)
Definition whitelisted (db : Db) (e : string) : Prop :=
  exists row, In row (email_whitelist db) /\ wl_email row = e.

(** The domain rule: the set of allowed domains is not empty and holds
    the domain of the address. *)
Definition domain_rule (cfg : AuthConfig) (email : string) : Prop :=
  allowedEmailDomains cfg <> [] /\
  exists d, emailDomain email = Some d /\ In d (allowedEmailDomains cfg).


End Auth.

(** ** Regular expressions *)

Module Regex.

(** The regular expressions the handlers use, over character classes. *)
Inductive re : Type :=
| Empty
| Eps
| Class (p : ascii -> bool)
| Cat (a b : re)
| Alt (a b : re)
| Star (a : re).

(** [a+]. *)
Definition Plus (a : re) : re := Cat a (Star a).

Definition Chr (c : ascii) : re := Class (Ascii.eqb c).

Fixpoint nullable (r : re) : bool :=
  match r with
  | Empty => false
  | Eps => true
  | Class _ => false
  | Cat a b => nullable a && nullable b
  | Alt a b => nullable a || nullable b
  | Star _ => true
  end.

(** The residual of [r] after reading [c]. *)
Fixpoint deriv (c : ascii) (r : re) : re :=
  match r with
  | Empty => Empty
  | Eps => Empty
  | Class p => if p c then Eps else Empty
  | Cat a b =>
      if nullable a then Alt (Cat (deriv c a) b) (deriv c b)
      else Cat (deriv c a) b
  | Alt a b => Alt (deriv c a) (deriv c b)
  | Star a => Cat (deriv c a) (Star a)
  end.

(** [/^r$/.test(s)]: the whole of [s] matches [r]. *)
Fixpoint test (r : re) (s : string) : bool :=
  match s with
  | EmptyString => nullable r
  | String c rest => test (deriv c r) rest
  end.

(** A syntactic criterion for matching no string. *)
Fixpoint dead (r : re) : bool :=
  match r with
  | Empty => true
  | Eps | Class _ | Star _ => false
  | Cat a b => dead a || dead b
  | Alt a b => dead a && dead b
  end.

(** Every class of [r] lies within [P]. *)
Fixpoint within (P : ascii -> bool) (r : re) : Prop :=
  match r with
  | Empty | Eps => True
  | Class p => forall c, p c = true -> P c = true
  | Cat a b | Alt a b => within P a /\ within P b
  | Star a => within P a
  end.

End Regex.

(** ** Sessions and responses *)

(** [session.user] as the [session] callback of [lib/auth.ts] fills it. *)
Record SessionUser := mkSessionUser {
  su_id : string;
  su_isAdmin : bool
}.

(** The result of [auth()]; [None] is no session. *)
Record Session := mkSession { session_user : option SessionUser }.

(** [session?.user?.isAdmin], [undefined] read as false. *)
Definition session_isAdmin (session : option Session) : bool :=
  match session with
  | Some {| session_user := Some u |} => su_isAdmin u
  | _ => false
  end.

Record Response := mkResponse {
  status : Z;
  body : js
}.

(** [NextResponse.json(body, { status })]; the status defaults to 200. *)
Definition NextResponse_json (payload : js) (st : option Z) : Response :=
  {| status := match st with Some n => n | None => 200%Z end;
     body := payload |}.

Definition error_json (msg : string) : js := JObj [("error", JStr msg)].
Definition success_json : js := JObj [("success", JBool true)].

(** Lifts the outcome of a step that does not touch the datastore. *)
Definition lift {A} (r : Res A) : M A := fun db => (r, db).

(** ** [app/api/admin/users/[id]/route.ts] *)

Module AdminUsersRoute.

(** [db.update(users).set({ isAdmin }).where(eq(users.id, userId))]. *)
Definition update_isAdmin (isAdmin : bool) (userId : string) : M unit :=
  fun db =>
    (Ok tt,
     {| email_whitelist := email_whitelist db;
        users :=
          map (fun u =>
                 if String.eqb (user_id u) userId
                 then {| user_id := user_id u;
                         user_name := user_name u;
                         user_email := user_email u;
                         user_emailVerified := user_emailVerified u;
                         user_image := user_image u;
                         user_isAdmin := isAdmin |}
                 else u)
              (users db) |}).

(** [PATCH(req, { params })]: [session] is the result of [auth()],
    [req_json] the outcome of [req.json()], [userId] is [params.id]. *)
Definition PATCH (session : option Session) (req_json : Res js)
           (userId : string) : M Response :=
  match session with
  | Some {| session_user := Some user |} =>
      if negb (su_isAdmin user)
      then ret (NextResponse_json (error_json "Unauthorized") (Some 401%Z))
      else
        try_catch
          (parsed <- lift req_json ;;
           isAdmin <- lift (Js.destructure "(intermediate value)" "isAdmin"
                                           parsed) ;;
           match isAdmin with
           | JBool isAdmin =>
               if String.eqb (su_id user) userId && negb isAdmin
               then ret (NextResponse_json
                           (error_json
                              "You cannot remove your own admin privileges")
                           (Some 400%Z))
               else
                 _ <- update_isAdmin isAdmin userId ;;
                 ret (NextResponse_json success_json None)
           | _ =>
               ret (NextResponse_json (error_json "Invalid isAdmin value")
                                      (Some 400%Z))
           end)
          (fun _ =>
             ret (NextResponse_json (error_json "Failed to update user")
                                    (Some 500%Z)))
  | _ => ret (NextResponse_json (error_json "Unauthorized") (Some 401%Z))
  end.

(** [new] is the row [old] after the admin flag of the user [userId] is
    set to [isAdmin]: the flag changes on that user only, nothing else
    does. *)
Definition flag_set (isAdmin : bool) (userId : string) (old new : User)
  : Prop :=
  user_id new = user_id old /\
  user_name new = user_name old /\
  user_email new = user_email old /\
  user_emailVerified new = user_emailVerified old /\
  user_image new = user_image old /\
  user_isAdmin new =
    (if String.eqb (user_id old) userId then isAdmin else user_isAdmin old).

End AdminUsersRoute.

(** ** [app/api/email-whitelist/route.ts] *)

Module EmailWhitelistRoute.
Import Regex.

(** [[^\s@]]. *)
Definition not_space_at (c : ascii) : bool :=
  negb (JsString.is_space c || Ascii.eqb c "@").

(** [/^[^\s@]+@[^\s@]+\.[^\s@]+$/]. *)
Definition emailRegex : re :=
  Cat (Plus (Class not_space_at))
      (Cat (Chr "@")
           (Cat (Plus (Class not_space_at))
                (Cat (Chr ".") (Plus (Class not_space_at))))).

Section Driver.

(** The message of the error that the database driver throws for a
    violation of the constraint of the given name: a unique index or the
    foreign key. *)
Variable violation_message : string -> string.

Definition unique_violation (constraint : string) : Error :=
  mkError (violation_message constraint).

Definition foreign_key_violation (constraint : string) : Error :=
  mkError (violation_message constraint).

(** [createdBy: text("created_by").references(() => users.id, ...)]: a
    value that is not null is the id of a row of [users]. *)
Definition references_user (createdBy : option string) (us : list User)
  : bool :=
  match createdBy with
  | Some id => existsb (fun u => String.eqb (user_id u) id) us
  | None => true
  end.

(** [db.insert(emailWhitelist).values(row).returning()], under the
    primary key on [id], the unique index on [email], which are checked
    as the row goes in, and the foreign key of [created_by], which is
    checked after them. *)
Definition insert_whitelist (row : EmailWhitelist)
  : M (list EmailWhitelist) :=
  fun db =>
    if existsb (fun r => String.eqb (wl_id r) (wl_id row))
               (email_whitelist db)
    then (Throw (unique_violation "email_whitelist_pkey"), db)
    else if existsb (fun r => String.eqb (wl_email r) (wl_email row))
                    (email_whitelist db)
    then (Throw (unique_violation "email_whitelist_email_unique"), db)
    else if negb (references_user (wl_createdBy row) (users db))
    then (Throw (foreign_key_violation
                   "email_whitelist_created_by_users_id_fk"), db)
    else (Ok [row],
          {| email_whitelist := email_whitelist db ++ [row];
             users := users db |}).

(** The row as the response prints it. *)
Definition row_json (row : EmailWhitelist) : js :=
  JObj [("id", JStr (wl_id row));
        ("email", JStr (wl_email row));
        ("createdAt", JNum (wl_createdAt row));
        ("createdBy", match wl_createdBy row with
                      | Some u => JStr u
                      | None => JNull
                      end);
        ("notes", wl_notes row)].

(** [POST(request)]: [session] is the result of [auth()], [req_json] the
    outcome of [request.json()]; [uuid] and [now] are the values the
    column defaults [crypto.randomUUID()] and [new Date()] produce. *)
Definition POST (session : option Session) (req_json : Res js)
           (uuid : string) (now : Z) : M Response :=
  try_catch
    (match session with
     | Some {| session_user := Some user |} =>
         if negb (su_isAdmin user)
         then ret (NextResponse_json (error_json "Unauthorized")
                                     (Some 401%Z))
         else
           parsed <- lift req_json ;;
           email <- lift (Js.destructure "body" "email" parsed) ;;
           notes <- lift (Js.destructure "body" "notes" parsed) ;;
           if negb (Js.truthy email)
           then ret (NextResponse_json (error_json "Email is required")
                                       (Some 400%Z))
           else if negb (test emailRegex (Js.toString email))
           then ret (NextResponse_json (error_json "Invalid email format")
                                       (Some 400%Z))
           else
             match email with
             | JStr email =>
                 inserted <- insert_whitelist
                   {| wl_id := uuid;
                      wl_email := JsString.trim (JsString.toLowerCase email);
                      wl_createdAt := now;
                      wl_createdBy := Some (su_id user);
                      wl_notes := if Js.truthy notes then notes else JNull |} ;;
                 match nth_error inserted 0 with
                 | Some newEmail => ret (NextResponse_json (row_json newEmail) None)
                 | None => ret (NextResponse_json JUndefined None)
                 end
             | _ => throw (mkError "email.toLowerCase is not a function")
             end
     | _ => ret (NextResponse_json (error_json "Unauthorized") (Some 401%Z))
     end)
    (fun error =>
       if JsString.str_includes "unique" (message error)
       then ret (NextResponse_json (error_json "Email is already whitelisted")
                                   (Some 409%Z))
       else ret (NextResponse_json
                   (error_json "Failed to add email to whitelist")
                   (Some 500%Z))).

End Driver.

(** The text PostgreSQL gives to a violation of the foreign key, and of
    a unique index. *)
Definition postgres_message (constraint : string) : string :=
  if String.eqb constraint "email_whitelist_created_by_users_id_fk"
  then "insert or update on table "
       ++ JsString.dquote ++ "email_whitelist" ++ JsString.dquote
       ++ " violates foreign key constraint "
       ++ JsString.dquote ++ constraint ++ JsString.dquote
  else "duplicate key value violates unique constraint "
       ++ JsString.dquote ++ constraint ++ JsString.dquote.

(** The answer of the [catch] block to the error of a query. *)
Definition failure_response (error : Error) : Response :=
  if JsString.str_includes "unique" (message error)
  then NextResponse_json (error_json "Email is already whitelisted")
                         (Some 409%Z)
  else NextResponse_json (error_json "Failed to add email to whitelist")
                         (Some 500%Z).

Definition lowercase (s : string) : Prop := JsString.toLowerCase s = s.

(** The invariant of the table: emails are lowercase and distinct. *)
Definition wl_invariant (table : list EmailWhitelist) : Prop :=
  Forall (fun row => lowercase (wl_email row)) table /\
  NoDup (map wl_email table).

(** The table holds an email equal to [e] up to case. *)
Definition ci_duplicate (table : list EmailWhitelist) (e : string) : Prop :=
  exists row,
    In row table /\
    JsString.toLowerCase (wl_email row) = JsString.toLowerCase e.

(** The datastore after [row] is added to [email_whitelist]. *)
Definition with_whitelist_row (db : Db) (row : EmailWhitelist) : Db :=
  {| email_whitelist := email_whitelist db ++ [row]; users := users db |}.

End EmailWhitelistRoute.

(** ** [app/api/email-whitelist/[id]/route.ts] *)

Module EmailWhitelistIdRoute.

(** [db.delete(emailWhitelist).where(eq(emailWhitelist.id, id))
    .returning()]. *)
Definition delete_whitelist (id : string) : M (list EmailWhitelist) :=
  fun db =>
    (Ok (filter (fun r => String.eqb (wl_id r) id) (email_whitelist db)),
     {| email_whitelist :=
          filter (fun r => negb (String.eqb (wl_id r) id)) (email_whitelist db);
        users := users db |}).

Definition with_notes (notes : js) (row : EmailWhitelist) : EmailWhitelist :=
  {| wl_id := wl_id row;
     wl_email := wl_email row;
     wl_createdAt := wl_createdAt row;
     wl_createdBy := wl_createdBy row;
     wl_notes := notes |}.

(** [db.update(emailWhitelist).set({ notes }).where(eq(emailWhitelist.id,
    id)).returning()]. *)
Definition update_notes (notes : js) (id : string) : M (list EmailWhitelist) :=
  fun db =>
    (Ok (map (with_notes notes)
             (filter (fun r => String.eqb (wl_id r) id) (email_whitelist db))),
     {| email_whitelist :=
          map (fun r => if String.eqb (wl_id r) id then with_notes notes r
                        else r)
              (email_whitelist db);
        users := users db |}).

(** [DELETE(request, context)]; [id] is [context.params.id]. *)
Definition DELETE (session : option Session) (id : string) : M Response :=
  try_catch
    (if negb (session_isAdmin session)
     then ret (NextResponse_json (error_json "Unauthorized") (Some 401%Z))
     else
       deleted <- delete_whitelist id ;;
       match nth_error deleted 0 with
       | None =>
           ret (NextResponse_json (error_json "Email not found") (Some 404%Z))
       | Some deletedEmail => ret (NextResponse_json success_json None)
       end)
    (fun _ =>
       ret (NextResponse_json
              (error_json "Failed to remove email from whitelist")
              (Some 500%Z))).

(** [PATCH(request, context)]: the notes of an entry. *)
Definition PATCH (session : option Session) (req_json : Res js) (id : string)
  : M Response :=
  try_catch
    (if negb (session_isAdmin session)
     then ret (NextResponse_json (error_json "Unauthorized") (Some 401%Z))
     else
       parsed <- lift req_json ;;
       notes <- lift (Js.destructure "body" "notes" parsed) ;;
       updated <- update_notes (if Js.truthy notes then notes else JNull) id ;;
       match nth_error updated 0 with
       | None =>
           ret (NextResponse_json (error_json "Email not found") (Some 404%Z))
       | Some updatedEmail =>
           ret (NextResponse_json (EmailWhitelistRoute.row_json updatedEmail)
                                  None)
       end)
    (fun _ =>
       ret (NextResponse_json
              (error_json "Failed to update email whitelist")
              (Some 500%Z))).

(** [onDelete: "set null"] of [created_by]: the table after the users
    whose id [gone] holds of are deleted. *)
Definition set_null (gone : string -> bool) (table : list EmailWhitelist)
  : list EmailWhitelist :=
  map (fun row =>
         match wl_createdBy row with
         | Some id =>
             if gone id
             then {| wl_id := wl_id row;
                     wl_email := wl_email row;
                     wl_createdAt := wl_createdAt row;
                     wl_createdBy := None;
                     wl_notes := wl_notes row |}
             else row
         | None => row
         end) table.

(** The datastores that the handlers of the whitelist produce from an empty
    table; the other handlers write to [users] only, and a user that is
    deleted leaves a null in the entries it created. *)
Inductive reachable : Db -> Prop :=
| reach_empty (us : list User) : reachable {| email_whitelist := []; users := us |}
| reach_users (db : Db) (us : list User) :
    reachable db ->
    reachable {| email_whitelist := email_whitelist db; users := us |}
| reach_set_null (db : Db) (us : list User) (gone : string -> bool) :
    reachable db ->
    reachable {| email_whitelist := set_null gone (email_whitelist db);
                 users := us |}
| reach_POST (db db' : Db) violation_message session req_json uuid now
             response :
    reachable db ->
    EmailWhitelistRoute.POST violation_message session req_json uuid now db
    = (response, db') ->
    reachable db'
| reach_DELETE (db db' : Db) session id response :
    reachable db ->
    DELETE session id db = (response, db') ->
    reachable db'
| reach_PATCH (db db' : Db) session req_json id response :
    reachable db ->
    PATCH session req_json id db = (response, db') ->
    reachable db'.

End EmailWhitelistIdRoute.

(** ** JS numbers

    A number as [answerStructured] reads it: [NaN], the two infinities, or
    a finite value, which is a rational.  The loop counter and the waits
    are integers, whose arithmetic is exact, as it is in JS below 2^53. *)

Module Number.

Inductive number : Type :=
| NaN
| Infinity
| NegInfinity
| Finite (q : Q).

Definition of_Z (z : Z) : number := Finite (inject_Z z).

(** [a < b]. *)
Definition lt (a b : number) : bool :=
  match a, b with
  | NaN, _ | _, NaN => false
  | Finite p, Finite q =>
      match (p ?= q)%Q with Lt => true | _ => false end
  | Infinity, _ => false
  | _, NegInfinity => false
  | _, _ => true
  end.

(** [a <= b]. *)
Definition le (a b : number) : bool :=
  match a, b with
  | NaN, _ | _, NaN => false
  | Finite p, Finite q => Qle_bool p q
  | NegInfinity, _ => true
  | _, Infinity => true
  | _, _ => false
  end.

(** [a === b]. *)
Definition strict_eq (a b : number) : bool :=
  match a, b with
  | Finite p, Finite q => Qeq_bool p q
  | Infinity, Infinity => true
  | NegInfinity, NegInfinity => true
  | _, _ => false
  end.

(** [a - b]. *)
Definition sub (a b : number) : number :=
  match a, b with
  | NaN, _ | _, NaN => NaN
  | Finite p, Finite q => Finite (p - q)
  | Infinity, Infinity => NaN
  | NegInfinity, NegInfinity => NaN
  | Infinity, _ => Infinity
  | NegInfinity, _ => NegInfinity
  | Finite _, Infinity => NegInfinity
  | Finite _, NegInfinity => Infinity
  end.

(** The integer a number is, when it is one. *)
Definition to_integer (n : number) : option Z :=
  match n with
  | Finite q =>
      let r := Qred q in
      if Pos.eqb (Qden r) 1 then Some (Qnum r) else None
  | _ => None
  end.

(** The text of a number in a template literal: an integer below 10^21
    prints its digits; [decimal] is the text JS gives to every other
    finite value. *)
Definition toString (decimal : Q -> string) (n : number) : string :=
  match n with
  | NaN => "NaN"
  | Infinity => "Infinity"
  | NegInfinity => "-Infinity"
  | Finite q =>
      match to_integer n with
      | Some z => if (Z.abs z <? 10 ^ 21)%Z then Js.string_of_Z z
                  else decimal q
      | None => decimal q
      end
  end.

End Number.

(** ** [lib/services/llm/llm.ts] *)

Module Llm.
Import Number.

(** A zod schema by the class of its node.  [ZodOther] stands for the
    classes [zodSchemaToJsonSchema] does not test for (unions, literals,
    dates, [any], ...), with the answer its [isOptional()] gives. *)
#[warnings="-register-all"]
Inductive ZodType : Type :=
| ZodObject (shape : list (string * ZodType))
| ZodString
| ZodNumber
| ZodBoolean
| ZodArray (element : ZodType)
| ZodOptional (inner : ZodType)
| ZodNullable (inner : ZodType)
| ZodEnum (options : list string)
| ZodOther (acceptsUndefined : bool).

(** zod's [isOptional()]: whether the schema accepts [undefined]. *)
Fixpoint isOptional (schema : ZodType) : bool :=
  match schema with
  | ZodOptional _ => true
  | ZodNullable inner => isOptional inner
  | ZodOther acceptsUndefined => acceptsUndefined
  | _ => false
  end.

(** The loop over [Object.entries(shape)], given the conversion of a
    value: the properties and the required keys gathered from [rest] on
    top of those already there. *)
Definition entries (convert : ZodType -> js) :=
  fix entries (rest : list (string * ZodType))
      (properties : list (string * js)) (required : list string)
    : list (string * js) * list string :=
    match rest with
    | [] => (properties, required)
    | (key, value) :: rest' =>
        entries rest'
          (Js.set key (convert value) properties)
          (if negb (isOptional value) then (required ++ [key])%list
           else required)
    end.

Fixpoint zodSchemaToJsonSchema (schema : ZodType) : js :=
  match schema with
  | ZodObject shape =>
      let (properties, required) :=
        entries zodSchemaToJsonSchema shape [] [] in
      JObj [("type", JStr "object");
            ("properties", JObj properties);
            ("required", if (0 <? length required)%nat
                         then JArr (map JStr required)
                         else JUndefined)]
  | ZodString => JObj [("type", JStr "string")]
  | ZodNumber => JObj [("type", JStr "number")]
  | ZodBoolean => JObj [("type", JStr "boolean")]
  | ZodArray element =>
      JObj [("type", JStr "array");
            ("items", zodSchemaToJsonSchema element)]
  | ZodOptional inner => zodSchemaToJsonSchema inner
  | ZodNullable inner =>
      let innerSchema := zodSchemaToJsonSchema inner in
      JObj (Js.set "nullable" (JBool true) (Js.spread innerSchema))
  | ZodEnum options =>
      JObj [("type", JStr "string"); ("enum", JArr (map JStr options))]
  | ZodOther _ => JObj []
  end.

(** The keys of a shape whose value does not accept [undefined]. *)
Definition required_keys (shape : list (string * ZodType)) : list string :=
  map fst (filter (fun entry => negb (isOptional (snd entry))) shape).

Record AnswerStructuredOptions := mkOptions {
  systemPrompt : string;
  userPrompt : string;
  responseSchema : ZodType;
  model : option string;
  temperature : option number;
  maxTokens : option number;
  maxRetries : option number
}.

(** The argument of [groq.chat.completions.create]. *)
Record ChatRequest := mkChatRequest {
  system_content : string;
  user_content : string;
  req_model : string;
  req_temperature : number;
  max_completion_tokens : number;
  top_p : Z;
  stream : bool;
  response_format : string
}.

(** What a run does besides computing: requests to the provider and
    [setTimeout] waits, in order. *)
Inductive Event : Type :=
| Create (request : ChatRequest)
| SetTimeout (ms : Z).

(** How a run ends: the [return] of the [try] block, the [throw] of the
    [catch] block, or the [throw] after the loop. *)
Inductive Exit : Type :=
| Returned (validatedData : js)
| ThrownInLoop (e : Error)
| ThrownAfterLoop (e : Error).

Definition default {A} (value : option A) (d : A) : A :=
  match value with Some v => v | None => d end.

Definition Res_bind {A B} (r : Res A) (k : A -> Res B) : Res B :=
  match r with
  | Ok a => k a
  | Throw e => Throw e
  end.

Definition retryInstruction : string :=
  JsString.nl ++ JsString.nl ++
  "IMPORTANT: Your previous response failed validation. PLEASE RETURN ONLY VALID JSON AS INSTRUCTED ABOVE. No markdown, no backticks, just the raw JSON object.".

Definition reminder : string :=
  JsString.nl ++ JsString.nl ++
  "REMINDER: Return ONLY valid JSON matching the specified schema.".

Section AnswerStructured.
(** [JSON.parse], [JSON.stringify(value, null, 2)], the [parse] method
    of a schema, and the provider: the content of the first choice of
    the completion that the call numbered [n] of a run returns
    ([None] when it is absent), or the error it throws; [decimal] is the
    text of a number that is not an integer (see [Number.toString]). *)
Variable JSON_parse : string -> Res js.
Variable JSON_stringify : js -> string.
Variable zod_parse : ZodType -> js -> Res js.
Variable create : nat -> ChatRequest -> Res (option string).
Variable decimal : Q -> string.

Variable options : AnswerStructuredOptions.

(** [maxRetries] with its default. *)
Definition maxRetries_ : number := default (maxRetries options) (of_Z 3).

Definition enhancedSystemPrompt : string :=
  systemPrompt options ++ JsString.nl ++ JsString.nl ++
  "IMPORTANT: You MUST return a valid JSON object that matches exactly this schema:"
  ++ JsString.nl ++
  JSON_stringify (zodSchemaToJsonSchema (responseSchema options))
  ++ JsString.nl ++ JsString.nl ++
  "Return ONLY the JSON object, no markdown formatting, no backticks, no additional text.".

Definition request (attempt : Z) : ChatRequest :=
  let isRetry := (0 <? attempt)%Z in
  {| system_content :=
       enhancedSystemPrompt ++ (if isRetry then retryInstruction else "");
     user_content :=
       userPrompt options ++ (if isRetry then reminder else "");
     req_model := default (model options) "moonshotai/kimi-k2-instruct";
     req_temperature := default (temperature options) (Finite (6 # 10));
     max_completion_tokens := default (maxTokens options) (of_Z 4096);
     top_p := 1%Z;
     stream := false;
     response_format := "json_object" |}.

(** The body of the [try] block after the request is sent. *)
Definition tryAttempt (attempt : Z) : Res js :=
  Res_bind (create (Z.to_nat attempt) (request attempt)) (fun content =>
  match content with
  | Some text =>
      if JsString.truthy text
      then Res_bind (JSON_parse text) (fun parsedJson =>
           zod_parse (responseSchema options) parsedJson)
      else Throw (mkError "No response content from LLM")
  | None => Throw (mkError "No response content from LLM")
  end).

(** [attempt < maxRetries], the test of the [for] loop. *)
Definition in_budget (attempt : Z) : bool :=
  lt (of_Z attempt) maxRetries_.

(** [attempt === maxRetries - 1], the test of the [catch] block. *)
Definition is_last (attempt : Z) : bool :=
  strict_eq (of_Z attempt) (sub maxRetries_ (of_Z 1)).

(** The error of the [catch] block on the last attempt. *)
Definition exhausted (last : Error) : Error :=
  mkError ("Failed to get valid structured response after "
           ++ toString decimal maxRetries_
           ++ " attempts. Last error: " ++ message last).

(** The [for] loop from [attempt] on and the [throw] after it; [None]
    when [fuel] iterations do not reach the end. *)
Fixpoint loop (fuel : nat) (attempt : Z) (lastError : option Error)
         (trace : list Event) : option (Exit * list Event) :=
  match fuel with
  | O => None
  | S fuel' =>
      if in_budget attempt then
        let sent := (trace ++ [Create (request attempt)])%list in
        match tryAttempt attempt with
        | Ok validatedData => Some (Returned validatedData, sent)
        | Throw error =>
            if is_last attempt then
              Some (ThrownInLoop (exhausted error), sent)
            else
              loop fuel' (attempt + 1)%Z (Some error)
                   (sent ++ [SetTimeout (1000 * (attempt + 1))%Z])%list
        end
      else
        Some (ThrownAfterLoop
                (default lastError
                   (mkError "Unexpected error in answerStructured")),
              trace)
  end.

(** [answerStructured(options)] run for at most [fuel] iterations of
    the loop; a run that does not end, as when [maxRetries] is [Infinity]
    and no attempt succeeds, is [None] for every [fuel]. *)
Definition answerStructured (fuel : nat) : option (Exit * list Event) :=
  loop fuel 0%Z None [].

(** A failed attempt numbered [j] (from 0) and the wait after it. *)
Definition failed_attempt (j : nat) : list Event :=
  [Create (request (Z.of_nat j));
   SetTimeout (1000 * (Z.of_nat j + 1))%Z].

(** The events of [count] failed attempts in a row, each with its
    wait. *)
Definition failed_trace (count : nat) : list Event :=
  flat_map failed_attempt (seq 0 count).

(** The events of [failed] failed attempts and one more request. *)
Definition attempts_trace (failed : nat) : list Event :=
  (failed_trace failed ++ [Create (request (Z.of_nat failed))])%list.

(** The attempts before the one numbered [next] all fail. *)
Definition all_fail (next : nat) : Prop :=
  forall j, (j < next)%nat -> exists e, tryAttempt (Z.of_nat j) = Throw e.

(** [lastError] after [count] failed attempts. *)
Definition lastError_after (count : nat) : option Error :=
  match count with
  | O => None
  | S j => match tryAttempt (Z.of_nat j) with
           | Throw e => Some e
           | Ok _ => None
           end
  end.

(** Whether the loop goes on after the attempt numbered [j]: the
    attempt is made, fails, and is not the last. *)
Definition continues (j : nat) : bool :=
  in_budget (Z.of_nat j) &&
  match tryAttempt (Z.of_nat j) with
  | Throw _ => negb (is_last (Z.of_nat j))
  | Ok _ => false
  end.

End AnswerStructured.

(** The requests of a trace, and its waits, in order. *)
Definition requests (trace : list Event) : list ChatRequest :=
  flat_map (fun ev => match ev with
                      | Create request => [request]
                      | SetTimeout _ => []
                      end) trace.

Definition waits (trace : list Event) : list Z :=
  flat_map (fun ev => match ev with
                      | Create _ => []
                      | SetTimeout ms => [ms]
                      end) trace.

End Llm.

(** ** Stand-ins for the examples

    The library functions and the provider are parameters of
    [answerStructured]; the examples run it with these. *)

Module Scripted.
Import Llm.

(** [JSON.parse] on the texts of the examples. *)
Definition JSON_parse (text : string) : Res js :=
  if String.eqb text "42" then Ok (JNum 42)
  else if String.eqb text "true" then Ok (JBool true)
  else Throw (mkError "Unexpected token in JSON").

Definition JSON_stringify (value : js) : string := Js.toString value.

(** [schema.parse] for the three primitive schemas. *)
Definition zod_parse (schema : ZodType) (value : js) : Res js :=
  match schema, value with
  | ZodNumber, JNum _ => Ok value
  | ZodBoolean, JBool _ => Ok value
  | ZodString, JStr _ => Ok value
  | _, _ => Throw (mkError "Invalid input")
  end.

(** A provider that answers its calls from a script. *)
Definition create (script : list (Res (option string))) (n : nat)
           (request : ChatRequest) : Res (option string) :=
  nth n script (Throw (mkError "Connection error")).

(** The text of the fractions of the examples. *)
Definition decimal (q : Q) : string :=
  Js.string_of_Z (Qnum q / Zpos (Qden q)) ++ ".5".

Definition ask (schema : ZodType) (retries : option Number.number)
  : AnswerStructuredOptions :=
  {| systemPrompt := "You are a calculator.";
     userPrompt := "What is 6 times 7?";
     responseSchema := schema;
     model := None;
     temperature := None;
     maxTokens := None;
     maxRetries := retries |}.

End Scripted.

(** ** The [session] callback of [lib/auth.ts] *)

Module AuthSession.

(** [db.select({ isAdmin: users.isAdmin }).from(users).where(eq(users.id,
    id)).limit(1)]. *)
Definition select_isAdmin (id : string) : M (list bool) :=
  fun db =>
    (Ok (firstn 1 (map user_isAdmin
                       (filter (fun u => String.eqb (user_id u) id)
                               (users db)))), db).

(** [session({ session, user })]: [userId] is [user.id].  A session with a
    [user] gets the id and the admin flag of the row, [false] when there is
    no row ([dbUser[0]?.isAdmin ?? false]); any other session is returned as
    it is. *)
Definition session (session : option Session) (userId : string)
  : M (option Session) :=
  match session with
  | Some {| session_user := Some _ |} =>
      dbUser <- select_isAdmin userId ;;
      ret (Some {| session_user :=
                     Some {| su_id := userId;
                             su_isAdmin := match nth_error dbUser 0 with
                                           | Some isAdmin => isAdmin
                                           | None => false
                                           end |} |})
  | _ => ret session
  end.

(** The first row of [users] with the id [id], if any. *)
Definition find_user (id : string) (db : Db) : option User :=
  find (fun u => String.eqb (user_id u) id) (users db).

End AuthSession.

(** ** Relations between the rows before and after a request *)

Module Frames.

(** [new] is [old] but for its admin flag, and has that flag too unless
    its id is [userId]. *)
Definition kept_but_flag (userId : string) (old new : User) : Prop :=
  user_id new = user_id old /\
  user_name new = user_name old /\
  user_email new = user_email old /\
  user_emailVerified new = user_emailVerified old /\
  user_image new = user_image old /\
  (user_id old <> userId -> user_isAdmin new = user_isAdmin old).

(** The user [id] has a row with the admin flag. *)
Definition admin_row (id : string) (db : Db) : Prop :=
  exists u, In u (users db) /\ user_id u = id /\ user_isAdmin u = true.

End Frames.

(** ** The language of a regular expression *)

Module RegexLang.
Import Regex.

(** [matches r s]: the string [s] is in the language of [r]. *)
Inductive matches : re -> string -> Prop :=
| matches_eps : matches Eps EmptyString
| matches_class (p : ascii -> bool) (c : ascii) :
    p c = true -> matches (Class p) (String c EmptyString)
| matches_cat (a b : re) (s t : string) :
    matches a s -> matches b t -> matches (Cat a b) (s ++ t)
| matches_alt_l (a b : re) (s : string) :
    matches a s -> matches (Alt a b) s
| matches_alt_r (a b : re) (s : string) :
    matches b s -> matches (Alt a b) s
| matches_star_nil (a : re) : matches (Star a) EmptyString
| matches_star_cons (a : re) (s t : string) :
    matches a s -> matches (Star a) t -> matches (Star a) (s ++ t).

(** A non-empty string without white space and without [@]. *)
Definition plain (s : string) : Prop :=
  s <> EmptyString /\
  Forall (fun c => EmailWhitelistRoute.not_space_at c = true)
         (list_ascii_of_string s).

End RegexLang.

(** ** [app/api/account/update/route.ts] *)

Module AccountRoute.

Section Driver.

(** What the query builder does with [set({})], an update that sets
    nothing: the outcome is the library's, the table is not touched. *)
Variable set_nothing : Res unit.

(** [db.update(users).set(updateData).where(eq(users.id, id))], where
    [updateData] holds the fields that are given. *)
Definition update_profile (name image : option string) (id : string)
  : M unit :=
  fun db =>
    match name, image with
    | None, None => (set_nothing, db)
    | _, _ =>
        (Ok tt,
         {| email_whitelist := email_whitelist db;
            users :=
              map (fun u =>
                     if String.eqb (user_id u) id
                     then {| user_id := user_id u;
                             user_name := match name with
                                          | Some n => Some n
                                          | None => user_name u
                                          end;
                             user_email := user_email u;
                             user_emailVerified := user_emailVerified u;
                             user_image := match image with
                                           | Some i => Some i
                                           | None => user_image u
                                           end;
                             user_isAdmin := user_isAdmin u |}
                     else u)
                  (users db) |})
    end.

(** A field of the body: a string, [undefined], or something else, which
    is refused. *)
Definition text_field (value : js) : option (option string) :=
  match value with
  | JStr s => Some (Some s)
  | JUndefined => Some None
  | _ => None
  end.

(** [PATCH(req)]: [session] is the result of [auth()], [req_json] the
    outcome of [req.json()]. *)
Definition PATCH (session : option Session) (req_json : Res js)
  : M Response :=
  match session with
  | Some {| session_user := Some user |} =>
      if negb (JsString.truthy (su_id user))
      then ret (NextResponse_json (error_json "Unauthorized") (Some 401%Z))
      else
        try_catch
          (parsed <- lift req_json ;;
           name <- lift (Js.destructure "(intermediate value)" "name" parsed) ;;
           image <- lift (Js.destructure "(intermediate value)" "image"
                                         parsed) ;;
           match text_field name with
           | None =>
               ret (NextResponse_json (error_json "Invalid name")
                                      (Some 400%Z))
           | Some name =>
               match text_field image with
               | None =>
                   ret (NextResponse_json (error_json "Invalid image URL")
                                          (Some 400%Z))
               | Some image =>
                   _ <- update_profile name image (su_id user) ;;
                   ret (NextResponse_json success_json None)
               end
           end)
          (fun _ =>
             ret (NextResponse_json (error_json "Failed to update account")
                                    (Some 500%Z)))
  | _ => ret (NextResponse_json (error_json "Unauthorized") (Some 401%Z))
  end.

End Driver.

(** [new] is [old] but for its name and image, and has those too unless
    its id is [id]. *)
Definition kept_but_profile (id : string) (old new : User) : Prop :=
  user_id new = user_id old /\
  user_email new = user_email old /\
  user_emailVerified new = user_emailVerified old /\
  user_isAdmin new = user_isAdmin old /\
  (user_id old <> id ->
   user_name new = user_name old /\ user_image new = user_image old).

(** [new] has the given fields of the body and the other fields of
    [old]. *)
Definition profile_set (name image : option string) (old new : User)
  : Prop :=
  user_name new = match name with Some n => Some n | None => user_name old end
  /\
  user_image new = match image with Some i => Some i | None => user_image old end.

End AccountRoute.

(** ** The middleware *)

Module Middleware.

Inductive Outcome : Type :=
| Next
| Redirect (path : string).

(** The function given to [auth] in the middleware: [pathname] is
    [req.nextUrl.pathname], [auth] is [req.auth]. *)
Definition middleware (auth : option Session) (pathname : string) : Outcome :=
  let isAdmin := session_isAdmin auth in
  if String.prefix "/admin" pathname then
    match auth with
    | None => Redirect "/auth/signin"
    | Some _ => if negb isAdmin then Redirect "/" else Next
    end
  else Next.

End Middleware.

(** ** The admin pages that call the handlers *)

Module Client.

(** [response.ok]. *)
Definition ok (response : Response) : bool :=
  (200 <=? status response)%Z && (status response <=? 299)%Z.

(** [toggleAdmin(userId, isAdmin)] of the users table: the request, and
    the list of users on the page afterwards; [view] is the list before. *)
Definition toggleAdmin (session : option Session) (view : list User)
           (userId : string) (isAdmin : bool) : M (list User) :=
  response <- AdminUsersRoute.PATCH session
                (Ok (JObj [("isAdmin", JBool isAdmin)])) userId ;;
  if negb (ok response) then ret view
  else ret (map (fun user =>
                   if String.eqb (user_id user) userId
                   then {| user_id := user_id user;
                           user_name := user_name user;
                           user_email := user_email user;
                           user_emailVerified := user_emailVerified user;
                           user_image := user_image user;
                           user_isAdmin := isAdmin |}
                   else user) view).

(** [addEmail] of the whitelist manager: the body it posts, [None] when
    the text is refused before any request. *)
Definition addEmail (newEmail : string) : option js :=
  if negb (JsString.truthy newEmail)
     || negb (JsString.str_includes "@" newEmail)
  then None
  else Some (JObj [("email", JStr (JsString.toLowerCase newEmail))]).

(** [deleteEmail(id)] of the whitelist manager: the request, and the
    entries on the page afterwards; [entries] is the list before. *)
Definition deleteEmail (session : option Session)
           (entries : list EmailWhitelist) (id : string)
  : M (list EmailWhitelist) :=
  response <- EmailWhitelistIdRoute.DELETE session id ;;
  if negb (ok response) then ret entries
  else ret (filter (fun entry => negb (String.eqb (wl_id entry) id)) entries).

End Client.

(** [session?.user?.id], the empty string when there is none. *)
Definition session_userId (session : option Session) : string :=
  match session with
  | Some {| session_user := Some u |} => su_id u
  | _ => EmptyString
  end.

(** ** Measures of a run and of a schema *)

Module LlmMeasures.
Import Llm.

(** The time a run spends waiting, in milliseconds. *)
Definition total_wait (trace : list Event) : Z :=
  fold_right Z.add 0%Z (waits trace).

(** The options with another [maxRetries]. *)
Definition with_maxRetries (options : AnswerStructuredOptions)
           (m : Number.number) : AnswerStructuredOptions :=
  {| systemPrompt := systemPrompt options;
     userPrompt := userPrompt options;
     responseSchema := responseSchema options;
     model := model options;
     temperature := temperature options;
     maxTokens := maxTokens options;
     maxRetries := Some m |}.

(** The schema under its [optional] and [nullable] wrappers. *)
Fixpoint core (schema : ZodType) : ZodType :=
  match schema with
  | ZodOptional inner => core inner
  | ZodNullable inner => core inner
  | _ => schema
  end.

(** Whether a [nullable] wrapper is among them. *)
Fixpoint has_nullable (schema : ZodType) : bool :=
  match schema with
  | ZodOptional inner => has_nullable inner
  | ZodNullable _ => true
  | _ => false
  end.

(** The JSON type of a node that is not a wrapper. *)
Definition type_name (schema : ZodType) : js :=
  match schema with
  | ZodObject _ => JStr "object"
  | ZodString => JStr "string"
  | ZodNumber => JStr "number"
  | ZodBoolean => JStr "boolean"
  | ZodArray _ => JStr "array"
  | ZodEnum _ => JStr "string"
  | _ => JUndefined
  end.

End LlmMeasures.

(** * Properties *)

(** ** Strings *)

Module JsStringFacts.
Import JsString.

Lemma includes_In (arr : list string) (d : string) :
  includes arr (Some d) = true <-> In d arr.
Proof.
  unfold includes. rewrite existsb_exists. split.
  - intros [x [Hin Heq]]. apply String.eqb_eq in Heq. now subst.
  - intros Hin. exists d. split; [assumption | apply String.eqb_refl].
Qed.

Lemma nonempty_length {A} (l : list A) :
  (0 <? length l)%nat = true <-> l <> [].
Proof.
  destruct l; cbn; split; intros H; congruence.
Qed.

(** A string without the separator is a single piece. *)
Lemma split_no_sep (sep : ascii) (s : string) :
  ~ In sep (list_ascii_of_string s) -> split sep s = [s].
Proof.
  induction s as [|c s IH]; simpl; intros Hno; [reflexivity|].
  destruct (Ascii.eqb_spec c sep) as [->|Hne].
  - exfalso. apply Hno. now left.
  - rewrite IH; [reflexivity|]. intros Hin. apply Hno. now right.
Qed.

(** The first piece ends at the first separator. *)
Lemma split_first (sep : ascii) (a b : string) :
  ~ In sep (list_ascii_of_string a) ->
  split sep (a ++ String sep b) = a :: split sep b.
Proof.
  induction a as [|c a IH]; simpl; intros Hno.
  - now rewrite Ascii.eqb_refl.
  - destruct (Ascii.eqb_spec c sep) as [->|Hne].
    + exfalso. apply Hno. now left.
    + rewrite IH; [reflexivity|]. intros Hin. apply Hno. now right.
Qed.

Lemma lower_char_idem (c : ascii) : lower_char (lower_char c) = lower_char c.
Proof.
  unfold lower_char at 2 3. destruct (is_upper c) eqn:Hup; unfold lower_char.
  - assert (Hlow : is_upper (ascii_of_nat (nat_of_ascii c + 32)) = false).
    { unfold is_upper in *. apply andb_true_iff in Hup as [H1 H2].
      apply Nat.leb_le in H1, H2.
      rewrite nat_ascii_embedding by lia.
      apply andb_false_iff. right. apply Nat.leb_gt. lia. }
    now rewrite Hlow.
  - now rewrite Hup.
Qed.

Lemma toLowerCase_idem (s : string) :
  toLowerCase (toLowerCase s) = toLowerCase s.
Proof.
  induction s as [|c s IH]; simpl; [reflexivity|].
  now rewrite lower_char_idem, IH.
Qed.

End JsStringFacts.

(** ** Access control *)

Module AuthSpec.
Import JsString JsStringFacts Config Auth.

(** For an address with one [@], the domain is what follows it. *)
Lemma emailDomain_after_at (name domain : string) :
  ~ In "@"%char (list_ascii_of_string name) ->
  ~ In "@"%char (list_ascii_of_string domain) ->
  emailDomain (name ++ String "@" domain) = Some domain.
Proof.
  intros Hname Hdomain. unfold emailDomain.
  rewrite split_first by assumption.
  now rewrite split_no_sep by assumption.
Qed.

(** With more after a second [@], the domain stops there. *)
Lemma emailDomain_second_at (name domain rest : string) :
  ~ In "@"%char (list_ascii_of_string name) ->
  ~ In "@"%char (list_ascii_of_string domain) ->
  emailDomain (name ++ String "@" (domain ++ String "@" rest)) = Some domain.
Proof.
  intros Hname Hdomain. unfold emailDomain.
  now rewrite !split_first by assumption.
Qed.

Lemma emailDomain_no_at (email : string) :
  ~ In "@"%char (list_ascii_of_string email) -> emailDomain email = None.
Proof.
  intros Hno. unfold emailDomain. now rewrite split_no_sep by assumption.
Qed.

Lemma includes_domain_rule (cfg : AuthConfig) (email : string) :
  (0 <? length (allowedEmailDomains cfg))%nat
  && includes (allowedEmailDomains cfg) (emailDomain email) = true
  <-> domain_rule cfg email.
Proof.
  unfold domain_rule.
  rewrite andb_true_iff, nonempty_length. split.
  - intros [Hne Hinc]. split; [assumption|].
    destruct (emailDomain email) as [d|]; [|discriminate].
    exists d. split; [reflexivity | now apply includes_In].
  - intros [Hne [d [Hd Hin]]]. split; [assumption|].
    rewrite Hd. now apply includes_In.
Qed.

Lemma checkWhitelist_spec (email : string) (db : Db) :
  exists found,
    checkWhitelist email db = (Ok found, db) /\
    (found = true <-> whitelisted db (toLowerCase email)).
Proof.
  unfold checkWhitelist, bind, select_whitelist_by_email, ret, whitelisted.
  eexists. split; [reflexivity|].
  set (hit := fun row => String.eqb (wl_email row) (toLowerCase email)).
  destruct (filter hit (email_whitelist db)) as [|row rows] eqn:Hf; cbn.
  - split; [discriminate|]. intros [row [Hin Heq]].
    assert (Hrow : In row (filter hit (email_whitelist db))).
    { apply filter_In. split; [assumption|].
      unfold hit. now apply String.eqb_eq. }
    rewrite Hf in Hrow. destruct Hrow.
  - split; [|reflexivity]. intros _.
    assert (Hrow : In row (filter hit (email_whitelist db))).
    { rewrite Hf. now left. }
    apply filter_In in Hrow as [Hin Hhit].
    exists row. split; [assumption | now apply String.eqb_eq].
Qed.

(** [isEmailAllowed] by its two branches. *)
Lemma isEmailAllowed_unfold (cfg : AuthConfig) (email : string) (db : Db) :
  isEmailAllowed cfg email db =
  if (0 <? length (allowedEmailDomains cfg))%nat
     && includes (allowedEmailDomains cfg) (emailDomain email)
  then (Ok true, db)
  else checkWhitelist email db.
Proof.
  unfold isEmailAllowed.
  destruct (0 <? length (allowedEmailDomains cfg))%nat; [|reflexivity].
  now destruct (includes (allowedEmailDomains cfg) (emailDomain email)).
Qed.

(** [isEmailAllowed] answers and leaves the datastore as it was. *)
Lemma isEmailAllowed_total (cfg : AuthConfig) (email : string) (db : Db) :
  exists allowed, isEmailAllowed cfg email db = (Ok allowed, db).
Proof.
  rewrite isEmailAllowed_unfold.
  destruct (_ && _).
  - now exists true.
  - destruct (checkWhitelist_spec email db) as [found [Hrun _]].
    now exists found.
Qed.

(** C1: when the list of allowed domains is not empty, an address whose
    domain, the piece [email.split("@")[1]], is a member of it (equality of
    strings, so case matters) is allowed, whatever the whitelist table
    holds; for an address with one [@] the domain is the substring after
    it. *)
Theorem isEmailAllowed_domain_rule (cfg : AuthConfig) (db : Db) :
  allowedEmailDomains cfg <> [] ->
  (forall email d,
      emailDomain email = Some d ->
      In d (allowedEmailDomains cfg) ->
      isEmailAllowed cfg email db = (Ok true, db)) /\
  (forall name d,
      ~ In "@"%char (list_ascii_of_string name) ->
      ~ In "@"%char (list_ascii_of_string d) ->
      In d (allowedEmailDomains cfg) ->
      isEmailAllowed cfg (name ++ String "@" d) db = (Ok true, db)).
Proof.
  intros Hne.
  assert (Hrule : forall email d,
             emailDomain email = Some d ->
             In d (allowedEmailDomains cfg) ->
             isEmailAllowed cfg email db = (Ok true, db)).
  { intros email d Hd Hin. rewrite isEmailAllowed_unfold.
    assert (Hadm : domain_rule cfg email).
    { split; [assumption|]. now exists d. }
    apply includes_domain_rule in Hadm. now rewrite Hadm. }
  split; [exact Hrule|].
  intros name d Hname Hd Hin. apply (Hrule _ d); [|assumption].
  now apply emailDomain_after_at.
Qed.

Lemma isEmailAllowed_domain_rule_witness :
  isEmailAllowed (mkAuthConfig ["acme.com"]) "a@acme.com"
                 (mkDb [mkEmailWhitelist "w1" "guest@other.com" 0 None JNull] [])
  = (Ok true, mkDb [mkEmailWhitelist "w1" "guest@other.com" 0 None JNull] []).
Proof.
  apply (isEmailAllowed_domain_rule
           (mkAuthConfig ["acme.com"])
           (mkDb [mkEmailWhitelist "w1" "guest@other.com" 0 None JNull] []))
    with (d := "acme.com").
  - cbn. discriminate.
  - reflexivity.
  - cbn. now left.
Defined.

(** C2: an address the domain rule does not cover (no allowed domains,
    or its domain is not one of them) is allowed exactly when the
    whitelist table has a row whose email is the lowercased address. *)
Theorem isEmailAllowed_whitelist_rule
        (cfg : AuthConfig) (email : string) (db : Db) :
  (allowedEmailDomains cfg = [] \/
   forall d, emailDomain email = Some d -> ~ In d (allowedEmailDomains cfg)) ->
  exists allowed,
    isEmailAllowed cfg email db = (Ok allowed, db) /\
    (allowed = true <-> whitelisted db (toLowerCase email)).
Proof.
  intros Hnot. rewrite isEmailAllowed_unfold.
  destruct (_ && _) eqn:Hrule.
  - exfalso. apply includes_domain_rule in Hrule.
    destruct Hrule as [Hne [d [Hd Hin]]].
    destruct Hnot as [Hnil | Hnot]; [contradiction|].
    exact (Hnot d Hd Hin).
  - apply checkWhitelist_spec.
Qed.

Lemma isEmailAllowed_whitelist_rule_witness :
  exists allowed,
    isEmailAllowed (mkAuthConfig ["acme.com"]) "Guest@Other.com"
      (mkDb [mkEmailWhitelist "w1" "guest@other.com" 0 None JNull] [])
    = (Ok allowed,
       mkDb [mkEmailWhitelist "w1" "guest@other.com" 0 None JNull] []) /\
    (allowed = true <->
     whitelisted
       (mkDb [mkEmailWhitelist "w1" "guest@other.com" 0 None JNull] [])
       (toLowerCase "Guest@Other.com")).
Proof.
  apply (isEmailAllowed_whitelist_rule (mkAuthConfig ["acme.com"])
                                       "Guest@Other.com").
  right. intros d Hd. cbn in Hd. injection Hd as <-.
  cbn. intros [Heq | []]. discriminate.
Defined.


(** C4: the [signIn] callback denies when the email is absent (or empty)
    by throwing [AccessDenied]; otherwise it answers what
    [isEmailAllowed] answers, [false] being returned and not thrown; the
    datastore is never changed. *)
Theorem signIn_gate (cfg : AuthConfig) (email : option string) (db : Db) :
  (email = None \/ email = Some EmptyString ->
   signIn cfg email db = (Throw (mkError "AccessDenied"), db)) /\
  (forall e, email = Some e -> e <> EmptyString ->
     exists allowed,
       isEmailAllowed cfg e db = (Ok allowed, db) /\
       signIn cfg email db = (Ok allowed, db)).
Proof.
  split.
  - intros [-> | ->]; reflexivity.
  - intros e -> Hne.
    destruct (isEmailAllowed_total cfg e db) as [allowed Hrun].
    exists allowed. split; [assumption|].
    unfold signIn. destruct e; [contradiction|]. cbn [truthy].
    unfold bind. rewrite Hrun. now destruct allowed.
Qed.

(** The list of allowed domains read from the environment. *)
Example allowedEmailDomains_read :
  allowedEmailDomains_of_env (Some "acme.com, example.org")
  = ["acme.com"; "example.org"] /\
  allowedEmailDomains_of_env (Some EmptyString) = [] /\
  allowedEmailDomains_of_env None = [].
Proof. repeat split. Qed.

(** With [acme.com] allowed and an empty whitelist: an address of the
    domain is allowed, one of another domain is not, and neither is one
    that spells the domain in another case. *)
Example isEmailAllowed_acme :
  let cfg := mkAuthConfig (allowedEmailDomains_of_env (Some "acme.com")) in
  let db := mkDb [] [] in
  isEmailAllowed cfg "a@acme.com" db = (Ok true, db) /\
  isEmailAllowed cfg "a@other.com" db = (Ok false, db) /\
  isEmailAllowed cfg "a@ACME.com" db = (Ok false, db).
Proof. repeat split. Qed.

(** An address of an allowed domain is created as an admin; a guest who is
    only on the whitelist is not. *)
Example createUser_acme :
  let cfg := mkAuthConfig ["acme.com"] in
  let db := mkDb [mkEmailWhitelist "w1" "guest@other.com" 0 None JNull] [] in
  (exists created db',
      createUser cfg (mkAdapterUser "u1" None (Some "a@acme.com") None None) db
      = (Ok created, db') /\ user_isAdmin created = true) /\
  (exists created db',
      createUser cfg (mkAdapterUser "u2" None (Some "guest@other.com") None None)
                 db
      = (Ok created, db') /\ user_isAdmin created = false) /\
  isEmailAllowed cfg "guest@other.com" db = (Ok true, db).
Proof. repeat split; do 2 eexists; split; reflexivity. Qed.

End AuthSpec.

(** ** The self-demotion guard *)

Module AdminUsersSpec.
Import AdminUsersRoute.

Lemma update_isAdmin_spec (isAdmin : bool) (userId : string) (db : Db) :
  exists db',
    update_isAdmin isAdmin userId db = (Ok tt, db') /\
    email_whitelist db' = email_whitelist db /\
    Forall2 (flag_set isAdmin userId) (users db) (users db').
Proof.
  eexists. split; [reflexivity|]. split; [reflexivity|]. cbn.
  induction (users db) as [|u us IH]; cbn; constructor; [|exact IH].
  unfold flag_set.
  destruct (String.eqb (user_id u) userId); cbn; repeat split; reflexivity.
Qed.

(** C5: for a request of an admin that asks for [isAdmin = false], the
    handler answers 400 and leaves the datastore as it is when the target
    is the admin's own id, whatever other admins exist; when the target
    is another id it answers success and the flag of that user, and
    nothing else, is cleared. *)
Theorem PATCH_self_demotion_guard
        (admin : SessionUser) (fields : list (string * js))
        (userId : string) (db : Db) :
  su_isAdmin admin = true ->
  Js.get "isAdmin" fields = JBool false ->
  (su_id admin = userId ->
   PATCH (Some (mkSession (Some admin))) (Ok (JObj fields)) userId db
   = (Ok (mkResponse 400
            (error_json "You cannot remove your own admin privileges")),
      db)) /\
  (su_id admin <> userId ->
   exists db',
     PATCH (Some (mkSession (Some admin))) (Ok (JObj fields)) userId db
     = (Ok (mkResponse 200 success_json), db') /\
     email_whitelist db' = email_whitelist db /\
     Forall2 (flag_set false userId) (users db) (users db')).
Proof.
  intros Hadmin Hfield. unfold PATCH. rewrite Hadmin. cbn [negb].
  unfold try_catch, bind, lift, Js.destructure. rewrite Hfield. cbn [negb].
  rewrite andb_true_r. split.
  - intros Hself. apply String.eqb_eq in Hself. now rewrite Hself.
  - intros Hother. apply String.eqb_neq in Hother. rewrite Hother.
    destruct (update_isAdmin_spec false userId db) as [db' [Hrun Hspec]].
    exists db'. rewrite Hrun. split; [reflexivity | exact Hspec].
Qed.

Lemma PATCH_self_demotion_guard_witness :
  PATCH (Some (mkSession (Some (mkSessionUser "u1" true))))
        (Ok (JObj [("isAdmin", JBool false)])) "u1"
        (mkDb [] [mkUser "u1" None (Some "a@acme.com") None None true;
                  mkUser "u2" None (Some "b@acme.com") None None true])
  = (Ok (mkResponse 400
           (error_json "You cannot remove your own admin privileges")),
     mkDb [] [mkUser "u1" None (Some "a@acme.com") None None true;
              mkUser "u2" None (Some "b@acme.com") None None true]) /\
  exists db',
    PATCH (Some (mkSession (Some (mkSessionUser "u1" true))))
          (Ok (JObj [("isAdmin", JBool false)])) "u2"
          (mkDb [] [mkUser "u1" None (Some "a@acme.com") None None true;
                    mkUser "u2" None (Some "b@acme.com") None None true])
    = (Ok (mkResponse 200 success_json), db') /\
    email_whitelist db' = [] /\
    Forall2 (flag_set false "u2")
            [mkUser "u1" None (Some "a@acme.com") None None true;
             mkUser "u2" None (Some "b@acme.com") None None true]
            (users db').
Proof.
  split.
  - apply (PATCH_self_demotion_guard (mkSessionUser "u1" true)
             [("isAdmin", JBool false)] "u1"); reflexivity.
  - apply (PATCH_self_demotion_guard (mkSessionUser "u1" true)
             [("isAdmin", JBool false)] "u2"
             (mkDb [] [mkUser "u1" None (Some "a@acme.com") None None true;
                       mkUser "u2" None (Some "b@acme.com") None None true]));
      [reflexivity | reflexivity | discriminate].
Defined.

End AdminUsersSpec.

(** ** Regular expressions and white space *)

Module RegexFacts.
Import Regex JsString.

Lemma dead_deriv (c : ascii) (r : re) :
  dead r = true -> nullable r = false /\ dead (deriv c r) = true.
Proof.
  induction r as [| |p|a IHa b IHb|a IHa b IHb|a IHa]; cbn;
    try discriminate; try (now split).
  - intros H. apply orb_true_iff in H.
    destruct (nullable a) eqn:Hna; cbn.
    + destruct H as [Ha | Hb].
      * destruct (IHa Ha) as [Hn _]. discriminate.
      * destruct (IHb Hb) as [Hn Hd]. rewrite Hn, Hd, Hb.
        split; [reflexivity | now rewrite orb_true_r].
    + split; [reflexivity|]. destruct H as [Ha | Hb].
      * destruct (IHa Ha) as [_ Hd]. now rewrite Hd.
      * rewrite Hb. now rewrite orb_true_r.
  - intros H. apply andb_true_iff in H as [Ha Hb].
    destruct (IHa Ha) as [Hna Hda]. destruct (IHb Hb) as [Hnb Hdb].
    now rewrite Hna, Hnb, Hda, Hdb.
Qed.

Lemma dead_test (s : string) : forall r, dead r = true -> test r s = false.
Proof.
  induction s as [|c s IH]; intros r Hdead; cbn.
  - now destruct (dead_deriv "a"%char r Hdead).
  - apply IH. now destruct (dead_deriv c r Hdead).
Qed.

Lemma within_deriv (P : ascii -> bool) (c : ascii) (r : re) :
  within P r -> within P (deriv c r).
Proof.
  induction r as [| |p|a IHa b IHb|a IHa b IHb|a IHa]; cbn; try tauto.
  - intros _. now destruct (p c).
  - intros [Ha Hb]. destruct (nullable a); cbn; tauto.
Qed.

Lemma outside_dead (P : ascii -> bool) (c : ascii) (r : re) :
  within P r -> P c = false -> dead (deriv c r) = true.
Proof.
  intros Hin Hc.
  induction r as [| |p|a IHa b IHb|a IHa b IHb|a IHa]; cbn in *;
    try reflexivity.
  - destruct (p c) eqn:Hp; [|reflexivity].
    rewrite (Hin c Hp) in Hc. discriminate.
  - destruct Hin as [Ha Hb].
    destruct (nullable a); cbn; rewrite (IHa Ha); cbn; auto.
  - destruct Hin as [Ha Hb]. now rewrite (IHa Ha), (IHb Hb).
  - now rewrite (IHa Hin).
Qed.

(** A string that matches is made of characters of the classes. *)
Lemma test_within (P : ascii -> bool) (s : string) :
  forall r, within P r -> test r s = true ->
            Forall (fun c => P c = true) (list_ascii_of_string s).
Proof.
  induction s as [|c s IH]; intros r Hin Hm; cbn; constructor.
  - destruct (P c) eqn:Hc; [reflexivity|].
    cbn in Hm. rewrite dead_test in Hm; [discriminate|].
    now apply (outside_dead P).
  - apply (IH (deriv c r)); [now apply within_deriv | exact Hm].
Qed.

Lemma trimEnd_spaceless (s : string) : spaceless s -> trimEnd s = s.
Proof.
  unfold spaceless. induction s as [|c s IH]; cbn; [reflexivity|].
  intros H. inversion H as [|? ? Hc Hs]; subst.
  rewrite (IH Hs). apply negb_true_iff in Hc. rewrite Hc.
  now destruct s.
Qed.

Lemma trim_spaceless (s : string) : spaceless s -> trim s = s.
Proof.
  intros H. unfold trim.
  assert (Hstart : trimStart s = s).
  { destruct s as [|c s]; [reflexivity|]. cbn.
    inversion H as [|? ? Hc _]; subst.
    apply negb_true_iff in Hc. now rewrite Hc. }
  rewrite Hstart. now apply trimEnd_spaceless.
Qed.

Lemma is_space_lower_char (c : ascii) :
  is_space (lower_char c) = is_space c.
Proof.
  destruct c as [[] [] [] [] [] [] [] []]; reflexivity.
Qed.

Lemma toLowerCase_spaceless (s : string) :
  spaceless s -> spaceless (toLowerCase s).
Proof.
  unfold spaceless. induction s as [|c s IH]; cbn; intros H; [constructor|].
  inversion H; subst. constructor; [|auto].
  now rewrite is_space_lower_char.
Qed.

End RegexFacts.

(** ** The whitelist table *)

Module EmailWhitelistSpec.
Import JsString JsStringFacts Regex RegexFacts EmailWhitelistRoute.

Lemma emailRegex_within :
  within (fun c => negb (is_space c)) emailRegex.
Proof.
  assert (Hclass : forall c, not_space_at c = true -> negb (is_space c) = true).
  { intros c. unfold not_space_at. destruct (is_space c); [discriminate|].
    reflexivity. }
  assert (Hchr : forall d c, is_space d = false ->
                             Ascii.eqb d c = true -> negb (is_space c) = true).
  { intros d c Hd Heq. apply Ascii.eqb_eq in Heq. subst. now rewrite Hd. }
  unfold emailRegex, Plus, Chr. cbn [within].
  repeat split; try exact Hclass; intros c; now apply Hchr.
Qed.

(** An address that passes the format check has no white space, so
    trimming its lowercase form changes nothing. *)
Lemma emailRegex_trim (e : string) :
  test emailRegex e = true -> trim (toLowerCase e) = toLowerCase e.
Proof.
  intros Hm. apply trim_spaceless, toLowerCase_spaceless.
  exact (test_within _ e emailRegex emailRegex_within Hm).
Qed.

Lemma lowercase_trim (s : string) : lowercase s -> lowercase (trim s).
Proof.
  unfold lowercase, trim. intros Hs.
  assert (Hend : forall t, toLowerCase t = t -> toLowerCase (trimEnd t) = trimEnd t).
  { induction t as [|c t IH]; cbn; [reflexivity|]. intros H.
    injection H as Hc Ht. specialize (IH Ht).
    destruct (trimEnd t) as [|k kept] eqn:Hk.
    - destruct (is_space c); cbn; [reflexivity | now rewrite Hc].
    - cbn in *. now rewrite Hc, IH. }
  assert (Hstart : forall t, toLowerCase t = t -> toLowerCase (trimStart t) = trimStart t).
  { induction t as [|c t IH]; cbn; [reflexivity|]. intros H.
    injection H as Hc Ht.
    destruct (is_space c); [now apply IH|]. cbn. now rewrite Hc, Ht. }
  now apply Hend, Hstart.
Qed.

(** The email the handler stores. *)
Lemma stored_lowercase (e : string) : lowercase (trim (toLowerCase e)).
Proof. apply lowercase_trim, toLowerCase_idem. Qed.

Lemma existsb_email (table : list EmailWhitelist) (e : string) :
  existsb (fun r => String.eqb (wl_email r) e) table = true <->
  In e (map wl_email table).
Proof.
  rewrite existsb_exists, in_map_iff. split.
  - intros [r [Hin Heq]]. apply String.eqb_eq in Heq. now exists r.
  - intros [r [Heq Hin]]. exists r. split; [assumption|].
    now apply String.eqb_eq.
Qed.

Lemma postgres_message_unique (constraint : string) :
  str_includes "unique" (postgres_message constraint)
  = negb (String.eqb constraint "email_whitelist_created_by_users_id_fk").
Proof.
  unfold postgres_message.
  destruct (String.eqb constraint _) eqn:Hname; [|reflexivity].
  apply String.eqb_eq in Hname. subst. reflexivity.
Qed.

Lemma failure_response_status (error : Error) :
  status (failure_response error) = 409%Z \/
  status (failure_response error) = 500%Z.
Proof.
  unfold failure_response.
  destruct (str_includes "unique" (message error)); [now left | now right].
Qed.

(** The handler on a request of an admin whose [email] is a string. *)
Lemma POST_string_email
      (violation_message : string -> string)
      (admin : SessionUser) (fields : list (string * js)) (e uuid : string)
      (now : Z) (db : Db) :
  su_isAdmin admin = true ->
  Js.get "email" fields = JStr e ->
  POST violation_message (Some (mkSession (Some admin))) (Ok (JObj fields))
       uuid now db =
  if negb (truthy e)
  then (Ok (mkResponse 400 (error_json "Email is required")), db)
  else if negb (test emailRegex e)
  then (Ok (mkResponse 400 (error_json "Invalid email format")), db)
  else if existsb (fun r => String.eqb (wl_id r) uuid) (email_whitelist db)
  then (Ok (failure_response
              (unique_violation violation_message "email_whitelist_pkey")),
        db)
  else if existsb (fun r => String.eqb (wl_email r) (trim (toLowerCase e)))
                  (email_whitelist db)
  then (Ok (failure_response
              (unique_violation violation_message
                                "email_whitelist_email_unique")),
        db)
  else if negb (existsb (fun u => String.eqb (user_id u) (su_id admin))
                        (users db))
  then (Ok (failure_response
              (foreign_key_violation violation_message
                 "email_whitelist_created_by_users_id_fk")),
        db)
  else
    let row := {| wl_id := uuid;
                  wl_email := trim (toLowerCase e);
                  wl_createdAt := now;
                  wl_createdBy := Some (su_id admin);
                  wl_notes := if Js.truthy (Js.get "notes" fields)
                              then Js.get "notes" fields else JNull |} in
    (Ok (mkResponse 200 (row_json row)), with_whitelist_row db row).
Proof.
  intros Hadmin Hemail.
  unfold POST, try_catch. rewrite Hadmin. cbn [negb].
  unfold bind at 1. unfold lift at 1.
  unfold bind at 1. unfold lift at 1. unfold Js.destructure at 1.
  rewrite Hemail.
  unfold bind at 1. unfold lift at 1. unfold Js.destructure at 1.
  cbn [Js.truthy Js.toString].
  destruct (truthy e); cbn [negb]; [|reflexivity].
  destruct (test emailRegex e); cbn [negb]; [|reflexivity].
  unfold bind, insert_whitelist, failure_response.
  cbn [wl_id wl_email wl_createdBy references_user].
  destruct (existsb (fun r => String.eqb (wl_id r) uuid) (email_whitelist db)).
  - now destruct (str_includes "unique" _).
  - destruct (existsb _ (email_whitelist db)).
    + now destruct (str_includes "unique" _).
    + destruct (existsb _ (users db)); cbn [negb]; [reflexivity|].
      now destruct (str_includes "unique" _).
Qed.

Lemma NoDup_snoc {A} (l : list A) (x : A) :
  NoDup l -> ~ In x l -> NoDup (l ++ [x]).
Proof.
  induction 1 as [|y l Hy Hl IH]; cbn; intros Hx.
  - constructor; [intros [] | constructor].
  - constructor.
    + rewrite in_app_iff. cbn. intros [H | [H | []]]; [contradiction|].
      apply Hx. now left.
    + apply IH. intros H. apply Hx. now right.
Qed.

Lemma ci_duplicate_stored (table : list EmailWhitelist) (e : string) :
  wl_invariant table ->
  (ci_duplicate table e <-> In (toLowerCase e) (map wl_email table)).
Proof.
  intros [Hlow _]. unfold ci_duplicate. rewrite in_map_iff.
  rewrite Forall_forall in Hlow.
  split; intros [row H]; exists row.
  - destruct H as [Hin Heq]. split; [|assumption].
    now rewrite <- (Hlow row Hin).
  - destruct H as [Heq Hin]. split; [assumption|].
    now rewrite (Hlow row Hin).
Qed.

Lemma empty_invariant : wl_invariant [].
Proof. split; constructor. Qed.

(** What a request to [POST] can do to the datastore, whoever sends it
    and whatever its body: nothing, or add one row with a new, lowercase
    email. *)
Lemma POST_effect violation_message session req_json uuid now (db : Db) :
  exists response db',
    POST violation_message session req_json uuid now db
    = (Ok response, db') /\
    (db' = db \/
     exists row,
       db' = with_whitelist_row db row /\
       lowercase (wl_email row) /\
       ~ In (wl_email row) (map wl_email (email_whitelist db))).
Proof.
  unfold POST, try_catch.
  destruct session as [[[user|]]|];
    try (do 2 eexists; split; [reflexivity | now left]).
  destruct (su_isAdmin user); cbn [negb];
    [|do 2 eexists; split; [reflexivity | now left]].
  unfold bind at 1. unfold lift at 1.
  destruct req_json as [parsed|e];
    [|destruct (str_includes "unique" (message e));
      do 2 eexists; split; try reflexivity; now left].
  unfold bind at 1. unfold lift at 1.
  destruct (Js.destructure "body" "email" parsed) as [email|e];
    [|destruct (str_includes "unique" (message e));
      do 2 eexists; split; try reflexivity; now left].
  unfold bind at 1. unfold lift at 1.
  destruct (Js.destructure "body" "notes" parsed) as [notes|e];
    [|destruct (str_includes "unique" (message e));
      do 2 eexists; split; try reflexivity; now left].
  destruct (Js.truthy email); cbn [negb];
    [|do 2 eexists; split; [reflexivity | now left]].
  destruct (test emailRegex (Js.toString email)); cbn [negb];
    [|do 2 eexists; split; [reflexivity | now left]].
  destruct email as [| |b|n|e|items|fields];
    try (do 2 eexists; split; [reflexivity | now left]).
  unfold bind, insert_whitelist.
  cbn [wl_id wl_email wl_createdBy references_user].
  destruct (existsb (fun r => String.eqb (wl_id r) uuid) (email_whitelist db));
    [destruct (str_includes "unique" _);
     do 2 eexists; split; try reflexivity; now left|].
  destruct (existsb _ (email_whitelist db)) eqn:Hmail;
    [destruct (str_includes "unique" _);
     do 2 eexists; split; try reflexivity; now left|].
  destruct (existsb _ (users db)); cbn [negb];
    [|destruct (str_includes "unique" _);
      do 2 eexists; split; try reflexivity; now left].
  do 2 eexists. split; [reflexivity|]. right. eexists.
  split; [reflexivity|]. cbn [wl_email]. split; [apply stored_lowercase|].
  intros Hin. apply existsb_email in Hin. congruence.
Qed.

Lemma filter_keeps_distinct {R K : Type} (rows : list R) (key : R -> K)
      (keep : R -> bool) :
  NoDup (map key rows) -> NoDup (map key (filter keep rows)).
Proof.
  intros Hdistinct. induction rows as [|row rows IH]; cbn; [constructor|].
  cbn in Hdistinct. apply NoDup_cons_iff in Hdistinct as [Hrow Hrows].
  destruct (keep row); cbn; [|now apply IH].
  apply NoDup_cons; [|now apply IH].
  intros Hin. apply Hrow. apply in_map_iff in Hin as [other [Hkey Hother]].
  apply filter_In in Hother as [Hother _].
  rewrite <- Hkey. now apply in_map.
Qed.

Lemma set_null_emails (gone : string -> bool) (table : list EmailWhitelist) :
  map wl_email (EmailWhitelistIdRoute.set_null gone table)
  = map wl_email table.
Proof.
  unfold EmailWhitelistIdRoute.set_null. rewrite map_map.
  apply map_ext. intros row.
  destruct (wl_createdBy row) as [id|]; [|reflexivity].
  now destruct (gone id).
Qed.

Lemma set_null_invariant (gone : string -> bool)
      (table : list EmailWhitelist) :
  wl_invariant table ->
  wl_invariant (EmailWhitelistIdRoute.set_null gone table).
Proof.
  intros [Hlow Hnd]. split; [|now rewrite set_null_emails].
  apply Forall_forall. intros row Hin.
  assert (Hmail : In (wl_email row) (map wl_email table))
    by (rewrite <- (set_null_emails gone); now apply in_map).
  apply in_map_iff in Hmail as [old [Heq Hold]].
  rewrite Forall_forall in Hlow. unfold lowercase. rewrite <- Heq.
  now apply Hlow.
Qed.

(** Every datastore the handlers produce has lowercase, distinct emails. *)
Lemma reachable_invariant (db : Db) :
  EmailWhitelistIdRoute.reachable db -> wl_invariant (email_whitelist db).
Proof.
  induction 1 as [us | db us _ IH | db us gone _ IH
                  | db db' msg session req uuid now response _ IH Hrun
                  | db db' session id response _ IH Hrun
                  | db db' session req id response _ IH Hrun].
  - apply empty_invariant.
  - exact IH.
  - cbn [email_whitelist]. apply (set_null_invariant gone), IH.
  - destruct (POST_effect msg session req uuid now db)
      as [r [db1 [Hrun1 Heffect]]].
    rewrite Hrun in Hrun1. injection Hrun1 as _ <-.
    destruct Heffect as [-> | [row [-> [Hlow Hnew]]]]; [exact IH|].
    destruct IH as [Hall Hnd]. split; cbn.
    + apply Forall_app. split; [assumption | now constructor].
    + rewrite map_app. now apply NoDup_snoc.
  - assert (Hdb : db' = db \/
                  email_whitelist db' =
                  filter (fun r => negb (String.eqb (wl_id r) id))
                         (email_whitelist db)).
    { revert Hrun. unfold EmailWhitelistIdRoute.DELETE, try_catch.
      destruct (session_isAdmin session); cbn [negb].
      - unfold bind, EmailWhitelistIdRoute.delete_whitelist.
        destruct (nth_error _ 0); intros H; injection H as _ <-; now right.
      - intros H. injection H as _ <-. now left. }
    destruct Hdb as [-> | ->]; [exact IH|].
    destruct IH as [Hall Hnd]. split.
    + apply Forall_forall. intros row Hin. apply filter_In in Hin as [Hin _].
      rewrite Forall_forall in Hall. now apply Hall.
    + now apply filter_keeps_distinct.
  - assert (Hdb : map wl_email (email_whitelist db')
                  = map wl_email (email_whitelist db)).
    { assert (Hupd : forall notes,
                 map wl_email
                     (map (fun r => if String.eqb (wl_id r) id
                                    then EmailWhitelistIdRoute.with_notes notes r
                                    else r) (email_whitelist db))
                 = map wl_email (email_whitelist db)).
      { intros notes. rewrite map_map. apply map_ext. intros r.
        now destruct (String.eqb (wl_id r) id). }
      revert Hrun. unfold EmailWhitelistIdRoute.PATCH, try_catch.
      destruct (session_isAdmin session); cbn [negb];
        [|intros H; now injection H as _ <-].
      unfold bind at 1. unfold lift at 1.
      destruct req as [parsed|e]; [|intros H; now injection H as _ <-].
      unfold bind at 1. unfold lift at 1.
      destruct (Js.destructure "body" "notes" parsed) as [notes|e];
        [|intros H; now injection H as _ <-].
      unfold bind, EmailWhitelistIdRoute.update_notes.
      destruct (nth_error _ 0); intros H; injection H as _ <-; apply Hupd. }
    destruct IH as [Hall Hnd]. split; [|now rewrite Hdb].
    apply Forall_forall. intros row Hin.
    assert (Hmail : In (wl_email row) (map wl_email (email_whitelist db)))
      by (rewrite <- Hdb; now apply in_map).
    apply in_map_iff in Hmail as [old [Heq Hold]].
    rewrite Forall_forall in Hall. unfold lowercase. rewrite <- Heq.
    now apply Hall.
Qed.

(** C8: in every datastore the handlers produce, the emails of the
    whitelist are lowercase and distinct, and a request of an admin to add
    the string [e] leaves them so; the table either stays as it is or
    gains one row whose email is the lowercase form of [e], which trimming
    does not change; when [e] has the format of an address and the table
    holds it up to case, the insertion fails on a unique index and
    nothing is stored, the answer being 409 when the message of the driver
    for that index says "unique"; when the table does not hold it and the
    id is fresh, the row is stored exactly when the session user has a row
    in [users], as the foreign key of [created_by] demands, and every
    spelling of [e] is then allowed; without that row the insertion fails
    on the foreign key and nothing is stored. *)
Theorem POST_whitelist_invariant
        (violation_message : string -> string)
        (admin : SessionUser) (fields : list (string * js)) (e uuid : string)
        (now : Z) (db : Db) :
  su_isAdmin admin = true ->
  Js.get "email" fields = JStr e ->
  EmailWhitelistIdRoute.reachable db ->
  exists response db',
    POST violation_message (Some (mkSession (Some admin))) (Ok (JObj fields))
         uuid now db
    = (Ok response, db') /\
    wl_invariant (email_whitelist db) /\
    wl_invariant (email_whitelist db') /\
    (db' = db \/
     exists row,
       db' = with_whitelist_row db row /\
       wl_email row = toLowerCase e /\
       lowercase (wl_email row) /\
       trim (wl_email row) = wl_email row) /\
    (test emailRegex e = true -> ci_duplicate (email_whitelist db) e ->
     db' = db /\
     exists constraint,
       (constraint = "email_whitelist_pkey" \/
        constraint = "email_whitelist_email_unique") /\
       insert_whitelist violation_message
         (mkEmailWhitelist uuid (trim (toLowerCase e)) now
                           (Some (su_id admin))
                           (if Js.truthy (Js.get "notes" fields)
                            then Js.get "notes" fields else JNull)) db
       = (Throw (unique_violation violation_message constraint), db) /\
       (status response = 409%Z \/ status response = 500%Z) /\
       (str_includes "unique" (violation_message constraint) = true ->
        response
        = mkResponse 409 (error_json "Email is already whitelisted"))) /\
    (test emailRegex e = true -> ~ ci_duplicate (email_whitelist db) e ->
     ~ In uuid (map wl_id (email_whitelist db)) ->
     (In (su_id admin) (map user_id (users db)) ->
      status response = 200%Z /\
      In (toLowerCase e) (map wl_email (email_whitelist db')) /\
      forall cfg e', toLowerCase e' = toLowerCase e ->
                     Auth.isEmailAllowed cfg e' db' = (Ok true, db')) /\
     (~ In (su_id admin) (map user_id (users db)) ->
      db' = db /\
      insert_whitelist violation_message
        (mkEmailWhitelist uuid (trim (toLowerCase e)) now
                          (Some (su_id admin))
                          (if Js.truthy (Js.get "notes" fields)
                           then Js.get "notes" fields else JNull)) db
      = (Throw (foreign_key_violation violation_message
                  "email_whitelist_created_by_users_id_fk"), db) /\
      (status response = 409%Z \/ status response = 500%Z))).
Proof.
  intros Hadmin Hemail Hreach.
  pose proof (reachable_invariant db Hreach) as Hinv.
  rewrite (POST_string_email violation_message admin fields e uuid now db
                             Hadmin Hemail).
  destruct (truthy e) eqn:Hnonempty; cbn [negb].
  2:{ destruct e; [|discriminate].
      do 2 eexists. split; [reflexivity|]. do 2 (split; [assumption|]).
      split; [now left|]. split; intros Hm; discriminate. }
  destruct (test emailRegex e) eqn:Hformat; cbn [negb].
  2:{ do 2 eexists. split; [reflexivity|]. do 2 (split; [assumption|]).
      split; [now left|]. split; intros Hm; discriminate. }
  pose proof (emailRegex_trim e Hformat) as Htrim.
  pose proof (ci_duplicate_stored _ e Hinv) as Hdup.
  rewrite <- existsb_email in Hdup.
  assert (Hfailure : forall constraint,
             (status (failure_response
                        (unique_violation violation_message constraint))
              = 409%Z \/
              status (failure_response
                        (unique_violation violation_message constraint))
              = 500%Z) /\
             (str_includes "unique" (violation_message constraint) = true ->
              failure_response (unique_violation violation_message constraint)
              = mkResponse 409 (error_json "Email is already whitelisted"))).
  { intros constraint. split; [apply failure_response_status|].
    intros Hsays. unfold failure_response, unique_violation. cbn [message].
    now rewrite Hsays. }
  assert (Huser : existsb (fun u => String.eqb (user_id u) (su_id admin))
                          (users db) = true <->
                  In (su_id admin) (map user_id (users db))).
  { rewrite existsb_exists, in_map_iff. split.
    - intros [u [Hin Heq]]. apply String.eqb_eq in Heq. now exists u.
    - intros [u [Heq Hin]]. exists u. split; [assumption|].
      now apply String.eqb_eq. }
  unfold insert_whitelist.
  cbn [wl_id wl_email wl_createdBy references_user]. rewrite Htrim.
  destruct (existsb (fun r => String.eqb (wl_id r) uuid) (email_whitelist db))
    eqn:Hid.
  { do 2 eexists. split; [reflexivity|]. do 2 (split; [assumption|]).
    split; [now left|]. split.
    - intros _ _. split; [reflexivity|]. exists "email_whitelist_pkey".
      split; [now left|]. split; [reflexivity|]. apply Hfailure.
    - intros _ _ Hfresh. exfalso. apply Hfresh.
      apply existsb_exists in Hid as [r [Hin Heq]].
      apply String.eqb_eq in Heq. apply in_map_iff. now exists r. }
  destruct (existsb (fun r => String.eqb (wl_email r) (toLowerCase e))
                    (email_whitelist db)) eqn:Hmail.
  { do 2 eexists. split; [reflexivity|]. do 2 (split; [assumption|]).
    split; [now left|]. split.
    - intros _ _. split; [reflexivity|].
      exists "email_whitelist_email_unique".
      split; [now right|]. split; [reflexivity|]. apply Hfailure.
    - intros _ Hnodup _. exfalso. apply Hnodup. now apply Hdup. }
  destruct (existsb (fun u => String.eqb (user_id u) (su_id admin))
                    (users db)) eqn:Hrow; cbn [negb].
  2:{ do 2 eexists. split; [reflexivity|]. do 2 (split; [assumption|]).
      split; [now left|]. split.
      - intros _ Hd. apply Hdup in Hd. discriminate.
      - intros _ _ _. split.
        + intros Hin. apply Huser in Hin. discriminate.
        + intros _. split; [reflexivity|]. split; [reflexivity|].
          apply failure_response_status. }
  do 2 eexists. split; [reflexivity|]. split; [assumption|].
  assert (Hnew : ~ In (toLowerCase e) (map wl_email (email_whitelist db))).
  { intros Hin. apply existsb_email in Hin. congruence. }
  split; [|split; [|split]].
  - destruct Hinv as [Hlow Hnd]. split; cbn.
    + apply Forall_app. split; [assumption|]. constructor; [|constructor].
      apply toLowerCase_idem.
    + rewrite map_app. cbn. now apply NoDup_snoc.
  - right. eexists. split; [reflexivity|]. cbn.
    split; [reflexivity|]. split; [apply toLowerCase_idem|].
    exact Htrim.
  - intros _ Hd. apply Hdup in Hd. discriminate.
  - intros _ _ _. split.
    2:{ intros Hnone. exfalso. apply Hnone. now apply Huser. }
    intros _. split; [reflexivity|]. split.
    { cbn. rewrite map_app. apply in_app_iff. right. now left. }
    intros cfg e' He'.
    rewrite AuthSpec.isEmailAllowed_unfold.
    destruct (_ && _); [reflexivity|].
    destruct (AuthSpec.checkWhitelist_spec e' (with_whitelist_row db
                {| wl_id := uuid; wl_email := toLowerCase e;
                   wl_createdAt := now; wl_createdBy := Some (su_id admin);
                   wl_notes := if Js.truthy (Js.get "notes" fields)
                               then Js.get "notes" fields else JNull |}))
      as [found [Hrun Hfound]].
    rewrite Hrun. f_equal. f_equal. apply Hfound.
    eexists. split; [cbn; apply in_app_iff; right; now left|].
    cbn. now rewrite He'.
Qed.

Lemma POST_whitelist_invariant_witness :
  let ann := mkUser "u1" None (Some "ann@example.com") None None true in
  exists response db',
    POST postgres_message (Some (mkSession (Some (mkSessionUser "u1" true))))
         (Ok (JObj [("email", JStr "User@Example.com")])) "id-1" 0
         (mkDb [] [ann])
    = (Ok response, db') /\
    status response = 200%Z /\
    Auth.isEmailAllowed (Config.mkAuthConfig []) "user@example.com" db'
    = (Ok true, db').
Proof.
  cbn zeta.
  destruct (POST_whitelist_invariant
              postgres_message (mkSessionUser "u1" true)
              [("email", JStr "User@Example.com")] "User@Example.com"
              "id-1" 0
              (mkDb [] [mkUser "u1" None (Some "ann@example.com") None None
                               true])
              eq_refl eq_refl
              (EmailWhitelistIdRoute.reach_empty _))
    as [response [db' [Hrun [_ [_ [_ [_ Hnew]]]]]]].
  exists response, db'. split; [exact Hrun|].
  assert (Hnodup : ~ ci_duplicate [] "User@Example.com").
  { intros [row [[] _]]. }
  destruct (Hnew eq_refl Hnodup (fun H : In "id-1" [] => H))
    as [Hstored _].
  destruct (Hstored (or_introl eq_refl)) as [Hstatus [_ Hallowed]].
  split; [exact Hstatus | now apply Hallowed].
Defined.

(** An admin session whose user has no row in [users]: the foreign key
    refuses the entry, and the answer is 500. *)
Example POST_without_user_row :
  POST postgres_message (Some (mkSession (Some (mkSessionUser "u1" true))))
       (Ok (JObj [("email", JStr "User@Example.com")])) "id-1" 0
       (mkDb [] [])
  = (Ok (mkResponse 500 (error_json "Failed to add email to whitelist")),
     mkDb [] []).
Proof. vm_compute. reflexivity. Qed.

(** With the text of PostgreSQL, a second request for the same address in
    another case is answered 409 and stores nothing. *)
Example POST_duplicate_refused :
  POST postgres_message (Some (mkSession (Some (mkSessionUser "u1" true))))
       (Ok (JObj [("email", JStr "USER@example.com")])) "id-2" 1
       (mkDb [mkEmailWhitelist "id-1" "user@example.com" 0 (Some "u1") JNull]
             [mkUser "u1" None (Some "ann@example.com") None None true])
  = (Ok (mkResponse 409 (error_json "Email is already whitelisted")),
     mkDb [mkEmailWhitelist "id-1" "user@example.com" 0 (Some "u1") JNull]
          [mkUser "u1" None (Some "ann@example.com") None None true]).
Proof. vm_compute. reflexivity. Qed.

End EmailWhitelistSpec.

(** ** The shape derived from a schema *)

Module SchemaSpec.
Import Llm.

Lemma set_fresh (key : string) (v : js) (fields : list (string * js)) :
  ~ In key (map fst fields) ->
  Js.set key v fields = (fields ++ [(key, v)])%list.
Proof.
  induction fields as [|[k old] fields IH]; cbn; intros Hfresh;
    [reflexivity|].
  destruct (String.eqb_spec k key) as [->|Hne].
  - exfalso. apply Hfresh. now left.
  - rewrite IH; [reflexivity|]. intros Hin. apply Hfresh. now right.
Qed.

Lemma get_set (key : string) (v : js) (fields : list (string * js)) :
  Js.get key (Js.set key v fields) = v.
Proof.
  induction fields as [|[k old] fields IH]; cbn.
  - now rewrite String.eqb_refl.
  - destruct (String.eqb k key) eqn:Hk; cbn; now rewrite Hk.
Qed.

(** With distinct keys, the loop lists the converted values in the order
    of the shape and the keys that are not optional. *)
Lemma entries_distinct (convert : ZodType -> js)
      (rest : list (string * ZodType)) :
  forall properties required,
    NoDup (map fst rest) ->
    (forall k, In k (map fst rest) -> ~ In k (map fst properties)) ->
    entries convert rest properties required =
    (properties ++ map (fun entry => (fst entry, convert (snd entry))) rest,
     required ++ required_keys rest)%list.
Proof.
  induction rest as [|[key value] rest IH]; intros properties required Hnd Hfresh.
  - cbn. now rewrite !app_nil_r.
  - cbn [entries]. inversion Hnd as [|? ? Hkey Hrest]; subst.
    rewrite set_fresh by (apply Hfresh; now left).
    fold (entries convert). rewrite IH; [| assumption |].
    + unfold required_keys. cbn [filter snd fst map].
      rewrite <- app_assoc. cbn [app]. f_equal.
      destruct (isOptional value); cbn [negb map fst];
        [reflexivity | now rewrite <- app_assoc].
    + intros k Hk. rewrite map_app, in_app_iff. cbn.
      intros [Hin | [<- | []]].
      * apply (Hfresh k); [now right | assumption].
      * contradiction.
Qed.

(** The derivation always yields an object. *)
Lemma zodSchemaToJsonSchema_object (schema : ZodType) :
  exists fields, zodSchemaToJsonSchema schema = JObj fields.
Proof.
  induction schema as [shape| | | |element IH|inner IH|inner IH|options|b];
    cbn [zodSchemaToJsonSchema]; try (eexists; reflexivity).
  - destruct (entries zodSchemaToJsonSchema shape [] []). eexists; reflexivity.
  - exact IH.
Qed.

(** C9: the shape derived for each kind of schema node: an object lists
    the shape of every key and the keys that are not optional; strings,
    numbers and booleans give their type; an array gives the shape of its
    element; an optional gives the shape of what it wraps; a nullable adds
    the [nullable] marker to it; an enum gives a string with the options;
    any other node gives the empty object.  Every schema has a shape. *)
Theorem zodSchemaToJsonSchema_kinds :
  (forall shape, NoDup (map fst shape) ->
     zodSchemaToJsonSchema (ZodObject shape) =
     JObj [("type", JStr "object");
           ("properties",
            JObj (map (fun entry =>
                         (fst entry, zodSchemaToJsonSchema (snd entry)))
                      shape));
           ("required", match required_keys shape with
                        | [] => JUndefined
                        | keys => JArr (map JStr keys)
                        end)]) /\
  zodSchemaToJsonSchema ZodString = JObj [("type", JStr "string")] /\
  zodSchemaToJsonSchema ZodNumber = JObj [("type", JStr "number")] /\
  zodSchemaToJsonSchema ZodBoolean = JObj [("type", JStr "boolean")] /\
  (forall element,
     zodSchemaToJsonSchema (ZodArray element) =
     JObj [("type", JStr "array");
           ("items", zodSchemaToJsonSchema element)]) /\
  (forall inner,
     zodSchemaToJsonSchema (ZodOptional inner) = zodSchemaToJsonSchema inner) /\
  (forall inner, exists fields nullable,
     zodSchemaToJsonSchema inner = JObj fields /\
     zodSchemaToJsonSchema (ZodNullable inner) = JObj nullable /\
     nullable = Js.set "nullable" (JBool true) fields /\
     Js.get "nullable" nullable = JBool true) /\
  (forall options,
     zodSchemaToJsonSchema (ZodEnum options) =
     JObj [("type", JStr "string"); ("enum", JArr (map JStr options))]) /\
  (forall acceptsUndefined,
     zodSchemaToJsonSchema (ZodOther acceptsUndefined) = JObj []) /\
  (forall schema, exists fields, zodSchemaToJsonSchema schema = JObj fields).
Proof.
  repeat split; try reflexivity.
  - intros shape Hnd. cbn [zodSchemaToJsonSchema].
    rewrite entries_distinct by (assumption || (intros k _ [])).
    cbn [app]. now destruct (required_keys shape).
  - intros inner.
    destruct (zodSchemaToJsonSchema_object inner) as [fields Hfields].
    exists fields, (Js.set "nullable" (JBool true) fields).
    cbn [zodSchemaToJsonSchema]. rewrite Hfields.
    repeat split. apply get_set.
  - apply zodSchemaToJsonSchema_object.
Qed.

Lemma zodSchemaToJsonSchema_kinds_witness :
  zodSchemaToJsonSchema
    (ZodObject [("name", ZodString);
                ("age", ZodNumber);
                ("nick", ZodOptional ZodString);
                ("role", ZodNullable (ZodEnum ["admin"; "guest"]))])
  = JObj [("type", JStr "object");
          ("properties",
           JObj [("name", JObj [("type", JStr "string")]);
                 ("age", JObj [("type", JStr "number")]);
                 ("nick", JObj [("type", JStr "string")]);
                 ("role", JObj [("type", JStr "string");
                                ("enum", JArr [JStr "admin"; JStr "guest"]);
                                ("nullable", JBool true)])]);
          ("required", JArr [JStr "name"; JStr "age"; JStr "role"])].
Proof.
  rewrite (proj1 zodSchemaToJsonSchema_kinds).
  - reflexivity.
  - repeat constructor; cbn; intuition discriminate.
Defined.

End SchemaSpec.

(** ** Comparisons of numbers with counters *)

Module NumberFacts.
Import Number.

Lemma lt_finite (k : Z) (q : Q) :
  lt (of_Z k) (Finite q) = true <-> (inject_Z k < q)%Q.
Proof.
  unfold lt, of_Z. rewrite Qlt_alt.
  destruct (inject_Z k ?= q)%Q; split; congruence.
Qed.

(** The test of the loop holds of every count below one it holds of. *)
Lemma lt_of_Z_mono (j k : Z) (m : number) :
  (j <= k)%Z -> lt (of_Z k) m = true -> lt (of_Z j) m = true.
Proof.
  intros Hjk. destruct m as [| | |q]; try (cbn; congruence).
  rewrite !lt_finite. intros Hk.
  apply Qle_lt_trans with (inject_Z k); [|exact Hk].
  now rewrite <- Zle_Qle.
Qed.

Lemma strict_eq_finite (k : Z) (m : number) :
  strict_eq (of_Z k) (sub m (of_Z 1)) = true <->
  exists q, m = Finite q /\ (q == inject_Z (k + 1))%Q.
Proof.
  destruct m as [| | |q]; cbn.
  1-3: split; [discriminate | intros [q [H _]]; discriminate H].
  rewrite Qeq_bool_iff, inject_Z_plus. split.
  - intros H. exists q. split; [reflexivity|]. rewrite H. ring.
  - intros [q' [Hq H]]. injection Hq as <-. rewrite H. ring.
Qed.

(** The attempt that is the last one is within the budget, and the next
    is not. *)
Lemma last_in_budget (k : Z) (m : number) :
  strict_eq (of_Z k) (sub m (of_Z 1)) = true ->
  lt (of_Z k) m = true /\ lt (of_Z (k + 1)) m = false.
Proof.
  intros H. apply strict_eq_finite in H as [q [-> Hq]]. split.
  - apply lt_finite. rewrite Hq, <- Zlt_Qlt. lia.
  - apply not_true_is_false. rewrite lt_finite, Hq. apply Qlt_irrefl.
Qed.

Lemma Qred_inject_Z (M : Z) : Qred (inject_Z M) = inject_Z M.
Proof.
  unfold Qred, inject_Z.
  pose proof (Z.ggcd_gcd M 1) as Hgcd.
  pose proof (Z.ggcd_correct_divisors M 1) as Hdiv.
  destruct (Z.ggcd M 1) as [g [num den]]. cbn [fst snd] in *.
  rewrite Z.gcd_1_r in Hgcd. subst g. destruct Hdiv as [Hnum Hden].
  rewrite !Z.mul_1_l in *. now subst.
Qed.

Lemma to_integer_spec (m : number) (M : Z) :
  to_integer m = Some M <->
  exists q, m = Finite q /\ (q == inject_Z M)%Q.
Proof.
  destruct m as [| | |q]; unfold to_integer.
  1-3: split; [discriminate | intros [q [H _]]; discriminate H].
  split.
  - destruct (Pos.eqb_spec (Qden (Qred q)) 1) as [Hden|]; [|discriminate].
    intros H. injection H as <-. exists q. split; [reflexivity|].
    rewrite <- (Qred_correct q) at 1.
    destruct (Qred q) as [num den]. cbn in *. subst. reflexivity.
  - intros [q' [Hq H]]. injection Hq as <-.
    apply Qred_complete in H. rewrite H, Qred_inject_Z. reflexivity.
Qed.

Lemma whole_lt (m : number) (M k : Z) :
  to_integer m = Some M -> lt (of_Z k) m = (k <? M)%Z.
Proof.
  intros H. apply to_integer_spec in H as [q [-> Hq]].
  destruct (Z.ltb_spec k M) as [Hlt | Hge].
  - apply lt_finite. rewrite Hq, <- Zlt_Qlt. exact Hlt.
  - apply not_true_is_false. rewrite lt_finite, Hq, <- Zlt_Qlt.
    now apply Z.le_ngt.
Qed.

Lemma whole_last (m : number) (M k : Z) :
  to_integer m = Some M ->
  strict_eq (of_Z k) (sub m (of_Z 1)) = (k =? M - 1)%Z.
Proof.
  intros H. apply to_integer_spec in H as [q [-> Hq]].
  destruct (Z.eqb_spec k (M - 1)) as [-> | Hne].
  - apply strict_eq_finite. exists q. split; [reflexivity|].
    rewrite Hq. now replace (M - 1 + 1)%Z with M by lia.
  - apply not_true_is_false. intros Hlast.
    apply strict_eq_finite in Hlast as [q' [Heq Hq']].
    injection Heq as <-. rewrite Hq, inject_Z_injective in Hq'.
    clear Hq. lia.
Qed.

(** The last attempt exists only under a whole [maxRetries]. *)
Lemma last_is_whole (k : Z) (m : number) :
  strict_eq (of_Z k) (sub m (of_Z 1)) = true ->
  to_integer m = Some (k + 1)%Z.
Proof.
  intros H. apply strict_eq_finite in H as [q [-> Hq]].
  apply to_integer_spec. now exists q.
Qed.

(** Under a finite [maxRetries] the counts within the budget are those
    below it rounded up. *)
Lemma lt_ceiling (k : Z) (q : Q) :
  lt (of_Z k) (Finite q) = true <-> (k < Qceiling q)%Z.
Proof.
  rewrite lt_finite. split.
  - intros Hk. rewrite Zlt_Qlt.
    apply Qlt_le_trans with q; [exact Hk | apply Qle_ceiling].
  - intros Hk. apply Qle_lt_trans with (inject_Z (Qceiling q - 1)).
    + rewrite <- Zle_Qle. lia.
    + apply Qceiling_lt.
Qed.

Lemma lt_le_trans (k : Z) (m m' : number) :
  lt (of_Z k) m = true -> le m m' = true -> lt (of_Z k) m' = true.
Proof.
  destruct m as [| | |q], m' as [| | |q']; cbn; try congruence.
  intros Hk Hle. apply lt_finite.
  apply lt_finite in Hk. apply Qle_bool_iff in Hle.
  now apply Qlt_le_trans with q.
Qed.

Lemma le_zero (m : number) :
  le m (of_Z 0) = true -> lt (of_Z 0) m = false.
Proof.
  destruct m as [| | |q]; cbn; try congruence.
  intros Hle. apply Qle_bool_iff in Hle.
  apply not_true_is_false. intros Hlt.
  change (lt (of_Z 0) (Finite q) = true) in Hlt.
  apply lt_finite in Hlt. now apply Qlt_not_le in Hlt.
Qed.

End NumberFacts.

(** ** The retry loop *)

Module RetrySpec.
Import Number Llm.

Section Run.
Variable JSON_parse : string -> Res js.
Variable JSON_stringify : js -> string.
Variable zod_parse : ZodType -> js -> Res js.
Variable create : nat -> ChatRequest -> Res (option string).
Variable decimal : Q -> string.
Variable options : AnswerStructuredOptions.

Local Abbreviation limit := (maxRetries_ options).
Local Abbreviation attempt_result :=
  (tryAttempt JSON_parse JSON_stringify zod_parse create options).
Local Abbreviation request_of := (request JSON_stringify options).
Local Abbreviation run_loop :=
  (loop JSON_parse JSON_stringify zod_parse create decimal options).
Local Abbreviation run :=
  (answerStructured JSON_parse JSON_stringify zod_parse create decimal
                    options).
Local Abbreviation failed := (failed_trace JSON_stringify options).
Local Abbreviation attempts := (attempts_trace JSON_stringify options).
Local Abbreviation failing :=
  (all_fail JSON_parse JSON_stringify zod_parse create options).
Local Abbreviation allowed j := (in_budget options (Z.of_nat j)).
Local Abbreviation final j := (is_last options (Z.of_nat j)).
Local Abbreviation goes_on :=
  (continues JSON_parse JSON_stringify zod_parse create options).
Local Abbreviation error_after :=
  (lastError_after JSON_parse JSON_stringify zod_parse create options).
Local Abbreviation generic :=
  (mkError "Unexpected error in answerStructured").

(** Where a run stops: the event list and the exit of a run whose loop
    is left at the attempt numbered [n]. *)
Local Abbreviation stop_at n :=
  (if allowed n
   then match attempt_result (Z.of_nat n) with
        | Ok v => (Returned v, attempts n)
        | Throw e => (ThrownInLoop (exhausted decimal options e), attempts n)
        end
   else (ThrownAfterLoop (default (error_after n) generic), failed n)).

Lemma failed_snoc (n : nat) :
  failed (S n)
  = (failed n ++ [Create (request_of (Z.of_nat n));
                  SetTimeout (1000 * (Z.of_nat n + 1))%Z])%list.
Proof.
  unfold failed_trace. rewrite seq_S, flat_map_app. cbn [flat_map Nat.add].
  now rewrite app_nil_r.
Qed.

Lemma goes_on_spec (j : nat) :
  goes_on j = true <->
  allowed j = true /\ final j = false /\
  exists e, attempt_result (Z.of_nat j) = Throw e.
Proof.
  unfold continues. destruct (in_budget options (Z.of_nat j)); cbn [andb].
  2:{ split; [discriminate | now intros [H _]]. }
  destruct (attempt_result (Z.of_nat j)) as [v|e].
  - split; [discriminate | intros [_ [_ [e He]]]; discriminate He].
  - destruct (is_last options (Z.of_nat j)); cbn [negb].
    + split; [discriminate | intros [_ [H _]]; discriminate H].
    + split; [|reflexivity]. intros _. repeat split. now exists e.
Qed.

(** The iterations of the attempts that fail and are not the last. *)
Lemma loop_prefix (n : nat) :
  (forall j, (j < n)%nat -> goes_on j = true) ->
  forall fuel,
    run_loop (n + fuel) 0%Z None []
    = run_loop fuel (Z.of_nat n) (error_after n) (failed n).
Proof.
  induction n as [|n IH]; intros Hgo fuel; [reflexivity|].
  replace (S n + fuel)%nat with (n + S fuel)%nat by lia.
  rewrite IH by (intros j Hj; apply Hgo; lia).
  destruct (proj1 (goes_on_spec n) (Hgo n (Nat.lt_succ_diag_r n)))
    as [Hin [Hnot [e He]]].
  cbn [loop]. rewrite Hin, He, Hnot.
  unfold lastError_after. rewrite He, failed_snoc, <- app_assoc.
  cbn [app]. now rewrite Nat2Z.inj_succ, Z.add_1_r.
Qed.

(** The iteration at which the loop is left. *)
Lemma loop_stop (n fuel : nat) (lastError : option Error)
      (trace : list Event) :
  goes_on n = false ->
  run_loop (S fuel) (Z.of_nat n) lastError trace
  = if allowed n
    then match attempt_result (Z.of_nat n) with
         | Ok v =>
             Some (Returned v,
                   (trace ++ [Create (request_of (Z.of_nat n))])%list)
         | Throw e =>
             Some (ThrownInLoop (exhausted decimal options e),
                   (trace ++ [Create (request_of (Z.of_nat n))])%list)
         end
    else Some (ThrownAfterLoop (default lastError generic), trace).
Proof.
  unfold continues. cbn [loop].
  destruct (in_budget options (Z.of_nat n)); [|reflexivity]. cbn [andb].
  destruct (attempt_result (Z.of_nat n)) as [v|e]; [reflexivity|].
  now destruct (is_last options (Z.of_nat n)).
Qed.

(** A run that is given more iterations than the number of the attempt
    at which the loop is left ends there. *)
Lemma run_stop (n fuel : nat) :
  (n < fuel)%nat ->
  (forall j, (j < n)%nat -> goes_on j = true) ->
  goes_on n = false ->
  run fuel = Some (stop_at n).
Proof.
  intros Hfuel Hgo Hstop. unfold answerStructured.
  replace fuel with (n + S (fuel - S n))%nat by lia.
  rewrite (loop_prefix n Hgo), (loop_stop n _ _ _ Hstop).
  unfold attempts_trace.
  destruct (in_budget options (Z.of_nat n)); [|reflexivity].
  now destruct (attempt_result (Z.of_nat n)).
Qed.

Lemma first_stop (goes : nat -> bool) (fuel : nat) :
  (forall j, (j < fuel)%nat -> goes j = true) \/
  exists n, (n < fuel)%nat /\
            (forall j, (j < n)%nat -> goes j = true) /\ goes n = false.
Proof.
  induction fuel as [|fuel [Hall | [n [Hn [Hgo Hstop]]]]].
  - left. intros j Hj. lia.
  - destruct (goes fuel) eqn:Hfuel.
    + left. intros j Hj. destruct (Nat.eq_dec j fuel) as [->|Hne];
        [assumption | apply Hall; lia].
    + right. exists fuel. repeat split; [lia | assumption | assumption].
  - right. exists n. repeat split; [lia | assumption | assumption].
Qed.

(** A run is out of iterations, or ends where the loop is left. *)
Lemma run_cases (fuel : nat) :
  (run fuel = None /\ forall j, (j < fuel)%nat -> goes_on j = true) \/
  exists n, (n < fuel)%nat /\
            (forall j, (j < n)%nat -> goes_on j = true) /\
            goes_on n = false /\ run fuel = Some (stop_at n).
Proof.
  destruct (first_stop goes_on fuel) as [Hall | [n [Hn [Hgo Hstop]]]].
  - left. split; [|assumption]. unfold answerStructured.
    replace fuel with (fuel + 0)%nat at 1 by lia.
    now rewrite (loop_prefix fuel Hall).
  - right. exists n. repeat split; try assumption. now apply run_stop.
Qed.

(** The attempts before one that is within the budget are within it and
    are not the last. *)
Lemma allowed_before (n j : nat) :
  allowed n = true -> (j < n)%nat -> allowed j = true /\ final j = false.
Proof.
  unfold in_budget, is_last. intros Hn Hj. split.
  - apply (NumberFacts.lt_of_Z_mono _ (Z.of_nat n)); [lia | assumption].
  - apply not_true_is_false. intros Hlast.
    apply NumberFacts.last_in_budget in Hlast as [_ Hnext].
    rewrite (NumberFacts.lt_of_Z_mono (Z.of_nat j + 1) (Z.of_nat n) limit)
      in Hnext; [discriminate | lia | assumption].
Qed.

Lemma prefix_goes_on (n : nat) :
  allowed n = true -> failing n ->
  forall j, (j < n)%nat -> goes_on j = true.
Proof.
  intros Hn Hfail j Hj. apply goes_on_spec.
  destruct (allowed_before n j Hn Hj) as [Hin Hnot].
  repeat split; try assumption. now apply Hfail.
Qed.

Lemma goes_on_failing (n : nat) :
  (forall j, (j < n)%nat -> goes_on j = true) -> failing n.
Proof.
  intros Hgo j Hj. now destruct (proj1 (goes_on_spec j) (Hgo j Hj))
    as [_ [_ He]].
Qed.

(** The attempt at which the loop is left is determined. *)
Lemma stop_unique (n n' : nat) :
  (forall j, (j < n)%nat -> goes_on j = true) -> goes_on n = false ->
  (forall j, (j < n')%nat -> goes_on j = true) -> goes_on n' = false ->
  n = n'.
Proof.
  intros Hgo Hstop Hgo' Hstop'.
  destruct (Nat.lt_trichotomy n n') as [Hlt | [Heq | Hgt]]; [|assumption|].
  - rewrite (Hgo' n Hlt) in Hstop. discriminate.
  - rewrite (Hgo n' Hgt) in Hstop'. discriminate.
Qed.

Lemma requests_app (t1 t2 : list Event) :
  requests (t1 ++ t2) = (requests t1 ++ requests t2)%list.
Proof. apply flat_map_app. Qed.

Lemma waits_app (t1 t2 : list Event) :
  waits (t1 ++ t2) = (waits t1 ++ waits t2)%list.
Proof. apply flat_map_app. Qed.

Lemma requests_failed (n : nat) :
  requests (failed n) = map (fun j => request_of (Z.of_nat j)) (seq 0 n).
Proof.
  induction n as [|n IH]; [reflexivity|].
  rewrite failed_snoc, requests_app, IH, seq_S, map_app. reflexivity.
Qed.

Lemma waits_failed (n : nat) :
  waits (failed n) = map (fun j => (1000 * (Z.of_nat j + 1))%Z) (seq 0 n).
Proof.
  induction n as [|n IH]; [reflexivity|].
  rewrite failed_snoc, waits_app, IH, seq_S, map_app. reflexivity.
Qed.

Lemma requests_attempts (n : nat) :
  requests (attempts n)
  = map (fun j => request_of (Z.of_nat j)) (seq 0 (S n)).
Proof.
  unfold attempts_trace.
  rewrite requests_app, requests_failed, seq_S, map_app. reflexivity.
Qed.

Lemma waits_attempts (n : nat) :
  waits (attempts n) = map (fun j => (1000 * (Z.of_nat j + 1))%Z) (seq 0 n).
Proof.
  unfold attempts_trace. rewrite waits_app, waits_failed. apply app_nil_r.
Qed.

Lemma failed_split (a b : nat) :
  failed (a + b)
  = (failed a
     ++ flat_map (failed_attempt JSON_stringify options) (seq a b))%list.
Proof. unfold failed_trace. now rewrite seq_app, flat_map_app. Qed.

(** The events of a run that gets past the attempt numbered [n] begin
    with those of [n] failed attempts and the next request. *)
Lemma stop_at_prefix (n n' : nat) :
  (n < n')%nat \/ (n = n' /\ allowed n = true) ->
  exists rest,
    snd (stop_at n')
    = (failed n ++ Create (request_of (Z.of_nat n)) :: rest)%list.
Proof.
  assert (Hlater : forall k, (n < k)%nat ->
            exists rest,
              failed k
              = (failed n ++ Create (request_of (Z.of_nat n)) :: rest)%list).
  { intros k Hk. replace k with (n + S (k - S n))%nat by lia.
    rewrite failed_split. cbn [seq flat_map failed_attempt app].
    eexists. reflexivity. }
  intros [Hlt | [<- Hin]].
  - destruct (Hlater n' Hlt) as [rest Hrest].
    destruct (in_budget options (Z.of_nat n')).
    + exists (rest ++ [Create (request_of (Z.of_nat n'))])%list.
      destruct (attempt_result (Z.of_nat n')); cbn [snd];
        unfold attempts_trace; rewrite Hrest, <- app_assoc; reflexivity.
    + exists rest. exact Hrest.
  - rewrite Hin. exists [].
    now destruct (attempt_result (Z.of_nat n)).
Qed.

(** The success exit. *)
Lemma run_returned (fuel : nat) (v : js) (trace : list Event) :
  run fuel = Some (Returned v, trace) <->
  exists n, (n < fuel)%nat /\ allowed n = true /\ failing n /\
            attempt_result (Z.of_nat n) = Ok v /\ trace = attempts n.
Proof.
  split.
  - destruct (run_cases fuel) as [[Hnone _] | [n [Hn [Hgo [Hstop Hrun]]]]];
      [congruence|].
    rewrite Hrun. intros H. injection H as H.
    destruct (in_budget options (Z.of_nat n)) eqn:Hin; [|discriminate H].
    destruct (attempt_result (Z.of_nat n)) as [v'|e] eqn:Hok;
      [|discriminate H].
    injection H as <- <-. exists n. repeat split; try assumption.
    now apply goes_on_failing.
  - intros [n [Hn [Hin [Hfail [Hok ->]]]]].
    rewrite (run_stop n fuel Hn (prefix_goes_on n Hin Hfail)).
    + now rewrite Hin, Hok.
    + unfold continues. now rewrite Hin, Hok.
Qed.

(** The exit of the [catch] block. *)
Lemma run_exhausted (fuel : nat) (e : Error) (trace : list Event) :
  run fuel = Some (ThrownInLoop e, trace) <->
  exists n lasterr,
    (n < fuel)%nat /\ final n = true /\ failing n /\
    attempt_result (Z.of_nat n) = Throw lasterr /\
    e = exhausted decimal options lasterr /\ trace = attempts n.
Proof.
  split.
  - destruct (run_cases fuel) as [[Hnone _] | [n [Hn [Hgo [Hstop Hrun]]]]];
      [congruence|].
    rewrite Hrun. intros H. injection H as H. revert Hstop. unfold continues.
    destruct (in_budget options (Z.of_nat n)) eqn:Hin; [|discriminate H].
    destruct (attempt_result (Z.of_nat n)) as [v'|lasterr] eqn:Hok;
      [discriminate H|].
    injection H as <- <-. cbn [andb]. intros Hlast.
    exists n, lasterr. repeat split; try assumption.
    + now destruct (is_last options (Z.of_nat n)).
    + now apply goes_on_failing.
  - intros [n [lasterr [Hn [Hlast [Hfail [Hthrow [-> ->]]]]]]].
    destruct (NumberFacts.last_in_budget _ _ Hlast) as [Hin _].
    rewrite (run_stop n fuel Hn (prefix_goes_on n Hin Hfail)).
    + unfold in_budget. now rewrite Hin, Hthrow.
    + unfold continues, in_budget. now rewrite Hin, Hthrow, Hlast.
Qed.

(** The exit after the loop. *)
Lemma run_after (fuel : nat) (e : Error) (trace : list Event) :
  run fuel = Some (ThrownAfterLoop e, trace) <->
  exists n,
    (n < fuel)%nat /\ allowed n = false /\
    (forall j, (j < n)%nat -> goes_on j = true) /\
    e = default (error_after n) generic /\ trace = failed n.
Proof.
  split.
  - destruct (run_cases fuel) as [[Hnone _] | [n [Hn [Hgo [Hstop Hrun]]]]];
      [congruence|].
    rewrite Hrun. intros H. injection H as H.
    destruct (in_budget options (Z.of_nat n)) eqn:Hin.
    + now destruct (attempt_result (Z.of_nat n)).
    + injection H as <- <-. exists n. now repeat split.
  - intros [n [Hn [Hin [Hgo [-> ->]]]]].
    rewrite (run_stop n fuel Hn Hgo).
    + now rewrite Hin.
    + unfold continues. now rewrite Hin.
Qed.

(** Under a finite [maxRetries] a run ends within that many attempts,
    rounded up. *)
Lemma run_finite (q : Q) (fuel : nat) :
  limit = Finite q -> (Z.to_nat (Qceiling q) < fuel)%nat ->
  exists n, (Z.of_nat n <= Z.max 0 (Qceiling q))%Z /\
            (forall j, (j < n)%nat -> goes_on j = true) /\
            goes_on n = false /\ run fuel = Some (stop_at n).
Proof.
  intros Hq Hfuel.
  assert (Hbound : forall j, goes_on j = true -> (Z.of_nat j < Qceiling q)%Z).
  { intros j Hj. apply goes_on_spec in Hj as [Hin _].
    unfold in_budget in Hin. rewrite Hq in Hin.
    now apply NumberFacts.lt_ceiling. }
  destruct (run_cases fuel) as [[_ Hall] | [n [Hn [Hgo [Hstop Hrun]]]]].
  - specialize (Hbound _ (Hall _ Hfuel)). lia.
  - exists n. repeat split; try assumption.
    destruct n as [|n]; [lia|].
    specialize (Hbound _ (Hgo n (Nat.lt_succ_diag_r n))). lia.
Qed.

(** The requests and the waits of the place where the loop is left. *)
Lemma stop_at_counts (n : nat) :
  let trace := snd (stop_at n) in
  requests trace
  = map (fun j => request_of (Z.of_nat j))
        (seq 0 (length (requests trace))) /\
  waits trace
  = map (fun j => (1000 * (Z.of_nat j + 1))%Z) (seq 0 n) /\
  length (requests trace) = (if allowed n then S n else n).
Proof.
  cbn zeta. destruct (in_budget options (Z.of_nat n)).
  - assert (Hshape :
      requests (attempts n)
      = map (fun j => request_of (Z.of_nat j))
            (seq 0 (length (requests (attempts n)))) /\
      waits (attempts n)
      = map (fun j => (1000 * (Z.of_nat j + 1))%Z) (seq 0 n) /\
      length (requests (attempts n)) = S n).
    { rewrite waits_attempts, requests_attempts, length_map, length_seq.
      now repeat split. }
    destruct (attempt_result (Z.of_nat n)); cbn [snd]; exact Hshape.
  - cbn [snd]. rewrite waits_failed, requests_failed, length_map,
      length_seq. now repeat split.
Qed.

Lemma append_empty (s : string) : s ++ "" = s.
Proof. induction s as [|c s IH]; cbn; [reflexivity | now rewrite IH]. Qed.

(** The prompts of the first request and of the later ones. *)
Lemma request_prompts :
  system_content (request_of 0%Z)
  = enhancedSystemPrompt JSON_stringify options /\
  user_content (request_of 0%Z) = userPrompt options /\
  (forall attempt, (0 < attempt)%Z ->
     system_content (request_of attempt)
     = enhancedSystemPrompt JSON_stringify options ++ retryInstruction /\
     user_content (request_of attempt)
     = userPrompt options ++ reminder) /\
  (maxRetries options = None -> limit = of_Z 3).
Proof.
  split; [apply append_empty|]. split; [apply append_empty|]. split.
  - intros attempt Hpos. unfold request. cbn [system_content user_content].
    now replace (0 <? attempt)%Z with true
      by (symmetry; now apply Z.ltb_lt).
  - unfold maxRetries_. now intros ->.
Qed.

(** What an attempt yields, by the steps of the [try] block. *)
Lemma tryAttempt_ok (attempt : Z) (v : js) :
  attempt_result attempt = Ok v <->
  exists text parsedJson,
    create (Z.to_nat attempt) (request_of attempt) = Ok (Some text) /\
    text <> EmptyString /\
    JSON_parse text = Ok parsedJson /\
    zod_parse (responseSchema options) parsedJson = Ok v.
Proof.
  unfold tryAttempt, Res_bind. split.
  - destruct (create _ _) as [[text|]|e]; try discriminate.
    destruct text as [|c text]; [discriminate|]. cbn [JsString.truthy].
    destruct (JSON_parse _) as [parsedJson|e] eqn:Hparse; [|discriminate].
    intros Hv. exists (String c text), parsedJson.
    repeat split; try assumption. discriminate.
  - intros [text [parsedJson [-> [Hne [Hparse Hv]]]]].
    destruct text; [contradiction|]. cbn [JsString.truthy].
    now rewrite Hparse.
Qed.

Lemma tryAttempt_throw (attempt : Z) (e : Error) :
  attempt_result attempt = Throw e <->
  create (Z.to_nat attempt) (request_of attempt) = Throw e \/
  ((create (Z.to_nat attempt) (request_of attempt) = Ok None \/
    create (Z.to_nat attempt) (request_of attempt) = Ok (Some EmptyString))
   /\ e = mkError "No response content from LLM") \/
  (exists text,
      create (Z.to_nat attempt) (request_of attempt) = Ok (Some text) /\
      text <> EmptyString /\
      (JSON_parse text = Throw e \/
       exists parsedJson,
         JSON_parse text = Ok parsedJson /\
         zod_parse (responseSchema options) parsedJson = Throw e)).
Proof.
  unfold tryAttempt, Res_bind.
  destruct (create _ _) as [[text|]|e0].
  - destruct text as [|c text]; cbn [JsString.truthy].
    + split.
      * intros H. injection H as <-. right. left. split; [now right|].
        reflexivity.
      * intros [H | [[_ ->] | [text [H [Hne _]]]]];
          [discriminate | reflexivity |].
        injection H as <-. contradiction.
    + split.
      * intros H. right. right. exists (String c text).
        split; [reflexivity|]. split; [discriminate|].
        destruct (JSON_parse _) as [parsedJson|e1]; [|now left].
        right. now exists parsedJson.
      * intros [H | [[[H | H] _] | [text' [H [_ Hsteps]]]]];
          try discriminate.
        injection H as <-.
        destruct Hsteps as [-> | [parsedJson [-> Hv]]]; [reflexivity|].
        exact Hv.
  - split.
    + intros H. injection H as <-. right. left. split; [now left|].
      reflexivity.
    + intros [H | [[_ ->] | [text [H _]]]]; try discriminate. reflexivity.
  - split.
    + intros H. injection H as <-. now left.
    + intros [H | [[[H | H] _] | [text [H _]]]]; try discriminate.
      now injection H as <-.
Qed.

(** Under a whole [maxRetries] of at least 1: the attempt numbered
    [maxRetries - 1] is the last, and the ones before it are not. *)
Lemma whole_budget (M : Z) :
  to_integer limit = Some M ->
  (forall j, allowed j = (Z.of_nat j <? M)%Z) /\
  (forall j, final j = (Z.of_nat j =? M - 1)%Z).
Proof.
  intros HM. split; intros j.
  - now apply NumberFacts.whole_lt.
  - now apply NumberFacts.whole_last.
Qed.

(** Under a [maxRetries] that is finite, positive and not whole, the
    attempts are those below it rounded up and none is the last: when all
    of them fail, the run waits after each and leaves with the error of
    the last one as it is. *)
Lemma run_fraction (q : Q) (fuel : nat) :
  limit = Finite q -> (0 < q)%Q -> to_integer limit = None ->
  (Z.to_nat (Qceiling q) < fuel)%nat ->
  failing (Z.to_nat (Qceiling q)) ->
  exists lasterr,
    attempt_result (Qceiling q - 1)%Z = Throw lasterr /\
    run fuel
    = Some (ThrownAfterLoop lasterr,
            (attempts (Z.to_nat (Qceiling q) - 1)
             ++ [SetTimeout (1000 * Qceiling q)%Z])%list).
Proof.
  intros Hq Hpos Hnone Hfuel Hfail.
  assert (Hceil : (0 < Qceiling q)%Z).
  { rewrite Zlt_Qlt. apply Qlt_le_trans with q; [exact Hpos|].
    apply Qle_ceiling. }
  assert (Hnever : forall j, final j = false).
  { intros j. apply not_true_is_false. intros Hlast.
    apply NumberFacts.last_is_whole in Hlast. congruence. }
  assert (Hin : forall j, allowed j = true <-> (Z.of_nat j < Qceiling q)%Z).
  { intros j. unfold in_budget. rewrite Hq. apply NumberFacts.lt_ceiling. }
  destruct (Z.to_nat (Qceiling q)) as [|n] eqn:Hn; [lia|].
  destruct (Hfail n (Nat.lt_succ_diag_r n)) as [lasterr Hlast].
  exists lasterr. replace (Qceiling q - 1)%Z with (Z.of_nat n) by lia.
  split; [exact Hlast|].
  rewrite (run_stop (S n) fuel Hfuel).
  - replace (in_budget options (Z.of_nat (S n))) with false.
    2:{ symmetry. apply not_true_is_false. rewrite Hin. lia. }
    unfold lastError_after. rewrite Hlast, failed_snoc. cbn [default].
    replace (S n - 1)%nat with n by lia.
    unfold attempts_trace. rewrite <- app_assoc. cbn [app].
    now replace (Z.of_nat n + 1)%Z with (Qceiling q) by lia.
  - intros j Hj. apply goes_on_spec. repeat split.
    + apply Hin. lia.
    + apply Hnever.
    + apply Hfail. lia.
  - unfold continues.
    replace (in_budget options (Z.of_nat (S n))) with false; [reflexivity|].
    symmetry. apply not_true_is_false. rewrite Hin. lia.
Qed.

(** With no attempt within the budget a run makes no request. *)
Lemma run_no_attempt (fuel : nat) :
  allowed 0%nat = false -> (1 <= fuel)%nat ->
  run fuel = Some (ThrownAfterLoop generic, []).
Proof.
  intros Hout Hfuel. destruct fuel as [|fuel]; [lia|].
  unfold answerStructured. cbn [loop].
  change (Z.of_nat 0) with 0%Z in Hout. now rewrite Hout.
Qed.

(** The counts of a run that ends. *)
Lemma run_shape (fuel : nat) (exit : Exit) (trace : list Event) :
  run fuel = Some (exit, trace) ->
  exists n,
    (forall j, (j < n)%nat -> goes_on j = true) /\ goes_on n = false /\
    waits trace = map (fun j => (1000 * (Z.of_nat j + 1))%Z) (seq 0 n) /\
    ((allowed n = true /\ length (requests trace) = S n /\
      forall e, exit <> ThrownAfterLoop e) \/
     (allowed n = false /\ length (requests trace) = n /\
      exists e, exit = ThrownAfterLoop e)).
Proof.
  intros Hrun.
  destruct (run_cases fuel) as [[Hnone _] | [n [_ [Hgo [Hstop Hrun']]]]];
    [congruence|].
  rewrite Hrun in Hrun'. injection Hrun' as Hrun'.
  destruct (stop_at_counts n) as [_ [Hwaits Hcount]].
  cbn zeta in *. rewrite <- Hrun' in Hwaits, Hcount. cbn [snd] in *.
  exists n. do 3 (split; [assumption|]). revert Hrun' Hcount.
  destruct (in_budget options (Z.of_nat n)).
  - intros H Hcount. left. repeat split; [assumption|].
    destruct (attempt_result (Z.of_nat n)); injection H as -> _; discriminate.
  - intros H Hcount. injection H as -> _. right. repeat split; [assumption|].
    eexists. reflexivity.
Qed.

(** Under a whole [maxRetries] the loop is left at an attempt within the
    budget, unless there is none. *)
Lemma whole_stop (M : Z) (n : nat) :
  to_integer limit = Some M ->
  (forall j, (j < n)%nat -> goes_on j = true) ->
  (Z.of_nat n < M)%Z \/ (n = 0%nat /\ (M <= 0)%Z).
Proof.
  intros HM Hgo. destruct (whole_budget M HM) as [Hallowed Hfinal].
  destruct n as [|n]; [lia|]. left.
  destruct (proj1 (goes_on_spec n) (Hgo n (Nat.lt_succ_diag_r n)))
    as [Hin [Hnot _]].
  rewrite Hallowed in Hin. rewrite Hfinal in Hnot.
  apply Z.ltb_lt in Hin. apply Z.eqb_neq in Hnot. lia.
Qed.

Lemma run_whole_counts (M : Z) (fuel : nat) (exit : Exit)
      (trace : list Event) :
  to_integer limit = Some M -> run fuel = Some (exit, trace) ->
  (Z.of_nat (length (requests trace)) <= Z.max 0 M)%Z /\
  length (waits trace) = (length (requests trace) - 1)%nat.
Proof.
  intros HM Hrun. destruct (whole_budget M HM) as [Hallowed _].
  destruct (run_shape fuel exit trace Hrun)
    as [n [Hgo [_ [Hwaits Hcount]]]].
  rewrite Hwaits, length_map, length_seq.
  destruct (whole_stop M n HM Hgo) as [Hlt | [-> Hle]];
    destruct Hcount as [[Hin [-> _]] | [Hout [-> _]]]; try lia.
  - rewrite Hallowed in Hout. apply Z.ltb_ge in Hout. lia.
  - rewrite Hallowed in Hin. apply Z.ltb_lt in Hin. lia.
Qed.

(** C6: a run that fails at an attempt which is not the last allowed
    one waits 1000 ms times the number of that attempt (from 1) and sends
    the next request: when the attempts up to the one numbered [n] fail
    and the next is within the budget, the events of the run begin with
    those of the earlier attempts, the request numbered [n], that wait and
    the request numbered [n + 1].  Every run that ends has failed [n]
    times, waited 1000, 2000, ... ms after these failures in turn, and
    either returns the value of the attempt numbered [n], or throws in the
    [catch] block of that attempt, which is then the last, or has left the
    loop before an attempt numbered [n] outside the budget.  Under a
    finite [maxRetries] every run ends and makes at most as many attempts
    as [maxRetries] rounded up, which is [maxRetries] itself when it is
    whole, and then there is no wait after the last attempt.  The first
    request carries the prompts as composed, every later one carries them
    with the instruction to return only valid JSON appended to both, and
    [maxRetries] is 3 when not given. *)
Theorem answerStructured_backoff :
  (forall n fuel exit trace,
     allowed (S n) = true -> failing (S n) ->
     run fuel = Some (exit, trace) ->
     exists rest,
       trace = (failed n
                ++ [Create (request_of (Z.of_nat n));
                    SetTimeout (1000 * (Z.of_nat n + 1))%Z;
                    Create (request_of (Z.of_nat n + 1)%Z)]
                ++ rest)%list) /\
  (forall fuel exit trace,
     run fuel = Some (exit, trace) ->
     exists n,
       failing n /\
       waits trace
       = map (fun j => (1000 * (Z.of_nat j + 1))%Z) (seq 0 n) /\
       requests trace
       = map (fun j => request_of (Z.of_nat j))
             (seq 0 (length (requests trace))) /\
       ((exists v, exit = Returned v /\
                   attempt_result (Z.of_nat n) = Ok v /\
                   allowed n = true /\
                   length (requests trace) = S n) \/
        (exists lasterr,
            exit = ThrownInLoop (exhausted decimal options lasterr) /\
            attempt_result (Z.of_nat n) = Throw lasterr /\
            final n = true /\
            length (requests trace) = S n) \/
        (exit = ThrownAfterLoop (default (error_after n) generic) /\
         allowed n = false /\
         length (requests trace) = n))) /\
  (forall q fuel,
     limit = Finite q -> (Z.to_nat (Qceiling q) < fuel)%nat ->
     exists exit trace,
       run fuel = Some (exit, trace) /\
       (Z.of_nat (length (requests trace)) <= Z.max 0 (Qceiling q))%Z) /\
  (forall M fuel exit trace,
     to_integer limit = Some M -> run fuel = Some (exit, trace) ->
     (Z.of_nat (length (requests trace)) <= Z.max 0 M)%Z /\
     length (waits trace) = (length (requests trace) - 1)%nat) /\
  system_content (request_of 0%Z)
  = enhancedSystemPrompt JSON_stringify options /\
  user_content (request_of 0%Z) = userPrompt options /\
  (forall attempt, (0 < attempt)%Z ->
     system_content (request_of attempt)
     = enhancedSystemPrompt JSON_stringify options ++ retryInstruction /\
     user_content (request_of attempt)
     = userPrompt options ++ reminder) /\
  (maxRetries options = None -> limit = of_Z 3).
Proof.
  split; [|split; [|split; [|split; [|exact request_prompts]]]].
  - intros n fuel exit trace Hin Hfail Hrun.
    destruct (run_cases fuel) as [[Hnone _] | [n' [_ [Hgo [Hstop Hrun']]]]];
      [congruence|].
    rewrite Hrun in Hrun'. injection Hrun' as Hrun'.
    assert (Hpast : (S n < n')%nat \/ (S n = n' /\ allowed (S n) = true)).
    { destruct (Nat.lt_trichotomy (S n) n') as [Hlt | [Heq | Hgt]];
        [now left | now right |].
      rewrite (prefix_goes_on (S n) Hin Hfail n' Hgt) in Hstop.
      discriminate. }
    destruct (stop_at_prefix (S n) n' Hpast) as [rest Hrest].
    rewrite <- Hrun' in Hrest. cbn [snd] in Hrest. exists rest.
    rewrite Hrest, failed_snoc, <- app_assoc. cbn [app].
    now rewrite Nat2Z.inj_succ, Z.add_1_r.
  - intros fuel exit trace Hrun.
    destruct (run_cases fuel) as [[Hnone _] | [n [_ [Hgo [Hstop Hrun']]]]];
      [congruence|].
    rewrite Hrun in Hrun'. injection Hrun' as Hrun'.
    destruct (stop_at_counts n) as [Hreq [Hwaits Hcount]].
    cbn zeta in *. rewrite <- Hrun' in Hreq, Hwaits, Hcount.
    cbn [snd] in *.
    exists n. split; [now apply goes_on_failing|].
    split; [exact Hwaits|]. split; [exact Hreq|].
    revert Hstop Hrun' Hcount. unfold continues.
    destruct (in_budget options (Z.of_nat n)); cbn [andb].
    + destruct (attempt_result (Z.of_nat n)) as [v|lasterr].
      * intros _ H Hcount. injection H as -> _. left. now exists v.
      * intros Hlast H Hcount. injection H as -> _. right. left.
        exists lasterr. repeat split; try assumption.
        now destruct (is_last options (Z.of_nat n)).
    + intros _ H Hcount. injection H as -> _. right. right. now repeat split.
  - intros q fuel Hq Hfuel.
    destruct (run_finite q fuel Hq Hfuel) as [n [Hn [_ [_ Hrun]]]].
    rewrite Hrun. exists (fst (stop_at n)), (snd (stop_at n)).
    split; [now rewrite <- surjective_pairing|].
    destruct (stop_at_counts n) as [_ [_ Hcount]]. cbn zeta in Hcount.
    rewrite Hcount.
    destruct (in_budget options (Z.of_nat n)) eqn:Hin; [|exact Hn].
    unfold in_budget in Hin. rewrite Hq in Hin.
    apply NumberFacts.lt_ceiling in Hin. lia.
  - intros M fuel exit trace. apply run_whole_counts.
Qed.

(** C7: a run returns [v] exactly when [v] is the value of the first
    attempt, among those within the budget, whose content parses and
    validates against the schema, after the requests and waits of the
    failed attempts before it; a run throws in the [catch] block exactly
    when [maxRetries] is a whole number of at least 1 and that many
    attempts fail, for any of the four reasons (the provider throws, the
    content is absent or empty, it does not parse, it does not validate),
    and the error is then the one that names [maxRetries], in digits, and
    the message of the last failure; when [maxRetries] is positive and not
    whole and every attempt fails, the run waits after the last one too
    and throws the error of that attempt as it is. *)
Theorem answerStructured_exits :
  (forall fuel v trace,
     run fuel = Some (Returned v, trace) <->
     exists n, (n < fuel)%nat /\ allowed n = true /\ failing n /\
               attempt_result (Z.of_nat n) = Ok v /\ trace = attempts n) /\
  (forall fuel e trace,
     run fuel = Some (ThrownInLoop e, trace) <->
     exists M lasterr,
       to_integer limit = Some M /\ (1 <= M)%Z /\
       (Z.to_nat M <= fuel)%nat /\ failing (Z.to_nat M) /\
       attempt_result (M - 1)%Z = Throw lasterr /\
       e = mkError ("Failed to get valid structured response after "
                    ++ toString decimal limit
                    ++ " attempts. Last error: " ++ message lasterr) /\
       trace = attempts (Z.to_nat M - 1)) /\
  (forall M, to_integer limit = Some M -> (Z.abs M < 10 ^ 21)%Z ->
     toString decimal limit = Js.string_of_Z M) /\
  (forall q fuel,
     limit = Finite q -> (0 < q)%Q -> to_integer limit = None ->
     (Z.to_nat (Qceiling q) < fuel)%nat ->
     failing (Z.to_nat (Qceiling q)) ->
     exists lasterr,
       attempt_result (Qceiling q - 1)%Z = Throw lasterr /\
       run fuel
       = Some (ThrownAfterLoop lasterr,
               (attempts (Z.to_nat (Qceiling q) - 1)
                ++ [SetTimeout (1000 * Qceiling q)%Z])%list)) /\
  (forall attempt v,
     attempt_result attempt = Ok v <->
     exists text parsedJson,
       create (Z.to_nat attempt) (request_of attempt) = Ok (Some text) /\
       text <> EmptyString /\
       JSON_parse text = Ok parsedJson /\
       zod_parse (responseSchema options) parsedJson = Ok v) /\
  (forall attempt e,
     attempt_result attempt = Throw e <->
     create (Z.to_nat attempt) (request_of attempt) = Throw e \/
     ((create (Z.to_nat attempt) (request_of attempt) = Ok None \/
       create (Z.to_nat attempt) (request_of attempt)
       = Ok (Some EmptyString))
      /\ e = mkError "No response content from LLM") \/
     (exists text,
         create (Z.to_nat attempt) (request_of attempt) = Ok (Some text) /\
         text <> EmptyString /\
         (JSON_parse text = Throw e \/
          exists parsedJson,
            JSON_parse text = Ok parsedJson /\
            zod_parse (responseSchema options) parsedJson = Throw e))).
Proof.
  split; [exact run_returned|].
  split; [|split; [|split; [|split; [exact tryAttempt_ok
                                    | exact tryAttempt_throw]]]].
  - intros fuel e trace. rewrite run_exhausted. split.
    + intros [n [lasterr [Hn [Hlast [Hfail [Hthrow [-> ->]]]]]]].
      pose proof (NumberFacts.last_is_whole _ _ Hlast) as HM.
      exists (Z.of_nat n + 1)%Z, lasterr.
      replace (Z.of_nat n + 1 - 1)%Z with (Z.of_nat n) by lia.
      replace (Z.to_nat (Z.of_nat n + 1)) with (S n) by lia.
      replace (S n - 1)%nat with n by lia.
      repeat split; try assumption; try lia.
      intros j Hj. destruct (Nat.eq_dec j n) as [->|Hne];
        [now exists lasterr | apply Hfail; lia].
    + intros [M [lasterr [HM [Hone [Hfuel [Hfail [Hthrow [-> ->]]]]]]]].
      destruct (whole_budget M HM) as [_ Hfinal].
      exists (Z.to_nat M - 1)%nat, lasterr.
      replace (Z.of_nat (Z.to_nat M - 1)) with (M - 1)%Z by lia.
      repeat split; try assumption; try lia.
      * specialize (Hfinal (Z.to_nat M - 1)%nat).
        replace (Z.of_nat (Z.to_nat M - 1)) with (M - 1)%Z in Hfinal by lia.
        rewrite Hfinal. apply Z.eqb_refl.
      * intros j Hj. apply Hfail. lia.
  - intros M HM Hsmall. unfold toString.
    destruct limit as [| | |q]; try discriminate HM.
    rewrite HM. now replace (Z.abs M <? 10 ^ 21)%Z with true
      by (symmetry; now apply Z.ltb_lt).
  - intros q fuel. apply run_fraction.
Qed.

(** C10: under a whole [maxRetries] of at least 1 no run ends by the
    [throw] after the loop, and a run that is given [maxRetries]
    iterations makes a request and ends inside the loop: it returns the
    value that the schema made of the parsed content of the first attempt
    that succeeds, or it throws, in the [catch] block of the last attempt,
    the error that names [maxRetries]; under a [maxRetries] of at most 0,
    or [NaN], a run makes no request and throws the error "Unexpected error
    in answerStructured" after the loop; under a positive [maxRetries]
    that is not whole, a run whose attempts all fail ends by the [throw]
    after the loop, with the error of the last attempt; under [Infinity]
    no run ends there. *)
Theorem answerStructured_fallback :
  (forall M,
     to_integer limit = Some M -> (1 <= M)%Z ->
     (forall fuel e trace, run fuel <> Some (ThrownAfterLoop e, trace)) /\
     forall fuel, (Z.to_nat M <= fuel)%nat ->
       exists exit trace,
         run fuel = Some (exit, trace) /\
         requests trace <> [] /\
         ((exists n v text parsedJson,
              (Z.of_nat n < M)%Z /\ failing n /\
              create n (request_of (Z.of_nat n)) = Ok (Some text) /\
              JSON_parse text = Ok parsedJson /\
              zod_parse (responseSchema options) parsedJson = Ok v /\
              exit = Returned v) \/
          (exists lasterr,
              failing (Z.to_nat M) /\
              attempt_result (M - 1)%Z = Throw lasterr /\
              exit = ThrownInLoop
                       (mkError
                          ("Failed to get valid structured response after "
                           ++ toString decimal limit
                           ++ " attempts. Last error: "
                           ++ message lasterr))))) /\
  (le limit (of_Z 0) = true \/ limit = NaN ->
   forall fuel, (1 <= fuel)%nat ->
     run fuel
     = Some (ThrownAfterLoop (mkError "Unexpected error in answerStructured"),
             [])) /\
  (forall q fuel,
     limit = Finite q -> (0 < q)%Q -> to_integer limit = None ->
     (Z.to_nat (Qceiling q) < fuel)%nat ->
     failing (Z.to_nat (Qceiling q)) ->
     exists lasterr trace,
       attempt_result (Qceiling q - 1)%Z = Throw lasterr /\
       run fuel = Some (ThrownAfterLoop lasterr, trace) /\
       requests trace <> []) /\
  (limit = Infinity ->
   forall fuel e trace, run fuel <> Some (ThrownAfterLoop e, trace)).
Proof.
  split; [|split; [|split]].
  - intros M HM Hone. destruct (whole_budget M HM) as [Hallowed Hfinal].
    assert (Hstop : forall n,
               (forall j, (j < n)%nat -> goes_on j = true) ->
               goes_on n = false -> allowed n = true).
    { intros n Hgo Hstop. rewrite Hallowed. apply Z.ltb_lt.
      destruct n as [|n]; [lia|].
      destruct (proj1 (goes_on_spec n) (Hgo n (Nat.lt_succ_diag_r n)))
        as [Hin [Hnot _]].
      rewrite Hallowed in Hin. rewrite Hfinal in Hnot.
      apply Z.ltb_lt in Hin. apply Z.eqb_neq in Hnot. lia. }
    split.
    + intros fuel e trace Hrun. apply run_after in Hrun
        as [n [_ [Hout [Hgo _]]]].
      rewrite (Hstop n Hgo) in Hout; [discriminate|].
      unfold continues. now rewrite Hout.
    + intros fuel Hfuel.
      destruct (run_cases fuel) as [[_ Hall] | [n [Hn [Hgo [Hn' Hrun]]]]].
      { assert (Hlast : goes_on (Z.to_nat M - 1) = true)
          by (apply Hall; lia).
        apply goes_on_spec in Hlast as [_ [Hnot _]].
        rewrite Hfinal in Hnot. apply Z.eqb_neq in Hnot. lia. }
      rewrite Hrun. pose proof (Hstop n Hgo Hn') as Hin.
      pose proof (goes_on_failing n Hgo) as Hfail.
      revert Hn'. unfold continues. rewrite Hin. cbn [andb].
      assert (Hsent : requests (attempts n) <> []).
      { rewrite requests_attempts. cbn [seq map]. discriminate. }
      rewrite Hallowed in Hin. apply Z.ltb_lt in Hin.
      destruct (attempt_result (Z.of_nat n)) as [v|lasterr] eqn:Hres;
        intros Hlast; do 2 eexists; (split; [reflexivity|]);
        (split; [exact Hsent|]).
      * left. apply tryAttempt_ok in Hres
          as [text [parsedJson [Hcreate [_ [Hparse Hvalid]]]]].
        rewrite Nat2Z.id in Hcreate.
        exists n, v, text, parsedJson. now repeat split.
      * right. exists lasterr.
        assert (Hn1 : Z.of_nat n = (M - 1)%Z).
        { apply Z.eqb_eq. rewrite <- Hfinal.
          now destruct (is_last options (Z.of_nat n)). }
        rewrite <- Hn1. repeat split; try assumption.
        intros j Hj. destruct (Nat.eq_dec j n) as [->|Hne];
          [now exists lasterr | apply Hfail; lia].
  - intros Hlow fuel Hfuel. apply run_no_attempt; [|assumption].
    unfold in_budget. destruct Hlow as [Hle | ->]; [|reflexivity].
    now apply NumberFacts.le_zero.
  - intros q fuel Hq Hpos Hnone Hfuel Hfail.
    destruct (run_fraction q fuel Hq Hpos Hnone Hfuel Hfail)
      as [lasterr [Hlast Hrun]].
    exists lasterr. eexists. split; [exact Hlast|].
    split; [exact Hrun|].
    rewrite requests_app, requests_attempts. cbn [seq map app]. discriminate.
  - intros Hlimit fuel e trace Hrun.
    apply run_after in Hrun as [n [_ [Hout _]]].
    unfold in_budget in Hout. rewrite Hlimit in Hout. discriminate Hout.
Qed.

End Run.

Import Scripted.

(** With [maxRetries] 2.5 and a provider that is out of reach, the run
    makes three attempts, more than [maxRetries], and waits after the
    third as well. *)
Lemma answerStructured_backoff_fraction :
  exists exit trace,
    answerStructured JSON_parse JSON_stringify zod_parse (create []) decimal
      (ask ZodNumber (Some (Finite (5 # 2)))) 4
    = Some (exit, trace) /\
    length (requests trace) = 3%nat /\
    (5 # 2 < inject_Z (Z.of_nat (length (requests trace))))%Q /\
    waits trace = [1000; 2000; 3000]%Z.
Proof. do 2 eexists. vm_compute. repeat split. Qed.

(** With [maxRetries] 2.5 the third attempt is the last within the
    budget; when it fails too, the run waits 3000 ms and throws the error
    of that attempt as it is, which names no count. *)
Lemma answerStructured_exits_fraction :
  exists trace,
    in_budget (ask ZodNumber (Some (Finite (5 # 2)))) 2 = true /\
    in_budget (ask ZodNumber (Some (Finite (5 # 2)))) 3 = false /\
    answerStructured JSON_parse JSON_stringify zod_parse
      (create [Ok (Some "oops"); Ok None; Ok (Some "nope")]) decimal
      (ask ZodNumber (Some (Finite (5 # 2)))) 4
    = Some (ThrownAfterLoop (mkError "Unexpected token in JSON"), trace) /\
    waits trace = [1000; 2000; 3000]%Z.
Proof. eexists. vm_compute. repeat split. Qed.

(** With [maxRetries] 1.5, which is at least 1, a run whose attempts
    fail ends by the [throw] after the loop. *)
Lemma answerStructured_fallback_fraction :
  exists trace,
    le (of_Z 1) (Finite (3 # 2)) = true /\
    answerStructured JSON_parse JSON_stringify zod_parse (create []) decimal
      (ask ZodNumber (Some (Finite (3 # 2)))) 3
    = Some (ThrownAfterLoop (mkError "Connection error"), trace) /\
    length (requests trace) = 2%nat.
Proof. eexists. vm_compute. repeat split. Qed.

Lemma answerStructured_backoff_witness :
  exists rest,
    attempts_trace JSON_stringify (ask ZodNumber (Some (of_Z 2))) 1
    = (failed_trace JSON_stringify (ask ZodNumber (Some (of_Z 2))) 0
       ++ [Create (request JSON_stringify (ask ZodNumber (Some (of_Z 2))) 0);
           SetTimeout 1000;
           Create (request JSON_stringify (ask ZodNumber (Some (of_Z 2)))
                           1)]
       ++ rest)%list.
Proof.
  destruct (answerStructured_backoff JSON_parse JSON_stringify zod_parse
              (create [Ok (Some "oops"); Ok (Some "42")]) decimal
              (ask ZodNumber (Some (of_Z 2)))) as [Hretry _].
  apply (Hretry 0%nat 3%nat (Returned (JNum 42))).
  - vm_compute. reflexivity.
  - intros j Hj. assert (j = 0%nat) as -> by lia.
    eexists. vm_compute. reflexivity.
  - vm_compute. reflexivity.
Defined.

Lemma answerStructured_exits_witness :
  answerStructured JSON_parse JSON_stringify zod_parse
    (create [Ok (Some "oops"); Ok (Some "42")]) decimal
    (ask ZodNumber (Some (of_Z 2))) 3
  = Some (Returned (JNum 42),
          attempts_trace JSON_stringify (ask ZodNumber (Some (of_Z 2))) 1).
Proof.
  apply (proj1 (answerStructured_exits JSON_parse JSON_stringify zod_parse
                  (create [Ok (Some "oops"); Ok (Some "42")]) decimal
                  (ask ZodNumber (Some (of_Z 2))))).
  exists 1%nat. split; [lia|]. split; [vm_compute; reflexivity|].
  split; [|split; vm_compute; reflexivity].
  intros j Hj. assert (j = 0%nat) as -> by lia.
  eexists. vm_compute. reflexivity.
Defined.

Lemma answerStructured_fallback_witness :
  (forall fuel e trace,
     answerStructured JSON_parse JSON_stringify zod_parse
       (create [Ok (Some "oops"); Ok (Some "42")]) decimal
       (ask ZodNumber (Some (of_Z 2))) fuel
     <> Some (ThrownAfterLoop e, trace)) /\
  answerStructured JSON_parse JSON_stringify zod_parse
    (create [Ok (Some "42")]) decimal (ask ZodNumber (Some (of_Z 0))) 1
  = Some (ThrownAfterLoop (mkError "Unexpected error in answerStructured"),
          []).
Proof.
  split.
  - destruct (answerStructured_fallback JSON_parse JSON_stringify zod_parse
                (create [Ok (Some "oops"); Ok (Some "42")]) decimal
                (ask ZodNumber (Some (of_Z 2)))) as [Hwhole _].
    destruct (Hwhole 2%Z) as [Hnever _];
      [vm_compute; reflexivity | lia | exact Hnever].
  - destruct (answerStructured_fallback JSON_parse JSON_stringify zod_parse
                (create [Ok (Some "42")]) decimal
                (ask ZodNumber (Some (of_Z 0)))) as [_ [Hnone _]].
    apply Hnone; [left; vm_compute; reflexivity | lia].
Defined.

(** A first answer that is not JSON and a second that is: the value of
    the second is returned after one wait of 1000 ms. *)
Example answerStructured_second_attempt :
  exists trace,
    answerStructured JSON_parse JSON_stringify zod_parse
      (create [Ok (Some "oops"); Ok (Some "42")]) decimal
      (ask ZodNumber None) 4
    = Some (Returned (JNum 42), trace) /\
    waits trace = [1000%Z] /\
    length (requests trace) = 2%nat.
Proof. eexists. vm_compute. repeat split. Qed.

(** Three answers that are not JSON use up the default of three
    attempts; the error names the count and the last failure. *)
Example answerStructured_exhausted :
  exists trace,
    answerStructured JSON_parse JSON_stringify zod_parse
      (create [Ok (Some "oops"); Ok None; Ok (Some "nope"); Ok (Some "42")])
      decimal (ask ZodNumber None) 4
    = Some (ThrownInLoop
              (mkError "Failed to get valid structured response after 3 attempts. Last error: Unexpected token in JSON"),
            trace) /\
    waits trace = [1000%Z; 2000%Z] /\
    length (requests trace) = 3%nat.
Proof. eexists. vm_compute. repeat split. Qed.

(** With [maxRetries] [Infinity] and a provider that is out of reach a
    run does not end. *)
Example answerStructured_unbounded :
  answerStructured JSON_parse JSON_stringify zod_parse (create []) decimal
    (ask ZodNumber (Some Infinity)) 50
  = None.
Proof. vm_compute. reflexivity. Qed.

End RetrySpec.


(** ** Sessions follow the datastore *)

Module SessionSpec.
Import Config Auth AuthSession.

(** The flag of a session is the flag of the first row with the id. *)
Lemma session_flag (s : SessionUser) (userId : string) (db : Db) :
  session (Some (mkSession (Some s))) userId db
  = (Ok (Some (mkSession
                 (Some (mkSessionUser userId
                          (match find_user userId db with
                           | Some u => user_isAdmin u
                           | None => false
                           end))))), db).
Proof.
  unfold session, bind, select_isAdmin, ret, find_user.
  do 4 f_equal.
  induction (users db) as [|u us IH]; cbn; [reflexivity|].
  destruct (String.eqb (user_id u) userId); [reflexivity | exact IH].
Qed.

Lemma find_user_absent (id : string) (db : Db) :
  ~ In id (map user_id (users db)) -> find_user id db = None.
Proof.
  unfold find_user. induction (users db) as [|u us IH]; cbn; intros Hno;
    [reflexivity|].
  destruct (String.eqb_spec (user_id u) id) as [Heq | Hne].
  - exfalso. apply Hno. now left.
  - apply IH. intros Hin. apply Hno. now right.
Qed.

Lemma find_user_present (id : string) (db : Db) :
  In id (map user_id (users db)) ->
  exists u, find_user id db = Some u /\ user_id u = id.
Proof.
  unfold find_user. induction (users db) as [|u us IH]; cbn; intros Hin;
    [contradiction|].
  destruct (String.eqb_spec (user_id u) id) as [Heq | Hne].
  - now exists u.
  - destruct Hin as [Heq | Hin]; [contradiction | now apply IH].
Qed.

(** The first row with the id after the flag of that id is set. *)
Lemma find_flagged (isAdmin : bool) (id : string) (us : list User) :
  In id (map user_id us) ->
  exists u,
    find (fun u => String.eqb (user_id u) id)
         (map (fun u =>
                 if String.eqb (user_id u) id
                 then {| user_id := user_id u;
                         user_name := user_name u;
                         user_email := user_email u;
                         user_emailVerified := user_emailVerified u;
                         user_image := user_image u;
                         user_isAdmin := isAdmin |}
                 else u) us) = Some u /\
    user_isAdmin u = isAdmin.
Proof.
  induction us as [|u us IH]; [contradiction|]. intros Hin.
  cbn [map find]. destruct (String.eqb (user_id u) id) eqn:Hid.
  - cbn [user_id]. rewrite Hid. eexists. split; reflexivity.
  - rewrite Hid. apply IH. destruct Hin as [Heq | Hin]; [|assumption].
    apply String.eqb_neq in Hid. contradiction.
Qed.

Lemma find_user_updated (isAdmin : bool) (id : string) (db : Db) :
  In id (map user_id (users db)) ->
  exists u db',
    AdminUsersRoute.update_isAdmin isAdmin id db = (Ok tt, db') /\
    find_user id db' = Some u /\ user_isAdmin u = isAdmin.
Proof.
  intros Hin. destruct (find_flagged isAdmin id (users db) Hin) as [u Hu].
  exists u. eexists. split; [reflexivity|]. exact Hu.
Qed.

(** A change of the admin flag shows in the next session of the user:
    once [PATCH] has answered success for the id of an existing user, the
    [session] callback gives that user the flag that was asked for. *)
Theorem session_follows_PATCH
        (admin s : SessionUser) (fields : list (string * js))
        (isAdmin : bool) (userId : string) (db : Db) :
  su_isAdmin admin = true ->
  Js.get "isAdmin" fields = JBool isAdmin ->
  su_id admin <> userId \/ isAdmin = true ->
  In userId (map user_id (users db)) ->
  exists db',
    AdminUsersRoute.PATCH (Some (mkSession (Some admin))) (Ok (JObj fields))
                          userId db
    = (Ok (mkResponse 200 success_json), db') /\
    session (Some (mkSession (Some s))) userId db'
    = (Ok (Some (mkSession (Some (mkSessionUser userId isAdmin)))), db').
Proof.
  intros Hadmin Hfield Hguard Hin.
  destruct (find_user_updated isAdmin userId db Hin)
    as [u [db' [Hrun [Hfound Hflag]]]].
  exists db'. split.
  - unfold AdminUsersRoute.PATCH. rewrite Hadmin. cbn [negb].
    unfold try_catch, bind, lift, Js.destructure. rewrite Hfield.
    assert (Hpass : String.eqb (su_id admin) userId && negb isAdmin = false).
    { destruct Hguard as [Hne | ->]; [|apply andb_false_r].
      apply String.eqb_neq in Hne. now rewrite Hne. }
    rewrite Hpass, Hrun. reflexivity.
  - rewrite session_flag, Hfound, Hflag. reflexivity.
Qed.

Lemma session_follows_PATCH_witness :
  exists db',
    AdminUsersRoute.PATCH (Some (mkSession (Some (mkSessionUser "u1" true))))
                          (Ok (JObj [("isAdmin", JBool false)])) "u2"
                          (mkDb [] [mkUser "u1" None None None None true;
                                    mkUser "u2" None None None None true])
    = (Ok (mkResponse 200 success_json), db') /\
    session (Some (mkSession (Some (mkSessionUser "" false)))) "u2" db'
    = (Ok (Some (mkSession (Some (mkSessionUser "u2" false)))), db').
Proof.
  apply (session_follows_PATCH (mkSessionUser "u1" true)).
  - reflexivity.
  - reflexivity.
  - left. discriminate.
  - cbn. right. now left.
Defined.

(** The flag that [createUser] computes. *)
Lemma shouldBeAdmin_rule (cfg : AuthConfig) (email : option string) :
  shouldBeAdmin cfg email = true <->
  exists e, email = Some e /\ domain_rule cfg e.
Proof.
  unfold shouldBeAdmin, domain_rule. destruct email as [e|].
  - destruct (JsString.truthy e) eqn:Ht; cbn [andb].
    + destruct (allowedEmailDomains cfg) as [|d0 ds] eqn:Hlist; cbn [length].
      * split; [discriminate|]. intros [e' [_ [Hne _]]]. now destruct Hne.
      * cbn [Nat.ltb Nat.leb]. split.
        -- intros Hinc. exists e. split; [reflexivity|].
           split; [discriminate|].
           destruct (emailDomain e) as [d|]; [|discriminate].
           exists d. split; [reflexivity|].
           now apply JsStringFacts.includes_In.
        -- intros [e' [He' [_ [d [Hd Hin]]]]]. injection He' as <-.
           rewrite Hd. now apply JsStringFacts.includes_In.
    + split; [discriminate|]. intros [e' [He' [_ [d [Hd _]]]]].
      injection He' as <-. destruct e; discriminate.
  - split; [discriminate|]. intros [e [He _]]. discriminate.
Qed.




(** Authorisation follows the datastore: a session built for a user whose
    row is missing or is not an admin is not an admin session, and each of
    the four admin handlers answers it 401 and leaves the datastore as it
    is, whatever the request. *)
Theorem session_without_flag_is_refused
        (s : SessionUser) (uid : string) (db : Db) :
  (forall u, find_user uid db = Some u -> user_isAdmin u = false) ->
  exists sess,
    session (Some (mkSession (Some s))) uid db = (Ok sess, db) /\
    session_isAdmin sess = false /\
    (forall req_json id,
        AdminUsersRoute.PATCH sess req_json id db
        = (Ok (mkResponse 401 (error_json "Unauthorized")), db)) /\
    (forall msg req_json uuid now,
        EmailWhitelistRoute.POST msg sess req_json uuid now db
        = (Ok (mkResponse 401 (error_json "Unauthorized")), db)) /\
    (forall id,
        EmailWhitelistIdRoute.DELETE sess id db
        = (Ok (mkResponse 401 (error_json "Unauthorized")), db)) /\
    (forall req_json id,
        EmailWhitelistIdRoute.PATCH sess req_json id db
        = (Ok (mkResponse 401 (error_json "Unauthorized")), db)).
Proof.
  intros Hflag. eexists. split; [apply session_flag|].
  assert (Hno : match find_user uid db with
                | Some u => user_isAdmin u
                | None => false
                end = false).
  { destruct (find_user uid db) as [u|]; [now apply Hflag | reflexivity]. }
  rewrite Hno. repeat split.
Qed.

Lemma session_without_flag_is_refused_witness :
  exists sess,
    session (Some (mkSession (Some (mkSessionUser "" true)))) "u2"
            (mkDb [] [mkUser "u1" None None None None true;
                      mkUser "u2" None None None None false])
    = (Ok sess, mkDb [] [mkUser "u1" None None None None true;
                         mkUser "u2" None None None None false]) /\
    session_isAdmin sess = false.
Proof.
  destruct (session_without_flag_is_refused
              (mkSessionUser "" true) "u2"
              (mkDb [] [mkUser "u1" None None None None true;
                        mkUser "u2" None None None None false]))
    as [sess [Hrun [Hflag _]]].
  - intros u Hu. cbn in Hu. injection Hu as <-. reflexivity.
  - now exists sess.
Defined.

End SessionSpec.

(** ** What the admin-flag handler can and cannot do *)

Module AdminUsersFrame.
Import AdminUsersRoute.

(** Every request either leaves the datastore as it is, with an answer
    other than 200, or is the request of an admin for a boolean flag that
    is not the removal of the admin's own, and sets that flag. *)
Lemma PATCH_effect (session : option Session) (req_json : Res js)
      (userId : string) (db : Db) :
  exists response db',
    PATCH session req_json userId db = (Ok response, db') /\
    ((status response <> 200%Z /\ db' = db) \/
     (response = mkResponse 200 success_json /\
      exists admin isAdmin parsed,
        session = Some (mkSession (Some admin)) /\
        su_isAdmin admin = true /\
        req_json = Ok parsed /\
        Js.destructure "(intermediate value)" "isAdmin" parsed
        = Ok (JBool isAdmin) /\
        (su_id admin = userId -> isAdmin = true) /\
        update_isAdmin isAdmin userId db = (Ok tt, db'))).
Proof.
  unfold PATCH.
  destruct session as [[[admin|]]|];
    try (do 2 eexists; split; [reflexivity|]; left; split;
         [discriminate | reflexivity]).
  destruct (su_isAdmin admin) eqn:Hadmin; cbn [negb];
    [|do 2 eexists; split; [reflexivity|]; left; split;
      [discriminate | reflexivity]].
  unfold try_catch, bind, lift.
  destruct req_json as [parsed|e];
    [|do 2 eexists; split; [reflexivity|]; left; split;
      [discriminate | reflexivity]].
  destruct (Js.destructure "(intermediate value)" "isAdmin" parsed)
    as [value|e] eqn:Hvalue;
    [|do 2 eexists; split; [reflexivity|]; left; split;
      [discriminate | reflexivity]].
  destruct value as [| |isAdmin|n|v|items|fields];
    try (do 2 eexists; split; [reflexivity|]; left; split;
         [discriminate | reflexivity]).
  destruct (String.eqb (su_id admin) userId && negb isAdmin) eqn:Hguard.
  - do 2 eexists. split; [reflexivity|]. left. split;
      [discriminate | reflexivity].
  - do 2 eexists. split; [reflexivity|]. right. split; [reflexivity|].
    exists admin, isAdmin, parsed. repeat split; try assumption.
    intros Hself. apply String.eqb_eq in Hself. rewrite Hself in Hguard.
    now destruct isAdmin.
Qed.

Lemma PATCH_statuses (session : option Session) (req_json : Res js)
      (userId : string) (db : Db) :
  exists response db',
    PATCH session req_json userId db = (Ok response, db') /\
    In (status response) [200%Z; 400%Z; 401%Z; 500%Z].
Proof.
  unfold PATCH.
  destruct session as [[[admin|]]|];
    try (do 2 eexists; split; [reflexivity|]; cbn; tauto).
  destruct (su_isAdmin admin); cbn [negb];
    [|do 2 eexists; split; [reflexivity|]; cbn; tauto].
  unfold try_catch, bind, lift.
  destruct req_json as [parsed|e];
    [|do 2 eexists; split; [reflexivity|]; cbn; tauto].
  destruct (Js.destructure "(intermediate value)" "isAdmin" parsed)
    as [value|e];
    [|do 2 eexists; split; [reflexivity|]; cbn; tauto].
  destruct value as [| |isAdmin|n|v|items|fields];
    try (do 2 eexists; split; [reflexivity|]; cbn; tauto).
  destruct (String.eqb (su_id admin) userId && negb isAdmin);
    do 2 eexists; (split; [reflexivity|]); cbn; tauto.
Qed.

(** The handler never throws, and it changes the datastore only for an
    admin session and with the answer 200: a request without a session, of
    a user who is not an admin, with a body that does not parse or whose
    [isAdmin] is not a boolean, changes nothing. *)
Theorem PATCH_writes_need_authority
        (session : option Session) (req_json : Res js) (userId : string)
        (db : Db) :
  exists response db',
    PATCH session req_json userId db = (Ok response, db') /\
    (status response <> 200%Z -> db' = db) /\
    (db' <> db ->
     status response = 200%Z /\ session_isAdmin session = true /\
     exists parsed isAdmin,
       req_json = Ok parsed /\
       Js.destructure "(intermediate value)" "isAdmin" parsed
       = Ok (JBool isAdmin)) /\
    (session_isAdmin session = false ->
     response = mkResponse 401 (error_json "Unauthorized")).
Proof.
  destruct (PATCH_effect session req_json userId db)
    as [response [db' [Hrun Hcases]]].
  exists response, db'. split; [exact Hrun|].
  assert (Hdenied : session_isAdmin session = false ->
                    response = mkResponse 401 (error_json "Unauthorized")).
  { intros Hno. revert Hrun. unfold PATCH.
    destruct session as [[[admin|]]|]; cbn in Hno;
      try (intros H; now injection H as <-).
    rewrite Hno. cbn [negb]. intros H. now injection H as <-. }
  destruct Hcases as [[Hstatus ->] | [-> [admin [isAdmin [parsed Hok]]]]].
  - split; [reflexivity|]. split; [intros Hne; now destruct Hne|].
    exact Hdenied.
  - split; [intros Hne; now destruct Hne|]. split; [|exact Hdenied].
    intros _. destruct Hok as [-> [Hadmin [Hparsed [Hvalue _]]]].
    split; [reflexivity|]. split; [exact Hadmin|]. now exists parsed, isAdmin.
Qed.

(** Whatever the request, the handler leaves the whitelist table alone,
    keeps the users in their order with their id, name, email, image and
    verification date, and keeps the admin flag of every user other than
    the target. *)
Theorem PATCH_touches_one_flag
        (session : option Session) (req_json : Res js) (userId : string)
        (db : Db) :
  exists response db',
    PATCH session req_json userId db = (Ok response, db') /\
    email_whitelist db' = email_whitelist db /\
    Forall2 (Frames.kept_but_flag userId) (users db) (users db').
Proof.
  destruct (PATCH_effect session req_json userId db)
    as [response [db' [Hrun Hcases]]].
  exists response, db'. split; [exact Hrun|].
  destruct Hcases as [[_ ->] | [_ [admin [isAdmin [parsed Hok]]]]].
  - split; [reflexivity|]. clear Hrun.
    induction (users db) as [|u us IH]; constructor; [|exact IH].
    unfold Frames.kept_but_flag. now repeat split.
  - destruct Hok as [_ [_ [_ [_ [_ Hupdate]]]]].
    unfold update_isAdmin in Hupdate. injection Hupdate as <-.
    split; [reflexivity|]. cbn [users]. clear Hrun.
    induction (users db) as [|u us IH]; cbn [map]; constructor; [|exact IH].
    unfold Frames.kept_but_flag.
    destruct (String.eqb_spec (user_id u) userId) as [Heq | Hne]; cbn;
      repeat split; try reflexivity.
    intros Hne. contradiction.
Qed.

(** An admin cannot lose the flag by a request of their own: whatever the
    request of a session user who has a row with the admin flag, that user
    has a row with the flag afterwards, so the admins never run out through
    this handler. *)
Theorem PATCH_keeps_acting_admin
        (actor : SessionUser) (req_json : Res js) (userId : string) (db : Db) :
  Frames.admin_row (su_id actor) db ->
  exists response db',
    PATCH (Some (mkSession (Some actor))) req_json userId db
    = (Ok response, db') /\
    Frames.admin_row (su_id actor) db'.
Proof.
  intros [u [Hin [Hid Hflag]]].
  destruct (PATCH_effect (Some (mkSession (Some actor))) req_json userId db)
    as [response [db' [Hrun Hcases]]].
  exists response, db'. split; [exact Hrun|].
  destruct Hcases as [[_ ->] | [_ [admin [isAdmin [parsed Hok]]]]].
  - now exists u.
  - destruct Hok as [Hsession [_ [_ [_ [Hself Hupdate]]]]].
    injection Hsession as <-.
    unfold update_isAdmin in Hupdate. injection Hupdate as <-.
    unfold Frames.admin_row. cbn [users].
    destruct (String.eqb_spec (user_id u) userId) as [Heq | Hne].
    + exists {| user_id := user_id u;
                user_name := user_name u;
                user_email := user_email u;
                user_emailVerified := user_emailVerified u;
                user_image := user_image u;
                user_isAdmin := isAdmin |}.
      split; [|split; [exact Hid|]].
      * apply in_map_iff. exists u. split; [|exact Hin].
        apply String.eqb_eq in Heq. now rewrite Heq.
      * cbn. apply Hself. now rewrite <- Hid.
    + exists u. split; [|now split].
      apply in_map_iff. exists u. split; [|exact Hin].
      apply String.eqb_neq in Hne. now rewrite Hne.
Qed.

Lemma PATCH_keeps_acting_admin_witness :
  exists response db',
    PATCH (Some (mkSession (Some (mkSessionUser "u1" true))))
          (Ok (JObj [("isAdmin", JBool false)])) "u1"
          (mkDb [] [mkUser "u1" None None None None true])
    = (Ok response, db') /\
    Frames.admin_row "u1" db'.
Proof.
  apply (PATCH_keeps_acting_admin (mkSessionUser "u1" true)).
  eexists. split; [now left | now split].
Defined.

End AdminUsersFrame.

(** ** Who the whitelist handlers let in *)

Module WhitelistAccess.
Import JsString Config Auth Regex EmailWhitelistRoute.

Lemma found_existsb {A} (f : A -> bool) (l : list A) :
  (0 <? length (firstn 1 (filter f l)))%nat = existsb f l.
Proof.
  induction l as [|x l IH]; cbn; [reflexivity|].
  destruct (f x); [reflexivity | exact IH].
Qed.

(** [isEmailAllowed] in closed form: the domain rule or a row of the
    table. *)
Lemma isEmailAllowed_closed (cfg : AuthConfig) (e : string) (db : Db) :
  isEmailAllowed cfg e db
  = (Ok ((0 <? length (allowedEmailDomains cfg))%nat
         && includes (allowedEmailDomains cfg) (emailDomain e)
         || existsb (fun r => String.eqb (wl_email r) (toLowerCase e))
                    (email_whitelist db)), db).
Proof.
  rewrite AuthSpec.isEmailAllowed_unfold.
  destruct (_ && _); [reflexivity|].
  unfold checkWhitelist, bind, select_whitelist_by_email, ret.
  now rewrite found_existsb.
Qed.

Lemma Db_eta (db : Db) :
  {| email_whitelist := email_whitelist db; users := users db |} = db.
Proof. now destruct db. Qed.

Lemma filter_none {A} (f : A -> bool) (l : list A) :
  existsb f l = false -> filter (fun x => negb (f x)) l = l.
Proof.
  induction l as [|x l IH]; cbn; [reflexivity|].
  destruct (f x); cbn; [discriminate|]. intros H. now rewrite IH.
Qed.

Lemma some_first {A} (f : A -> bool) (l : list A) :
  existsb f l = true -> exists x, nth_error (filter f l) 0 = Some x.
Proof.
  induction l as [|x l IH]; cbn; [discriminate|].
  destruct (f x); cbn; [now exists x | exact IH].
Qed.

Lemma none_first {A} (f : A -> bool) (l : list A) :
  existsb f l = false -> nth_error (filter f l) 0 = None.
Proof.
  induction l as [|x l IH]; cbn; [reflexivity|].
  destruct (f x); cbn; [discriminate | exact IH].
Qed.

(** [DELETE] by its three outcomes. *)
Lemma DELETE_cases (session : option Session) (id : string) (db : Db) :
  EmailWhitelistIdRoute.DELETE session id db =
  if negb (session_isAdmin session)
  then (Ok (mkResponse 401 (error_json "Unauthorized")), db)
  else if existsb (fun r => String.eqb (wl_id r) id) (email_whitelist db)
  then (Ok (mkResponse 200 success_json),
        {| email_whitelist :=
             filter (fun r => negb (String.eqb (wl_id r) id))
                    (email_whitelist db);
           users := users db |})
  else (Ok (mkResponse 404 (error_json "Email not found")), db).
Proof.
  unfold EmailWhitelistIdRoute.DELETE, try_catch.
  destruct (session_isAdmin session); cbn [negb]; [|reflexivity].
  unfold bind, EmailWhitelistIdRoute.delete_whitelist.
  destruct (existsb _ (email_whitelist db)) eqn:Hid.
  - destruct (some_first _ _ Hid) as [row ->]. reflexivity.
  - rewrite (none_first _ _ Hid), (filter_none _ _ Hid), Db_eta.
    reflexivity.
Qed.

Lemma NoDup_map_same {A B} (f : A -> B) (l : list A) (x y : A) :
  NoDup (map f l) -> In x l -> In y l -> f x = f y -> x = y.
Proof.
  induction l as [|z l IH]; cbn; [contradiction|].
  intros Hnd Hx Hy Hf. apply NoDup_cons_iff in Hnd as [Hz Hl].
  destruct Hx as [-> | Hx], Hy as [-> | Hy]; try reflexivity.
  - exfalso. apply Hz. rewrite Hf. now apply in_map.
  - exfalso. apply Hz. rewrite <- Hf. now apply in_map.
  - now apply IH.
Qed.

(** Removing an entry revokes the access it gave: in a datastore the
    handlers produce, after an admin deletes the row of an address, no
    spelling of that address is allowed any more, unless the domain rule
    lets it in. *)
Theorem DELETE_revokes
        (cfg : AuthConfig) (admin : SessionUser) (row : EmailWhitelist)
        (e : string) (db : Db) :
  EmailWhitelistIdRoute.reachable db ->
  su_isAdmin admin = true ->
  In row (email_whitelist db) ->
  toLowerCase e = wl_email row ->
  ~ domain_rule cfg e ->
  exists db',
    EmailWhitelistIdRoute.DELETE (Some (mkSession (Some admin))) (wl_id row) db
    = (Ok (mkResponse 200 success_json), db') /\
    isEmailAllowed cfg e db' = (Ok false, db').
Proof.
  intros Hreach Hadmin Hrow Hemail Hrule.
  destruct (EmailWhitelistSpec.reachable_invariant db Hreach) as [_ Hnd].
  rewrite DELETE_cases. cbn [session_isAdmin]. rewrite Hadmin. cbn [negb].
  assert (Hid : existsb (fun r => String.eqb (wl_id r) (wl_id row))
                        (email_whitelist db) = true).
  { apply existsb_exists. exists row. split; [assumption|].
    apply String.eqb_refl. }
  rewrite Hid. eexists. split; [reflexivity|].
  rewrite isEmailAllowed_closed. cbn [email_whitelist].
  replace ((0 <? length (allowedEmailDomains cfg))%nat
           && includes (allowedEmailDomains cfg) (emailDomain e))
    with false.
  2:{ symmetry. apply not_true_is_false. intros H.
      now apply AuthSpec.includes_domain_rule in H. }
  cbn [orb]. do 2 f_equal. apply not_true_is_false. intros Hfound.
  apply existsb_exists in Hfound as [r [Hin Heq]].
  apply filter_In in Hin as [Hin Hkept]. apply String.eqb_eq in Heq.
  assert (r = row) as ->.
  { apply (NoDup_map_same wl_email (email_whitelist db)); try assumption.
    now rewrite Heq. }
  rewrite String.eqb_refl in Hkept. discriminate.
Qed.

Lemma DELETE_revokes_witness :
  exists db',
    EmailWhitelistIdRoute.DELETE
      (Some (mkSession (Some (mkSessionUser "u1" true)))) "id-1"
      (mkDb [mkEmailWhitelist "id-1" "guest@other.com" 0 (Some "u1") JNull]
            [mkUser "u1" None (Some "ann@example.com") None None true])
    = (Ok (mkResponse 200 success_json), db') /\
    isEmailAllowed (mkAuthConfig ["acme.com"]) "Guest@Other.com" db'
    = (Ok false, db').
Proof.
  apply (DELETE_revokes (mkAuthConfig ["acme.com"]) (mkSessionUser "u1" true)
           (mkEmailWhitelist "id-1" "guest@other.com" 0 (Some "u1") JNull)
           "Guest@Other.com").
  - apply (EmailWhitelistIdRoute.reach_POST
             (mkDb [] [mkUser "u1" None (Some "ann@example.com") None None true]) _
             postgres_message
             (Some (mkSession (Some (mkSessionUser "u1" true))))
             (Ok (JObj [("email", JStr "guest@other.com")])) "id-1" 0%Z
             (Ok (mkResponse 200
                    (row_json (mkEmailWhitelist "id-1" "guest@other.com" 0
                                                (Some "u1") JNull))))).
    + apply EmailWhitelistIdRoute.reach_empty.
    + reflexivity.
  - reflexivity.
  - now left.
  - reflexivity.
  - intros [_ [d [Hd Hin]]]. cbn in Hd. injection Hd as <-.
    destruct Hin as [H | []]. discriminate.
Defined.

(** Deleting an id touches no other entry: an address that is not the
    email of a row with that id is allowed after the request exactly as it
    was before, whoever sends the request; an id that no row has leaves the
    datastore as it is. *)
Theorem DELETE_spares_others
        (cfg : AuthConfig) (session : option Session) (id e : string)
        (db : Db) :
  (forall r, In r (email_whitelist db) -> wl_id r = id ->
             wl_email r <> toLowerCase e) ->
  exists response db' allowed,
    EmailWhitelistIdRoute.DELETE session id db = (Ok response, db') /\
    users db' = users db /\
    isEmailAllowed cfg e db = (Ok allowed, db) /\
    isEmailAllowed cfg e db' = (Ok allowed, db') /\
    (~ In id (map wl_id (email_whitelist db)) -> db' = db).
Proof.
  intros Hother. rewrite DELETE_cases.
  destruct (negb (session_isAdmin session)).
  { do 3 eexists. split; [reflexivity|]. split; [reflexivity|].
    split; [apply isEmailAllowed_closed|].
    split; [apply isEmailAllowed_closed | reflexivity]. }
  destruct (existsb (fun r => String.eqb (wl_id r) id) (email_whitelist db))
    eqn:Hid.
  2:{ do 3 eexists. split; [reflexivity|]. split; [reflexivity|].
      split; [apply isEmailAllowed_closed|].
      split; [apply isEmailAllowed_closed | reflexivity]. }
  do 3 eexists. split; [reflexivity|]. split; [reflexivity|].
  split; [apply isEmailAllowed_closed|]. split.
  - rewrite isEmailAllowed_closed. cbn [email_whitelist]. do 3 f_equal.
    clear Hid. induction (email_whitelist db) as [|r rs IH];
      [reflexivity|].
    cbn [filter existsb].
    assert (IH' : existsb (fun r0 => String.eqb (wl_email r0) (toLowerCase e))
                    (filter (fun r0 => negb (String.eqb (wl_id r0) id)) rs)
                  = existsb (fun r0 => String.eqb (wl_email r0) (toLowerCase e))
                            rs).
    { apply IH. intros r' Hin. apply Hother. now right. }
    destruct (String.eqb_spec (wl_id r) id) as [Heq | Hne]; cbn [negb].
    + rewrite IH'.
      assert (Hmail : String.eqb (wl_email r) (toLowerCase e) = false).
      { apply String.eqb_neq. apply Hother; [now left | exact Heq]. }
      now rewrite Hmail.
    + cbn [existsb]. now rewrite IH'.
  - intros Hfresh. exfalso. apply Hfresh.
    apply existsb_exists in Hid as [r [Hin Heq]].
    apply String.eqb_eq in Heq. apply in_map_iff. now exists r.
Qed.

Lemma DELETE_spares_others_witness :
  exists response db' allowed,
    EmailWhitelistIdRoute.DELETE
      (Some (mkSession (Some (mkSessionUser "u1" true)))) "id-1"
      (mkDb [mkEmailWhitelist "id-1" "guest@other.com" 0 None JNull;
             mkEmailWhitelist "id-2" "friend@other.com" 0 None JNull] [])
    = (Ok response, db') /\
    isEmailAllowed (mkAuthConfig []) "friend@other.com" db'
    = (Ok allowed, db') /\
    allowed = true.
Proof.
  destruct (DELETE_spares_others
              (mkAuthConfig [])
              (Some (mkSession (Some (mkSessionUser "u1" true))))
              "id-1" "friend@other.com"
              (mkDb [mkEmailWhitelist "id-1" "guest@other.com" 0 None JNull;
                     mkEmailWhitelist "id-2" "friend@other.com" 0 None JNull]
                    []))
    as [response [db' [allowed [Hrun [_ [Hbefore [Hafter _]]]]]]].
  - intros r [<- | [<- | []]] Hid; cbn in *; discriminate.
  - exists response, db', allowed. split; [exact Hrun|].
    split; [exact Hafter|]. cbn in Hbefore. now injection Hbefore as <-.
Defined.

(** Editing the notes of an entry changes nobody's access: whatever the
    request, the users are as before, the entries keep their ids and
    emails in their order, and every address is allowed afterwards exactly
    as it was before. *)
Theorem PATCH_notes_keeps_access
        (session : option Session) (req_json : Res js) (id : string)
        (db : Db) :
  exists response db',
    EmailWhitelistIdRoute.PATCH session req_json id db = (Ok response, db') /\
    users db' = users db /\
    map wl_id (email_whitelist db') = map wl_id (email_whitelist db) /\
    map wl_email (email_whitelist db') = map wl_email (email_whitelist db) /\
    forall cfg e, exists allowed,
      isEmailAllowed cfg e db = (Ok allowed, db) /\
      isEmailAllowed cfg e db' = (Ok allowed, db').
Proof.
  assert (Hsame : forall db', users db' = users db ->
             map wl_id (email_whitelist db') = map wl_id (email_whitelist db) /\
             map wl_email (email_whitelist db')
             = map wl_email (email_whitelist db) ->
             users db' = users db /\
             map wl_id (email_whitelist db') = map wl_id (email_whitelist db) /\
             map wl_email (email_whitelist db')
             = map wl_email (email_whitelist db) /\
             forall cfg e, exists allowed,
               isEmailAllowed cfg e db = (Ok allowed, db) /\
               isEmailAllowed cfg e db' = (Ok allowed, db')).
  { intros db' Husers [Hids Hmails]. repeat split; try assumption.
    intros cfg e. eexists. split; [apply isEmailAllowed_closed|].
    rewrite isEmailAllowed_closed. do 3 f_equal.
    assert (Hex : forall table,
               existsb (fun r => String.eqb (wl_email r) (toLowerCase e)) table
               = existsb (fun m => String.eqb m (toLowerCase e))
                         (map wl_email table)).
    { induction table as [|r rs IH]; cbn; [reflexivity | now rewrite IH]. }
    now rewrite !Hex, Hmails. }
  assert (Hupdate : forall notes,
             map wl_id
                 (map (fun r => if String.eqb (wl_id r) id
                                then EmailWhitelistIdRoute.with_notes notes r
                                else r) (email_whitelist db))
             = map wl_id (email_whitelist db) /\
             map wl_email
                 (map (fun r => if String.eqb (wl_id r) id
                                then EmailWhitelistIdRoute.with_notes notes r
                                else r) (email_whitelist db))
             = map wl_email (email_whitelist db)).
  { intros notes. rewrite !map_map. split; apply map_ext; intros r;
      now destruct (String.eqb (wl_id r) id). }
  unfold EmailWhitelistIdRoute.PATCH, try_catch.
  destruct (session_isAdmin session); cbn [negb];
    [|do 2 eexists; split; [reflexivity|]; now apply Hsame].
  unfold bind at 1. unfold lift at 1.
  destruct req_json as [parsed|err];
    [|do 2 eexists; split; [reflexivity|]; now apply Hsame].
  unfold bind at 1. unfold lift at 1.
  destruct (Js.destructure "body" "notes" parsed) as [notes|err];
    [|do 2 eexists; split; [reflexivity|]; now apply Hsame].
  unfold bind, EmailWhitelistIdRoute.update_notes.
  destruct (nth_error _ 0); do 2 eexists; (split; [reflexivity|]);
    apply Hsame; try reflexivity; apply Hupdate.
Qed.

(** An entry that was just added is taken back by deleting its id: after
    [POST] has stored a row under a fresh id, [DELETE] of that id by an
    admin answers success and the datastore is again what it was before
    the two requests. *)
Theorem POST_then_DELETE
        (msg : string -> string) (session : option Session)
        (admin : SessionUser) (req_json : Res js) (uuid : string) (now : Z)
        (response : Response) (db db1 : Db) :
  ~ In uuid (map wl_id (email_whitelist db)) ->
  su_isAdmin admin = true ->
  POST msg session req_json uuid now db = (Ok response, db1) ->
  db1 <> db ->
  EmailWhitelistIdRoute.DELETE (Some (mkSession (Some admin))) uuid db1
  = (Ok (mkResponse 200 success_json), db).
Proof.
  intros Hfresh Hadmin Hrun Hchanged.
  assert (Hrow : exists row, db1 = with_whitelist_row db row /\ wl_id row = uuid).
  { revert Hrun. unfold POST, try_catch.
    destruct session as [[[user|]]|];
      try (intros H; injection H as _ <-; now destruct Hchanged).
    destruct (su_isAdmin user); cbn [negb];
      [|intros H; injection H as _ <-; now destruct Hchanged].
    unfold bind at 1. unfold lift at 1.
    destruct req_json as [parsed|err];
      [|destruct (str_includes "unique" (message err));
        intros H; injection H as _ <-; now destruct Hchanged].
    unfold bind at 1. unfold lift at 1.
    destruct (Js.destructure "body" "email" parsed) as [email|err];
      [|destruct (str_includes "unique" (message err));
        intros H; injection H as _ <-; now destruct Hchanged].
    unfold bind at 1. unfold lift at 1.
    destruct (Js.destructure "body" "notes" parsed) as [notes|err];
      [|destruct (str_includes "unique" (message err));
        intros H; injection H as _ <-; now destruct Hchanged].
    destruct (Js.truthy email); cbn [negb];
      [|intros H; injection H as _ <-; now destruct Hchanged].
    destruct (test emailRegex (Js.toString email)); cbn [negb];
      [|intros H; injection H as _ <-; now destruct Hchanged].
    destruct email as [| |b|n|e|items|fields];
      try (intros H; injection H as _ <-; now destruct Hchanged).
    unfold bind, insert_whitelist.
    cbn [wl_id wl_email wl_createdBy references_user].
    destruct (existsb (fun r => String.eqb (wl_id r) uuid) (email_whitelist db));
      [destruct (str_includes "unique" _);
       intros H; injection H as _ <-; now destruct Hchanged|].
    destruct (existsb _ (email_whitelist db));
      [destruct (str_includes "unique" _);
       intros H; injection H as _ <-; now destruct Hchanged|].
    destruct (existsb _ (users db)); cbn [negb];
      [|destruct (str_includes "unique" _);
        intros H; injection H as _ <-; now destruct Hchanged].
    cbn [nth_error]. intros H. injection H as _ <-.
    eexists. split; reflexivity. }
  destruct Hrow as [row [-> Hid]].
  rewrite DELETE_cases. cbn [session_isAdmin]. rewrite Hadmin. cbn [negb].
  unfold with_whitelist_row. cbn [email_whitelist users].
  rewrite existsb_app. cbn [existsb]. rewrite Hid, String.eqb_refl.
  cbn [orb]. rewrite orb_true_r.
  rewrite filter_app. cbn [filter]. rewrite Hid, String.eqb_refl. cbn [negb].
  rewrite app_nil_r, filter_none, Db_eta; [reflexivity|].
  apply not_true_is_false. intros Hfound. apply Hfresh.
  apply existsb_exists in Hfound as [r [Hin Heq]].
  apply String.eqb_eq in Heq. apply in_map_iff. now exists r.
Qed.

Lemma POST_then_DELETE_witness :
  EmailWhitelistIdRoute.DELETE
    (Some (mkSession (Some (mkSessionUser "u1" true)))) "id-2"
    (mkDb [mkEmailWhitelist "id-1" "guest@other.com" 0 None JNull;
           mkEmailWhitelist "id-2" "friend@other.com" 5 (Some "u1") JNull]
          [mkUser "u1" None (Some "ann@example.com") None None true])
  = (Ok (mkResponse 200 success_json),
     mkDb [mkEmailWhitelist "id-1" "guest@other.com" 0 None JNull]
          [mkUser "u1" None (Some "ann@example.com") None None true]).
Proof.
  apply (POST_then_DELETE
           postgres_message
           (Some (mkSession (Some (mkSessionUser "u1" true))))
           (mkSessionUser "u1" true)
           (Ok (JObj [("email", JStr "Friend@Other.com")])) "id-2" 5%Z
           (mkResponse 200
              (row_json (mkEmailWhitelist "id-2" "friend@other.com" 5
                                          (Some "u1") JNull)))).
  - cbn. intros [H | []]. discriminate.
  - reflexivity.
  - reflexivity.
  - discriminate.
Defined.

(** [POST] never throws; it stores a row only for an admin session and a
    body whose [email] is a string of the format of an address, the row has
    the lowercase form of that string as its email and the given id, and
    the answer is then 200; every other answer, and every request of a
    session that is not an admin session, leaves the datastore as it is. *)
Theorem POST_writes_need_authority
        (msg : string -> string) (session : option Session)
        (req_json : Res js) (uuid : string) (now : Z) (db : Db) :
  exists response db',
    POST msg session req_json uuid now db = (Ok response, db') /\
    (session_isAdmin session = false ->
     response = mkResponse 401 (error_json "Unauthorized") /\ db' = db) /\
    (status response <> 200%Z -> db' = db) /\
    (db' <> db ->
     status response = 200%Z /\ session_isAdmin session = true /\
     exists parsed e row,
       req_json = Ok parsed /\
       Js.destructure "body" "email" parsed = Ok (JStr e) /\
       test emailRegex e = true /\
       db' = with_whitelist_row db row /\
       wl_id row = uuid /\ wl_email row = toLowerCase e).
Proof.
  assert (Hkeep : forall response,
             session_isAdmin session = true ->
             status response <> 200%Z ->
             (session_isAdmin session = false ->
              response = mkResponse 401 (error_json "Unauthorized") /\ db = db) /\
             (status response <> 200%Z -> db = db) /\
             (db <> db ->
              status response = 200%Z /\ session_isAdmin session = true /\
              exists parsed e row,
                req_json = Ok parsed /\
                Js.destructure "body" "email" parsed = Ok (JStr e) /\
                test emailRegex e = true /\
                db = with_whitelist_row db row /\
                wl_id row = uuid /\ wl_email row = toLowerCase e)).
  { intros response Hyes Hstatus. split; [intros Hno; congruence|].
    split; [reflexivity|]. intros Hne. now destruct Hne. }
  assert (Hfail : forall err,
             status (if str_includes "unique" (message err)
                     then NextResponse_json
                            (error_json "Email is already whitelisted")
                            (Some 409%Z)
                     else NextResponse_json
                            (error_json "Failed to add email to whitelist")
                            (Some 500%Z)) <> 200%Z).
  { intros err. now destruct (str_includes "unique" (message err)). }
  unfold POST, try_catch.
  destruct session as [[[user|]]|];
    try (do 2 eexists; split; [reflexivity|]; split; [now split|];
         split; [reflexivity|]; intros Hne; now destruct Hne).
  cbn [session_isAdmin] in *.
  destruct (su_isAdmin user) eqn:Hadmin; cbn [negb];
    [|do 2 eexists; split; [reflexivity|]; split; [now split|];
      split; [reflexivity|]; intros Hne; now destruct Hne].
  unfold bind at 1. unfold lift at 1.
  destruct req_json as [parsed|err].
  2:{ exists (if str_includes "unique" (message err)
              then NextResponse_json (error_json "Email is already whitelisted")
                                     (Some 409%Z)
              else NextResponse_json
                     (error_json "Failed to add email to whitelist")
                     (Some 500%Z)), db.
      split; [now destruct (str_includes "unique" (message err))|].
      now apply Hkeep. }
  unfold bind at 1. unfold lift at 1.
  destruct (Js.destructure "body" "email" parsed) as [email|err] eqn:Hemail.
  2:{ exists (if str_includes "unique" (message err)
              then NextResponse_json (error_json "Email is already whitelisted")
                                     (Some 409%Z)
              else NextResponse_json
                     (error_json "Failed to add email to whitelist")
                     (Some 500%Z)), db.
      split; [now destruct (str_includes "unique" (message err))|].
      now apply Hkeep. }
  unfold bind at 1. unfold lift at 1.
  destruct (Js.destructure "body" "notes" parsed) as [notes|err].
  2:{ exists (if str_includes "unique" (message err)
              then NextResponse_json (error_json "Email is already whitelisted")
                                     (Some 409%Z)
              else NextResponse_json
                     (error_json "Failed to add email to whitelist")
                     (Some 500%Z)), db.
      split; [now destruct (str_includes "unique" (message err))|].
      now apply Hkeep. }
  destruct (Js.truthy email); cbn [negb];
    [|do 2 eexists; split; [reflexivity|]; now apply Hkeep].
  destruct (test emailRegex (Js.toString email)) eqn:Hformat; cbn [negb];
    [|do 2 eexists; split; [reflexivity|]; now apply Hkeep].
  destruct email as [| |b|n|e|items|fields];
    try (do 2 eexists; split; [reflexivity|]; now apply Hkeep).
  unfold bind, insert_whitelist.
  cbn [wl_id wl_email wl_createdBy references_user].
  destruct (existsb (fun r => String.eqb (wl_id r) uuid) (email_whitelist db)).
  { exists (failure_response (unique_violation msg "email_whitelist_pkey")), db.
    unfold failure_response.
    split; [now destruct (str_includes "unique" _)|].
    apply Hkeep; [reflexivity | apply Hfail]. }
  destruct (existsb _ (email_whitelist db)).
  { exists (failure_response
              (unique_violation msg "email_whitelist_email_unique")), db.
    unfold failure_response.
    split; [now destruct (str_includes "unique" _)|].
    apply Hkeep; [reflexivity | apply Hfail]. }
  destruct (existsb _ (users db)); cbn [negb].
  2:{ exists (failure_response
                (foreign_key_violation
                   msg "email_whitelist_created_by_users_id_fk")), db.
      unfold failure_response.
      split; [now destruct (str_includes "unique" _)|].
      apply Hkeep; [reflexivity | apply Hfail]. }
  do 2 eexists. split; [reflexivity|].
  split; [discriminate|]. split; [intros Hne; now destruct Hne|].
  intros _. split; [reflexivity|]. split; [reflexivity|].
  exists parsed, e. eexists. repeat split; try reflexivity; try assumption.
  cbn [wl_email]. now apply EmailWhitelistSpec.emailRegex_trim.
Qed.

End WhitelistAccess.

(** ** The derivative matcher decides the language *)

Module RegexLangFacts.
Import Regex RegexLang.

Lemma append_empty_r (s : string) : s ++ "" = s.
Proof. induction s as [|c s IH]; cbn; [reflexivity | now rewrite IH]. Qed.

Lemma append_is_empty (s t : string) :
  s ++ t = EmptyString -> s = EmptyString /\ t = EmptyString.
Proof. destruct s; cbn; [now split | discriminate]. Qed.

Lemma cat_inv (a b : re) (w : string) :
  matches (Cat a b) w ->
  exists u t, w = u ++ t /\ matches a u /\ matches b t.
Proof.
  intros H. inversion H; subst. do 2 eexists. repeat split; eassumption.
Qed.

Lemma nullable_matches (r : re) :
  nullable r = true <-> matches r EmptyString.
Proof.
  induction r as [| |p|a IHa b IHb|a IHa b IHb|a IHa]; cbn.
  - split; [discriminate | intros H; inversion H].
  - split; [constructor | reflexivity].
  - split; [discriminate | intros H; inversion H].
  - rewrite andb_true_iff, IHa, IHb. split.
    + intros [Ha Hb]. exact (matches_cat a b "" "" Ha Hb).
    + intros H. apply cat_inv in H as [u [t [Heq [Hu Ht]]]].
      symmetry in Heq. apply append_is_empty in Heq as [-> ->]. now split.
  - rewrite orb_true_iff, IHa, IHb. split.
    + intros [Ha | Hb]; [now apply matches_alt_l | now apply matches_alt_r].
    + intros H. inversion H; subst; [now left | now right].
  - split; [constructor | reflexivity].
Qed.

(** A match of a starred expression that starts with [c] starts with a
    match of the expression that starts with [c]. *)
Lemma star_head (a : re) (c : ascii) (s : string) :
  matches (Star a) (String c s) ->
  exists s1 s2,
    s = s1 ++ s2 /\ matches a (String c s1) /\ matches (Star a) s2.
Proof.
  intros H. remember (Star a) as r eqn:Hr. remember (String c s) as w eqn:Hw.
  revert Hr Hw.
  induction H as [| | | | | |a' u t Hu _ Ht IHt]; intros Hr Hw;
    try discriminate.
  injection Hr as ->. destruct u as [|d u]; cbn in Hw.
  - now apply IHt.
  - injection Hw as -> <-. now exists u, t.
Qed.

Lemma deriv_matches (r : re) :
  forall c s, matches (deriv c r) s <-> matches r (String c s).
Proof.
  induction r as [| |p|a IHa b IHb|a IHa b IHb|a IHa]; intros c s; cbn.
  - split; intros H; inversion H.
  - split; intros H; inversion H.
  - destruct (p c) eqn:Hp; split; intros H.
    + inversion H; subst. now constructor.
    + inversion H; subst. constructor.
    + inversion H.
    + inversion H; subst. congruence.
  - assert (Hcat : matches (Cat (deriv c a) b) s ->
                   matches (Cat a b) (String c s)).
    { intros H. apply cat_inv in H as [u [t [-> [Hu Ht]]]].
      apply IHa in Hu.
      exact (matches_cat a b (String c u) t Hu Ht). }
    assert (Hsplit : matches (Cat a b) (String c s) ->
                     matches (Cat (deriv c a) b) s \/
                     (matches a EmptyString /\ matches b (String c s))).
    { intros H. apply cat_inv in H as [u [t [Heq [Hu Ht]]]].
      destruct u as [|d u]; cbn in Heq.
      - right. subst. now split.
      - injection Heq as <- ->. left. apply matches_cat; [|assumption].
        now apply IHa. }
    destruct (nullable a) eqn:Hna; split; intros H.
    + inversion H; subst; [now apply Hcat|].
      apply nullable_matches in Hna.
      apply (matches_cat a b "" (String c s)); [assumption|]. now apply IHb.
    + destruct (Hsplit H) as [Hl | [_ Hr]].
      * now apply matches_alt_l.
      * apply matches_alt_r. now apply IHb.
    + now apply Hcat.
    + destruct (Hsplit H) as [Hl | [Hempty _]]; [assumption|].
      apply nullable_matches in Hempty. congruence.
  - split; intros H; inversion H; subst.
    + apply matches_alt_l. now apply IHa.
    + apply matches_alt_r. now apply IHb.
    + apply matches_alt_l. now apply IHa.
    + apply matches_alt_r. now apply IHb.
  - split; intros H.
    + apply cat_inv in H as [u [t [-> [Hu Ht]]]].
      apply IHa in Hu.
      exact (matches_star_cons a (String c u) t Hu Ht).
    + destruct (star_head a c s H) as [s1 [s2 [-> [H1 H2]]]].
      apply matches_cat; [|assumption]. now apply IHa.
Qed.

(** [test] accepts exactly the strings of the language. *)
Lemma test_matches (s : string) : forall r, test r s = true <-> matches r s.
Proof.
  induction s as [|c s IH]; intros r; cbn.
  - apply nullable_matches.
  - rewrite IH. apply deriv_matches.
Qed.

End RegexLangFacts.

(** ** The format of an address *)

Module EmailFormat.
Import Regex RegexLang RegexLangFacts EmailWhitelistRoute.

Lemma class_inv (p : ascii -> bool) (w : string) :
  matches (Class p) w -> exists c, w = String c EmptyString /\ p c = true.
Proof. intros H. inversion H; subst. now eexists. Qed.

Lemma star_class (p : ascii -> bool) (s : string) :
  matches (Star (Class p)) s <->
  Forall (fun c => p c = true) (list_ascii_of_string s).
Proof.
  split.
  - intros H. remember (Star (Class p)) as r eqn:Hr. revert Hr.
    induction H as [| | | | | |a u t Hu _ Ht IHt]; intros Hr;
      try discriminate.
    + constructor.
    + injection Hr as ->. apply class_inv in Hu as [c [-> Hc]]. cbn.
      constructor; [assumption | now apply IHt].
  - induction s as [|c s IH]; cbn; intros H.
    + constructor.
    + inversion H; subst.
      apply (matches_star_cons (Class p) (String c EmptyString) s);
        [now constructor | now apply IH].
Qed.

Lemma plus_class (p : ascii -> bool) (s : string) :
  matches (Plus (Class p)) s <->
  s <> EmptyString /\ Forall (fun c => p c = true) (list_ascii_of_string s).
Proof.
  unfold Plus. split.
  - intros H. apply cat_inv in H as [u [t [-> [Hu Ht]]]].
    apply class_inv in Hu as [c [-> Hc]]. apply star_class in Ht. cbn.
    split; [discriminate | now constructor].
  - intros [Hne H]. destruct s as [|c s]; [contradiction|].
    cbn in H. inversion H; subst.
    apply (matches_cat (Class p) (Star (Class p)) (String c EmptyString) s);
      [now constructor | now apply star_class].
Qed.

Lemma chr_inv (c : ascii) (w : string) :
  matches (Chr c) w <-> w = String c EmptyString.
Proof.
  unfold Chr. split.
  - intros H. apply class_inv in H as [d [-> Hd]].
    apply Ascii.eqb_eq in Hd. now subst.
  - intros ->. constructor. apply Ascii.eqb_refl.
Qed.

(** A string that passes the format check splits into three plain
    parts. *)
Lemma emailRegex_split (e : string) :
  test emailRegex e = true ->
  exists name host ending,
    e = name ++ "@" ++ host ++ "." ++ ending /\
    plain name /\ plain host /\ plain ending.
Proof.
  rewrite test_matches. unfold emailRegex, plain. intros H.
  apply cat_inv in H as [name [r1 [-> [Hname H]]]].
  apply cat_inv in H as [at_ [r2 [-> [Hat H]]]].
  apply cat_inv in H as [host [r3 [-> [Hhost H]]]].
  apply cat_inv in H as [dot [ending [-> [Hdot Hending]]]].
  apply chr_inv in Hat, Hdot. subst.
  apply plus_class in Hname, Hhost, Hending.
  now exists name, host, ending.
Qed.

(** Three plain parts put together pass the format check. *)
Lemma emailRegex_join (name host ending : string) :
  plain name -> plain host -> plain ending ->
  test emailRegex (name ++ "@" ++ host ++ "." ++ ending) = true.
Proof.
  rewrite test_matches. unfold emailRegex, plain.
  intros Hname Hhost Hending.
  apply plus_class in Hname, Hhost, Hending.
  apply matches_cat; [assumption|].
  apply (matches_cat (Chr "@") _ "@"); [now apply chr_inv|].
  apply matches_cat; [assumption|].
  apply (matches_cat (Chr ".") _ "."); [now apply chr_inv | assumption].
Qed.

(** The addresses that the format check of [POST] accepts are exactly
    those made of a name, an [@], a host, a dot and an ending, where the
    three parts are non-empty and have no white space and no [@]. *)
Theorem emailRegex_shape (e : string) :
  test emailRegex e = true <->
  exists name host ending,
    e = name ++ "@" ++ host ++ "." ++ ending /\
    plain name /\ plain host /\ plain ending.
Proof.
  split.
  - apply emailRegex_split.
  - intros [name [host [ending [-> [Hname [Hhost Hending]]]]]].
    now apply emailRegex_join.
Qed.

Lemma chars_append (a b : string) :
  list_ascii_of_string (a ++ b)
  = (list_ascii_of_string a ++ list_ascii_of_string b)%list.
Proof. induction a as [|c a IH]; cbn; [reflexivity | now rewrite IH]. Qed.

Lemma plain_no_at (s : string) :
  plain s -> ~ In "@"%char (list_ascii_of_string s).
Proof.
  intros [_ Hall] Hin. rewrite Forall_forall in Hall.
  specialize (Hall _ Hin). discriminate.
Qed.

(** An address that the format check accepts has one [@]: it is a
    non-empty name, the [@], and a domain without [@] that holds a dot, and
    that domain is the one [isEmailAllowed] and [createUser] compare with
    the allowed domains. *)
Theorem accepted_address_domain (e : string) :
  test emailRegex e = true ->
  exists name domain,
    e = name ++ "@" ++ domain /\
    name <> EmptyString /\
    ~ In "@"%char (list_ascii_of_string name) /\
    ~ In "@"%char (list_ascii_of_string domain) /\
    In "."%char (list_ascii_of_string domain) /\
    Auth.emailDomain e = Some domain.
Proof.
  intros Hformat.
  apply emailRegex_split in Hformat
    as [name [host [ending [-> [Hname [Hhost Hending]]]]]].
  exists name, (host ++ "." ++ ending).
  assert (Hdomain : ~ In "@"%char
                      (list_ascii_of_string (host ++ "." ++ ending))).
  { rewrite !chars_append. cbn. rewrite !in_app_iff. cbn.
    intros [H | [H | H]].
    - now apply (plain_no_at host).
    - discriminate.
    - now apply (plain_no_at ending). }
  split; [reflexivity|]. split; [apply Hname|].
  split; [now apply plain_no_at|]. split; [exact Hdomain|]. split.
  - rewrite !chars_append. cbn. rewrite !in_app_iff. cbn. tauto.
  - apply AuthSpec.emailDomain_after_at; [now apply plain_no_at | exact Hdomain].
Qed.

Lemma accepted_address_domain_witness :
  exists name domain,
    "a.b@mail.example.org" = name ++ "@" ++ domain /\
    Auth.emailDomain "a.b@mail.example.org" = Some domain.
Proof.
  destruct (accepted_address_domain "a.b@mail.example.org" eq_refl)
    as [name [domain [Heq [_ [_ [_ [_ Hdomain]]]]]]].
  now exists name, domain.
Defined.

End EmailFormat.

(** ** The account handler *)

Module AccountSpec.
Import AccountRoute.

Lemma kept_refl (id : string) (us : list User) :
  Forall2 (kept_but_profile id) us us.
Proof.
  induction us as [|u us IH]; constructor; [|exact IH].
  unfold kept_but_profile. now repeat split.
Qed.

Lemma update_profile_kept (set_nothing : Res unit) (name image : option string)
      (id : string) (db : Db) :
  exists outcome db',
    update_profile set_nothing name image id db = (outcome, db') /\
    email_whitelist db' = email_whitelist db /\
    Forall2 (kept_but_profile id) (users db) (users db').
Proof.
  assert (Hmap : forall name image,
             Forall2 (kept_but_profile id) (users db)
               (map (fun u =>
                       if String.eqb (user_id u) id
                       then {| user_id := user_id u;
                               user_name := match name with
                                            | Some n => Some n
                                            | None => user_name u
                                            end;
                               user_email := user_email u;
                               user_emailVerified := user_emailVerified u;
                               user_image := match image with
                                             | Some i => Some i
                                             | None => user_image u
                                             end;
                               user_isAdmin := user_isAdmin u |}
                       else u) (users db))).
  { intros n i. induction (users db) as [|u us IH]; cbn [map]; constructor;
      [|exact IH].
    unfold kept_but_profile.
    destruct (String.eqb_spec (user_id u) id) as [Heq | Hne]; cbn;
      repeat split; try reflexivity; try contradiction;
      intros Hne; contradiction. }
  unfold update_profile.
  destruct name as [n|], image as [i|]; do 2 eexists;
    (split; [reflexivity|]); (split; [reflexivity|]).
  - apply (Hmap (Some n) (Some i)).
  - apply (Hmap (Some n) None).
  - apply (Hmap None (Some i)).
  - apply kept_refl.
Qed.

(** The account handler cannot be used to gain rights or to touch
    another account: whatever the request and whatever an update that sets
    nothing does, the handler does not throw, leaves the whitelist table
    alone, keeps every user's id, email, verification date and admin flag,
    keeps the name and image of every user other than the one of the
    session, and changes nothing unless it answers 200. *)
Theorem account_PATCH_frame
        (set_nothing : Res unit) (session : option Session)
        (req_json : Res js) (db : Db) :
  exists response db',
    PATCH set_nothing session req_json db = (Ok response, db') /\
    email_whitelist db' = email_whitelist db /\
    Forall2 (kept_but_profile (session_userId session)) (users db) (users db')
    /\
    (status response <> 200%Z -> db' = db).
Proof.
  unfold PATCH.
  destruct session as [[[actor|]]|];
    try (do 2 eexists; split; [reflexivity|]; split; [reflexivity|];
         split; [apply kept_refl | reflexivity]).
  cbn [session_userId].
  destruct (JsString.truthy (su_id actor)); cbn [negb];
    [|do 2 eexists; split; [reflexivity|]; split; [reflexivity|];
      split; [apply kept_refl | reflexivity]].
  unfold try_catch. unfold bind at 1. unfold lift at 1.
  destruct req_json as [parsed|err];
    [|do 2 eexists; split; [reflexivity|]; split; [reflexivity|];
      split; [apply kept_refl | reflexivity]].
  unfold bind at 1. unfold lift at 1.
  destruct (Js.destructure _ "name" parsed) as [name|err];
    [|do 2 eexists; split; [reflexivity|]; split; [reflexivity|];
      split; [apply kept_refl | reflexivity]].
  unfold bind at 1. unfold lift at 1.
  destruct (Js.destructure _ "image" parsed) as [image|err];
    [|do 2 eexists; split; [reflexivity|]; split; [reflexivity|];
      split; [apply kept_refl | reflexivity]].
  destruct (text_field name) as [name'|];
    [|do 2 eexists; split; [reflexivity|]; split; [reflexivity|];
      split; [apply kept_refl | reflexivity]].
  destruct (text_field image) as [image'|];
    [|do 2 eexists; split; [reflexivity|]; split; [reflexivity|];
      split; [apply kept_refl | reflexivity]].
  unfold bind.
  destruct (update_profile_kept set_nothing name' image' (su_id actor) db)
    as [outcome [db' [Hrun [Hwl Husers]]]].
  rewrite Hrun. destruct outcome as [[]|err].
  - do 2 eexists. split; [reflexivity|]. split; [exact Hwl|].
    split; [exact Husers|]. intros Hne. now destruct Hne.
  - assert (db' = db) as ->.
    { revert Hrun. unfold update_profile.
      destruct name', image'; intros H; try discriminate.
      now injection H as _ <-. }
    do 2 eexists. split; [reflexivity|]. split; [reflexivity|].
    split; [apply kept_refl | reflexivity].
Qed.

(** A request that gives a name or an image (or both) as strings stores
    what is given on the rows of the session user and leaves the field
    that is not given as it was. *)
Theorem account_PATCH_applies
        (set_nothing : Res unit) (actor : SessionUser)
        (fields : list (string * js)) (name image : option string) (db : Db) :
  su_id actor <> EmptyString ->
  text_field (Js.get "name" fields) = Some name ->
  text_field (Js.get "image" fields) = Some image ->
  name <> None \/ image <> None ->
  exists db',
    PATCH set_nothing (Some (mkSession (Some actor))) (Ok (JObj fields)) db
    = (Ok (mkResponse 200 success_json), db') /\
    Forall2 (fun old new =>
               user_id old = su_id actor -> profile_set name image old new)
            (users db) (users db').
Proof.
  intros Hid Hname Himage Hgiven. unfold PATCH.
  destruct (su_id actor) as [|c rest] eqn:Hactor; [contradiction|].
  cbn [JsString.truthy negb].
  unfold try_catch, bind, lift, Js.destructure. rewrite Hname, Himage.
  assert (Hrun : exists db',
             update_profile set_nothing name image (String c rest) db
             = (Ok tt, db') /\
             Forall2 (fun old new =>
                        user_id old = String c rest ->
                        profile_set name image old new)
                     (users db) (users db')).
  { unfold update_profile.
    destruct name as [n|], image as [i|];
      try (destruct Hgiven as [H | H]; now destruct H);
      eexists; (split; [reflexivity|]); cbn [users];
      (induction (users db) as [|u us IH]; cbn [map]; constructor;
       [|exact IH]);
      intros Hu; apply String.eqb_eq in Hu; rewrite Hu;
      unfold profile_set; cbn; now split. }
  destruct Hrun as [db' [-> Hset]]. now exists db'.
Qed.

Lemma account_PATCH_applies_witness :
  exists db',
    PATCH (Throw (mkError "No values to set"))
          (Some (mkSession (Some (mkSessionUser "u2" false))))
          (Ok (JObj [("name", JStr "Ann")]))
          (mkDb [] [mkUser "u1" None None None None true;
                    mkUser "u2" (Some "A") None None (Some "pic") false])
    = (Ok (mkResponse 200 success_json), db') /\
    Forall2 (fun old new =>
               user_id old = "u2" -> profile_set (Some "Ann") None old new)
            [mkUser "u1" None None None None true;
             mkUser "u2" (Some "A") None None (Some "pic") false]
            (users db').
Proof.
  apply (account_PATCH_applies
           (Throw (mkError "No values to set")) (mkSessionUser "u2" false)
           [("name", JStr "Ann")] (Some "Ann") None).
  - discriminate.
  - reflexivity.
  - reflexivity.
  - left. discriminate.
Defined.

End AccountSpec.

(** ** The pages of the admin area *)

Module AdminPages.
Import JsString Regex RegexLang EmailWhitelistRoute Middleware Client.

(** The admin area follows the datastore: a visitor without a session is
    sent to the sign-in page from every path that starts with [/admin],
    and a visitor whose session the [session] callback built is let
    through exactly when the row of the user has the admin flag, and is
    sent to the home page otherwise. *)
Theorem admin_pages_need_flag
        (s : SessionUser) (uid pathname : string) (db : Db) :
  String.prefix "/admin" pathname = true ->
  middleware None pathname = Redirect "/auth/signin" /\
  exists auth,
    AuthSession.session (Some (mkSession (Some s))) uid db = (Ok auth, db) /\
    (middleware auth pathname = Next <->
     exists u, AuthSession.find_user uid db = Some u /\ user_isAdmin u = true)
    /\
    (middleware auth pathname <> Next -> middleware auth pathname = Redirect "/").
Proof.
  intros Hpath. unfold middleware. rewrite Hpath. split; [reflexivity|].
  eexists. split; [apply SessionSpec.session_flag|].
  cbn [session_isAdmin su_isAdmin].
  destruct (AuthSession.find_user uid db) as [u|].
  - destruct (user_isAdmin u) eqn:Hflag; cbn [negb]; split.
    + split; [intros _; now exists u | reflexivity].
    + intros Hne. now destruct Hne.
    + split; [discriminate|]. intros [u' [Hu' Hflag']].
      injection Hu' as <-. congruence.
    + reflexivity.
  - cbn [negb]. split; [|reflexivity].
    split; [discriminate|]. intros [u [Hu _]]. discriminate.
Qed.

Lemma admin_pages_need_flag_witness :
  middleware None "/admin/users" = Redirect "/auth/signin" /\
  exists auth,
    AuthSession.session (Some (mkSession (Some (mkSessionUser "" false))))
                        "u2"
                        (mkDb [] [mkUser "u2" None None None None false])
    = (Ok auth, mkDb [] [mkUser "u2" None None None None false]) /\
    middleware auth "/admin/users" = Redirect "/".
Proof.
  destruct (admin_pages_need_flag
              (mkSessionUser "" false) "u2" "/admin/users"
              (mkDb [] [mkUser "u2" None None None None false]) eq_refl)
    as [Hnone [auth [Hrun [_ Hredirect]]]].
  split; [exact Hnone|]. exists auth. split; [exact Hrun|].
  apply Hredirect. cbn in Hrun. injection Hrun as <-. discriminate.
Defined.

(** The users table shows what the datastore holds: when the list on the
    page is the list of users of the datastore in some order, it still is
    after [toggleAdmin], whether the request is granted or refused. *)
Theorem toggleAdmin_mirrors_datastore
        (session : option Session) (view : list User) (userId : string)
        (isAdmin : bool) (db : Db) :
  Permutation view (users db) ->
  exists view' db',
    toggleAdmin session view userId isAdmin db = (Ok view', db') /\
    Permutation view' (users db').
Proof.
  intros Hsame. unfold toggleAdmin, bind.
  destruct (AdminUsersFrame.PATCH_effect
              session (Ok (JObj [("isAdmin", JBool isAdmin)])) userId db)
    as [response [db' [Hrun Hcases]]].
  rewrite Hrun.
  destruct Hcases as [[Hstatus ->] | [-> [admin [b [parsed Hok]]]]].
  - assert (Hrefused : ok response = false).
    { destruct (AdminUsersFrame.PATCH_statuses
                  session (Ok (JObj [("isAdmin", JBool isAdmin)])) userId db)
        as [response' [db' [Hrun' Hin]]].
      rewrite Hrun in Hrun'. injection Hrun' as <- <-.
      unfold ok. cbn in Hin.
      destruct Hin as [H | [H | [H | [H | []]]]]; rewrite <- H in *;
        [now destruct Hstatus | reflexivity | reflexivity | reflexivity]. }
    rewrite Hrefused. cbn [negb]. now exists view, db.
  - cbn [ok status negb Z.leb Z.compare Pos.compare Pos.compare_cont andb].
    destruct Hok as [_ [_ [Hparsed [Hvalue [_ Hupdate]]]]].
    injection Hparsed as <-. cbn in Hvalue. injection Hvalue as <-.
    unfold AdminUsersRoute.update_isAdmin in Hupdate.
    injection Hupdate as <-. do 2 eexists. split; [reflexivity|].
    cbn [users]. now apply Permutation_map.
Qed.

Lemma toggleAdmin_mirrors_datastore_witness :
  let ann := {| user_id := "u1"; user_name := None;
                user_email := Some "ann@example.com";
                user_emailVerified := None; user_image := None;
                user_isAdmin := true |} in
  let bob := {| user_id := "u2"; user_name := None;
                user_email := Some "bob@example.com";
                user_emailVerified := None; user_image := None;
                user_isAdmin := false |} in
  let db := {| email_whitelist := []; users := [ann; bob] |} in
  let admin := Some (mkSession (Some {| su_id := "u1"; su_isAdmin := true |})) in
  Permutation [bob; ann] (users db) /\
  exists view' db',
    toggleAdmin admin [bob; ann] "u2" true db = (Ok view', db') /\
    Permutation view' (users db').
Proof.
  cbn zeta. split; [apply perm_swap|].
  apply toggleAdmin_mirrors_datastore. apply perm_swap.
Defined.

Lemma toLowerCase_append (a b : string) :
  toLowerCase (a ++ b) = toLowerCase a ++ toLowerCase b.
Proof.
  induction a as [|c a IH]; cbn; [reflexivity | now rewrite IH].
Qed.

Lemma not_space_at_lower (c : ascii) :
  not_space_at (lower_char c) = not_space_at c.
Proof. destruct c as [[] [] [] [] [] [] [] []]; reflexivity. Qed.

Lemma plain_lower (s : string) : plain s -> plain (toLowerCase s).
Proof.
  intros [Hne Hall]. split.
  - destruct s; [contradiction | discriminate].
  - clear Hne. induction s as [|c s IH]; cbn in *; [constructor|].
    inversion Hall; subst. constructor; [|now apply IH].
    now rewrite not_space_at_lower.
Qed.

Lemma prefix_append (n b : string) : String.prefix n (n ++ b) = true.
Proof.
  induction n as [|c n IH]; cbn; [now destruct b|].
  destruct (ascii_dec c c) as [_ | Hne]; [exact IH | now destruct Hne].
Qed.

Lemma str_includes_middle (n a b : string) :
  str_includes n (a ++ n ++ b) = true.
Proof.
  induction a as [|c a IH].
  - cbn [append]. destruct (n ++ b) eqn:Hnb; cbn [str_includes];
      rewrite <- Hnb, prefix_append; reflexivity.
  - cbn [append str_includes]. rewrite IH. apply orb_true_r.
Qed.

(** The check that [addEmail] of the whitelist manager makes itself, on
    the text it is called with, does not stand in the way of an address
    the handler accepts: for every text that has the format of an address
    [addEmail] sends a request, the lowercase text it sends has the format
    too, and the handler answers it, and stores, exactly as it would for
    the text as typed.  What the browser accepts in the input field before
    it calls [addEmail] is not part of this. *)
Theorem addEmail_agrees_with_POST (e : string) :
  test emailRegex e = true ->
  addEmail e = Some (JObj [("email", JStr (toLowerCase e))]) /\
  test emailRegex (toLowerCase e) = true /\
  forall msg admin uuid now db,
    su_isAdmin admin = true ->
    POST msg (Some (mkSession (Some admin)))
         (Ok (JObj [("email", JStr (toLowerCase e))])) uuid now db
    = POST msg (Some (mkSession (Some admin)))
           (Ok (JObj [("email", JStr e)])) uuid now db.
Proof.
  intros Hformat.
  pose proof (EmailFormat.emailRegex_split e Hformat)
    as [name [host [ending [-> [Hname [Hhost Hending]]]]]].
  assert (Hlower : test emailRegex
                     (toLowerCase (name ++ "@" ++ host ++ "." ++ ending))
                   = true).
  { rewrite !toLowerCase_append.
    apply (EmailFormat.emailRegex_join
             (toLowerCase name) (toLowerCase host) (toLowerCase ending));
      now apply plain_lower. }
  assert (Htruthy : truthy (name ++ "@" ++ host ++ "." ++ ending) = true).
  { destruct Hname as [Hne _]. destruct name; [contradiction | reflexivity]. }
  split; [|split; [exact Hlower|]].
  - unfold addEmail. rewrite Htruthy, str_includes_middle. reflexivity.
  - intros msg admin uuid now db Hadmin.
    rewrite (EmailWhitelistSpec.POST_string_email
               msg admin
               [("email",
                 JStr (toLowerCase (name ++ "@" ++ host ++ "." ++ ending)))]
               (toLowerCase (name ++ "@" ++ host ++ "." ++ ending))
               uuid now db Hadmin eq_refl).
    rewrite (EmailWhitelistSpec.POST_string_email
               msg admin
               [("email", JStr (name ++ "@" ++ host ++ "." ++ ending))]
               (name ++ "@" ++ host ++ "." ++ ending)
               uuid now db Hadmin eq_refl).
    rewrite Hlower, Hformat, Htruthy, JsStringFacts.toLowerCase_idem.
    assert (Htruthy' : truthy (toLowerCase
                                 (name ++ "@" ++ host ++ "." ++ ending))
                       = true).
    { destruct Hname as [Hne _]. destruct name; [contradiction | reflexivity]. }
    rewrite Htruthy'. reflexivity.
Qed.

Lemma addEmail_agrees_with_POST_witness :
  addEmail "User@Example.com"
  = Some (JObj [("email", JStr (toLowerCase "User@Example.com"))]) /\
  test emailRegex (toLowerCase "User@Example.com") = true.
Proof.
  destruct (addEmail_agrees_with_POST "User@Example.com" eq_refl)
    as [Hsent [Hformat _]].
  now split.
Defined.

Lemma filter_rearranged {A} (keep : A -> bool) (page table : list A) :
  Permutation page table ->
  Permutation (filter keep page) (filter keep table).
Proof.
  intros Hsame.
  induction Hsame as [|row page table _ IH|first second page|page mid table _ IH1 _ IH2];
    cbn [filter].
  - constructor.
  - destruct (keep row); [now constructor | exact IH].
  - destruct (keep first), (keep second);
      try apply perm_swap; apply Permutation_refl.
  - now apply Permutation_trans with (filter keep mid).
Qed.

(** The whitelist manager shows what the datastore holds: when the
    entries on the page are the rows of the table in some order, they
    still are after [deleteEmail], whether the request removes a row, finds
    none or is refused. *)
Theorem deleteEmail_mirrors_datastore
        (session : option Session) (entries : list EmailWhitelist)
        (id : string) (db : Db) :
  Permutation entries (email_whitelist db) ->
  exists entries' db',
    deleteEmail session entries id db = (Ok entries', db') /\
    Permutation entries' (email_whitelist db').
Proof.
  intros Hsame. unfold deleteEmail, bind.
  rewrite WhitelistAccess.DELETE_cases.
  destruct (session_isAdmin session); cbn [negb].
  - destruct (existsb _ (email_whitelist db)).
    + do 2 eexists. split; [reflexivity|].
      cbn [email_whitelist]. now apply filter_rearranged.
    + now exists entries, db.
  - now exists entries, db.
Qed.

Lemma deleteEmail_mirrors_datastore_witness :
  let row := {| wl_id := "w1"; wl_email := "ann@example.com";
                wl_createdAt := 0%Z; wl_createdBy := None;
                wl_notes := JNull |} in
  let db := {| email_whitelist := [row]; users := [] |} in
  let admin := Some (mkSession (Some {| su_id := "u1"; su_isAdmin := true |})) in
  Permutation [row] (email_whitelist db) /\
  exists entries' db',
    deleteEmail admin [row] "w1" db = (Ok entries', db') /\
    Permutation entries' (email_whitelist db').
Proof.
  cbn zeta. split; [apply Permutation_refl|].
  apply deleteEmail_mirrors_datastore. apply Permutation_refl.
Defined.

End AdminPages.

(** ** How long a run waits, and what a larger budget changes *)

Module RetryMeasures.
Import Number Llm LlmMeasures.

Lemma sum_app (l1 l2 : list Z) :
  fold_right Z.add 0%Z (l1 ++ l2)
  = (fold_right Z.add 0 l1 + fold_right Z.add 0 l2)%Z.
Proof. induction l1 as [|x l1 IH]; cbn [app fold_right]; lia. Qed.

(** 1000 + 2000 + ... + 1000 r. *)
Lemma sum_waits (r : nat) :
  fold_right Z.add 0%Z
             (map (fun j => (1000 * (Z.of_nat j + 1))%Z) (seq 0 r))
  = (500 * Z.of_nat r * (Z.of_nat r + 1))%Z.
Proof.
  induction r as [|r IH]; [reflexivity|].
  rewrite seq_S, map_app, sum_app, IH. cbn [map fold_right Nat.add]. lia.
Qed.

Section Run.
Variable JSON_parse : string -> Res js.
Variable JSON_stringify : js -> string.
Variable zod_parse : ZodType -> js -> Res js.
Variable create : nat -> ChatRequest -> Res (option string).
Variable decimal : Q -> string.

Local Abbreviation run :=
  (answerStructured JSON_parse JSON_stringify zod_parse create decimal).

(** The time a run spends waiting.  A run that ends inside the loop
    after [n] requests has waited 1000 + 2000 + ... + 1000 (n - 1)
    = 500 (n - 1) n milliseconds; a run that ends by the [throw] after
    the loop has waited after its last request too, 500 n (n + 1) in all.
    Under a finite [maxRetries] every run ends, and has waited at most
    500 N (N + 1) with [N] the value of [maxRetries] rounded up; under a
    whole [maxRetries] of at least 1 it has waited at most
    500 (maxRetries - 1) maxRetries. *)
Theorem answerStructured_total_wait (options : AnswerStructuredOptions) :
  (forall fuel exit trace,
     run options fuel = Some (exit, trace) ->
     total_wait trace
     = (let n := Z.of_nat (length (requests trace)) in
        match exit with
        | ThrownAfterLoop _ => 500 * n * (n + 1)
        | _ => 500 * (n - 1) * n
        end)%Z /\
     (0 <= total_wait trace)%Z) /\
  (forall q fuel,
     maxRetries_ options = Finite q ->
     (Z.to_nat (Qceiling q) < fuel)%nat ->
     exists exit trace,
       run options fuel = Some (exit, trace) /\
       (total_wait trace
        <= 500 * Z.max 0 (Qceiling q) * (Z.max 0 (Qceiling q) + 1))%Z) /\
  (forall M fuel exit trace,
     to_integer (maxRetries_ options) = Some M -> (1 <= M)%Z ->
     run options fuel = Some (exit, trace) ->
     (total_wait trace <= 500 * (M - 1) * M)%Z).
Proof.
  split; [|split].
  - intros fuel exit trace Hrun.
    destruct (RetrySpec.run_shape
                JSON_parse JSON_stringify zod_parse create decimal options
                fuel exit trace Hrun)
      as [n [_ [_ [Hwaits Hcount]]]].
    unfold total_wait. rewrite Hwaits, sum_waits. cbn zeta.
    destruct Hcount as [[_ [-> Hin]] | [_ [-> [e ->]]]].
    + split; [|lia]. destruct exit as [v|e|e]; try lia.
      now destruct (Hin e).
    + split; lia.
  - intros q fuel Hq Hfuel.
    destruct (RetrySpec.run_finite
                JSON_parse JSON_stringify zod_parse create decimal options
                q fuel Hq Hfuel) as [n [Hn [Hgo [Hstop Hrun]]]].
    rewrite Hrun. do 2 eexists. split; [apply f_equal, surjective_pairing|].
    destruct (RetrySpec.stop_at_counts
                JSON_parse JSON_stringify zod_parse create decimal options n)
      as [_ [Hwaits _]].
    cbn zeta in Hwaits. unfold total_wait. rewrite Hwaits, sum_waits. nia.
  - intros M fuel exit trace HM Hone Hrun.
    destruct (RetrySpec.run_shape
                JSON_parse JSON_stringify zod_parse create decimal options
                fuel exit trace Hrun)
      as [n [Hgo [_ [Hwaits _]]]].
    unfold total_wait. rewrite Hwaits, sum_waits.
    destruct (RetrySpec.whole_stop
                JSON_parse JSON_stringify zod_parse create options M n HM Hgo)
      as [Hlt | [-> _]]; nia.
Qed.

Lemma tryAttempt_budget (options : AnswerStructuredOptions) (m : number)
      (attempt : Z) :
  tryAttempt JSON_parse JSON_stringify zod_parse create
             (with_maxRetries options m) attempt
  = tryAttempt JSON_parse JSON_stringify zod_parse create options attempt.
Proof. reflexivity. Qed.

(** A larger budget does not change a success: a run that returns a value
    returns the same value, after the same requests and waits, under every
    [maxRetries] that is at least as large, whole or not. *)
Theorem answerStructured_budget_monotone
        (options : AnswerStructuredOptions) (m : number) (fuel : nat)
        (v : js) (trace : list Event) :
  le (maxRetries_ options) m = true ->
  run options fuel = Some (Returned v, trace) ->
  run (with_maxRetries options m) fuel = Some (Returned v, trace).
Proof.
  intros Hm Hrun.
  apply RetrySpec.run_returned in Hrun
    as [n [Hn [Hin [Hfail [Hok ->]]]]].
  apply RetrySpec.run_returned. exists n.
  split; [assumption|]. split; [|split; [|split]].
  - unfold in_budget in *. cbn. now apply NumberFacts.lt_le_trans with
      (maxRetries_ options).
  - intros j Hj. rewrite tryAttempt_budget. now apply Hfail.
  - rewrite tryAttempt_budget. exact Hok.
  - reflexivity.
Qed.

End Run.

Lemma answerStructured_budget_monotone_witness :
  answerStructured Scripted.JSON_parse Scripted.JSON_stringify
    Scripted.zod_parse
    (Scripted.create [Ok (Some "oops"); Ok (Some "42")]) Scripted.decimal
    (with_maxRetries (Scripted.ask ZodNumber (Some (of_Z 2)))
                     (Finite (11 # 2))) 3
  = answerStructured Scripted.JSON_parse Scripted.JSON_stringify
      Scripted.zod_parse
      (Scripted.create [Ok (Some "oops"); Ok (Some "42")]) Scripted.decimal
      (Scripted.ask ZodNumber (Some (of_Z 2))) 3.
Proof.
  apply (answerStructured_budget_monotone
           Scripted.JSON_parse Scripted.JSON_stringify Scripted.zod_parse
           (Scripted.create [Ok (Some "oops"); Ok (Some "42")])
           Scripted.decimal
           (Scripted.ask ZodNumber (Some (of_Z 2))) (Finite (11 # 2))
           3%nat (JNum 42)).
  - vm_compute. reflexivity.
  - vm_compute. reflexivity.
Defined.

End RetryMeasures.

(** ** Wrappers and the type of a shape *)

Module SchemaType.
Import Llm LlmMeasures.

Lemma get_set_other (key k : string) (v : js) (fields : list (string * js)) :
  key <> k -> Js.get key (Js.set k v fields) = Js.get key fields.
Proof.
  intros Hne. induction fields as [|[k' old] fields IH]; cbn.
  - apply String.eqb_neq in Hne. rewrite String.eqb_sym in Hne.
    now rewrite Hne.
  - destruct (String.eqb_spec k' k) as [-> | Hk]; cbn.
    + apply String.eqb_neq in Hne. rewrite String.eqb_sym in Hne.
      now rewrite Hne.
    + destruct (String.eqb k' key); [reflexivity | exact IH].
Qed.

(** The [optional] and [nullable] wrappers neither hide nor change the
    type of a shape: the [type] of the shape of a schema is the JSON type
    of the node under the wrappers (none when that node is not one of the
    supported kinds), and the shape carries [nullable: true] exactly when a
    [nullable] wrapper is among them. *)
Theorem shape_type_under_wrappers (schema : ZodType) :
  exists fields,
    zodSchemaToJsonSchema schema = JObj fields /\
    Js.get "type" fields = type_name (core schema) /\
    Js.get "nullable" fields
    = (if has_nullable schema then JBool true else JUndefined).
Proof.
  induction schema as [shape| | | |element _|inner IH|inner IH|options|b];
    cbn [zodSchemaToJsonSchema core has_nullable];
    try (eexists; split; [reflexivity|]; split; reflexivity).
  - destruct (entries zodSchemaToJsonSchema shape [] []) as [properties required].
    eexists. split; [reflexivity|]. split; reflexivity.
  - exact IH.
  - destruct IH as [fields [-> [Htype _]]]. cbn [Js.spread].
    eexists. split; [reflexivity|]. split.
    + rewrite get_set_other by discriminate. exact Htype.
    + apply SchemaSpec.get_set.
Qed.

End SchemaType.

(** ** Admins, the sign-in gate and the environment *)

Module AuthExtras.
Import JsString Config Auth.

Lemma domain_rule_allowed (cfg : AuthConfig) (e : string) (db : Db) :
  domain_rule cfg e -> isEmailAllowed cfg e db = (Ok true, db).
Proof.
  intros Hrule. rewrite AuthSpec.isEmailAllowed_unfold.
  apply AuthSpec.includes_domain_rule in Hrule. now rewrite Hrule.
Qed.

(** Whoever is created as an admin passes the sign-in gate: when
    [createUser] stores a user with the admin flag, the [signIn] callback
    grants the email of that user in every datastore, whatever the
    whitelist holds then. *)
Theorem created_admin_may_sign_in
        (cfg : AuthConfig) (userData : AdapterUser) (db : Db) :
  exists created db',
    createUser cfg userData db = (Ok created, db') /\
    (user_isAdmin created = true ->
     exists e,
       user_email created = Some e /\
       forall later, signIn cfg (Some e) later = (Ok true, later)).
Proof.
  do 2 eexists. split; [reflexivity|]. cbn [user_isAdmin user_email].
  intros Hflag. apply SessionSpec.shouldBeAdmin_rule in Hflag as [e [He Hrule]].
  exists e. split; [exact He|]. intros later.
  unfold signIn. destruct e as [|c e].
  - destruct Hrule as [_ [d [Hd _]]]. cbn in Hd. discriminate.
  - cbn [truthy]. unfold bind.
    now rewrite (domain_rule_allowed cfg (String c e) later Hrule).
Qed.

(** The allowed domains as the environment gives them: the pieces of
    [ALLOWED_EMAIL_DOMAINS] between commas count with the white space
    around them removed, so an address whose domain is such a piece is
    allowed; and when the variable is unset or empty there is no allowed
    domain, so nobody is created as an admin and only the whitelist lets
    an address in. *)
Theorem allowed_domains_from_env (env : option string) :
  (forall v piece name db,
      env = Some v -> v <> EmptyString ->
      In piece (split "," v) ->
      ~ In "@"%char (list_ascii_of_string name) ->
      ~ In "@"%char (list_ascii_of_string (trim piece)) ->
      isEmailAllowed (mkAuthConfig (allowedEmailDomains_of_env env))
                     (name ++ String "@" (trim piece)) db
      = (Ok true, db)) /\
  (env = None \/ env = Some EmptyString ->
   allowedEmailDomains_of_env env = [] /\
   (forall email,
       shouldBeAdmin (mkAuthConfig (allowedEmailDomains_of_env env)) email
       = false) /\
   (forall e db,
       isEmailAllowed (mkAuthConfig (allowedEmailDomains_of_env env)) e db
       = (Ok (existsb (fun r => String.eqb (wl_email r) (toLowerCase e))
                      (email_whitelist db)), db))).
Proof.
  split.
  - intros v piece name db -> Hv Hpiece Hname Hdomain.
    apply domain_rule_allowed.
    assert (Hin : In (trim piece)
                     (allowedEmailDomains_of_env (Some v))).
    { unfold allowedEmailDomains_of_env, getOptionalEnvVar.
      destruct v; [contradiction|]. cbn [truthy]. now apply in_map. }
    split.
    + cbn [allowedEmailDomains]. intros Hnil. rewrite Hnil in Hin.
      destruct Hin.
    + exists (trim piece). split; [|exact Hin].
      now apply AuthSpec.emailDomain_after_at.
  - intros Henv.
    assert (Hnil : allowedEmailDomains_of_env env = []).
    { destruct Henv as [-> | ->]; reflexivity. }
    rewrite Hnil. split; [reflexivity|]. split.
    + intros [e|]; [|reflexivity]. unfold shouldBeAdmin. cbn.
      now rewrite andb_false_r.
    + intros e db. now rewrite WhitelistAccess.isEmailAllowed_closed.
Qed.

Lemma allowed_domains_from_env_witness :
  isEmailAllowed
    (mkAuthConfig (allowedEmailDomains_of_env (Some "acme.com , example.org")))
    "ann@acme.com" (mkDb [] [])
  = (Ok true, mkDb [] []).
Proof.
  apply (proj1 (allowed_domains_from_env (Some "acme.com , example.org"))
               "acme.com , example.org" "acme.com " "ann" (mkDb [] [])).
  - reflexivity.
  - discriminate.
  - cbn. now left.
  - intros H. cbn in H.
    repeat (destruct H as [H | H]; [discriminate H|]). exact H.
  - intros H. cbn in H.
    repeat (destruct H as [H | H]; [discriminate H|]). exact H.
Defined.

End AuthExtras.
